(** * The OpenTTD savegame analyzer: a shallow embedding of
      [analyzer/__main__.py] and the properties of its decoder.

    The development follows the layers of the program:
    - the exceptions the code can raise, as an error monad;
    - byte sources: everything the decoder does to a file is [fp.read(n)];
    - the primitive readers ([read_uint8] ... [read_gamma], [read_str]);
    - the field extractor [analyze_chunk] over the summary dictionary;
    - the chunk loop [analyze_savegame];
    - the zlib adapter [ZLibFile] and the per-file part of [main];
    - the second part of [main]: the common type of a key, the sort and
      the dictionary of the slots, up to what the output files are written
      from. *)

From Stdlib Require Import ZArith List Lia Bool.
From Stdlib Require Import Strings.String Strings.Ascii Strings.Byte.
From Stdlib Require Import Sorting.Sorted.
From stdpp Require Import base tactics option list strings gmap pretty.

Local Open Scope Z_scope.

(** ** Exceptions and the error monad *)

(** The exceptions that can leave the decoder.  [OutOfFuel] is not a Python
    exception: it is the answer of a loop of the model that was given too
    small an iteration bound. *)
Inductive exn : Type :=
| StructError            (* struct.error: unpack requires a buffer of n bytes *)
| InvalidGammaEncoding   (* "read_gamma() failed: invalid encoding" *)
| GarbageAtEnd           (* "Savegame contains garbage at end of file" *)
| InvalidChunkType (type : Z)  (* f"Invalid chunk type {type}" *)
| UnknownCompression     (* "Unknown savegame compression" *)
| UnicodeDecodeError     (* bytes.decode() on malformed UTF-8 *)
| ValueError             (* "read length must be non-negative or -1" *)
| KeyError (key : string)
| TypeError
| EngineError            (* zlib.error / lzma.LZMAError *)
| OutOfFuel.

Inductive result (A : Type) : Type :=
| Ok (a : A)
| Raise (e : exn).
Arguments Ok {A} a.
Arguments Raise {A} e.

#[global] Instance result_ret : MRet result := fun _ a => Ok a.
#[global] Instance result_bind : MBind result := fun _ _ f m =>
  match m with
  | Ok a => f a
  | Raise e => Raise e
  end.

#[global] Instance result_fmap : FMap result := fun _ _ f m =>
  match m with
  | Ok a => Ok (f a)
  | Raise e => Raise e
  end.

Definition is_Ok {A} (r : result A) : Prop := exists a, r = Ok a.

(** ** Bytes *)

Abbreviation bytes := (list byte).

#[global] Instance byte_eq_dec : EqDecision byte := Byte.byte_eq_dec.

(** The integer value of a byte, 0..255. *)
Definition byte_val (b : byte) : Z := Z.of_N (Byte.to_N b).

(** The byte with the given value (taken modulo 256). *)
Definition byte_of_Z (z : Z) : byte :=
  match Byte.of_N (Z.to_N (z mod 256)) with
  | Some b => b
  | None => x00
  end.

(** A Python bytes literal such as [b"MAPS"]. *)
Definition b_ (s : string) : bytes := list_byte_of_string s.

Definition bytes_eqb (x y : bytes) : bool := bool_decide (x = y).

(** Python slices [x[0:n]] and [x[n:]] for any integer [n]: a negative [n]
    counts from the end, and both are clamped to the sequence. *)
Definition slice_to (n : Z) (x : bytes) : bytes :=
  if 0 <=? n then take (Z.to_nat n) x
  else take (length x - Z.to_nat (- n))%nat x.

Definition slice_from (n : Z) (x : bytes) : bytes :=
  if 0 <=? n then drop (Z.to_nat n) x
  else drop (length x - Z.to_nat (- n))%nat x.

(** ** Byte sources *)

(** The decoder is duck-typed over its file argument: the only operation it
    uses is [fp.read(amount)], which returns the bytes read and leaves the
    file advanced. *)
Class ByteSource (F : Type) := read : Z -> F -> result (bytes * F).
#[global] Hint Mode ByteSource ! : typeclass_instances.

(** The object returned by [open(filename, "rb")]: a buffered reader over
    the bytes not yet read.  A non-negative amount reads up to that many
    bytes, [-1] reads to the end of the file, anything below is refused. *)
Record BufferedReader : Type := Buffered { br_rest : bytes }.

#[global] Instance BufferedReader_read : ByteSource BufferedReader :=
  fun amount f =>
    if 0 <=? amount then
      Ok (take (Z.to_nat amount) (br_rest f),
          Buffered (drop (Z.to_nat amount) (br_rest f)))
    else if amount =? -1 then Ok (br_rest f, Buffered [])
    else Raise ValueError.

(** [io.BytesIO(data)]: an in-memory file; every negative amount reads to
    the end. *)
Record BytesIO : Type := InMemory { bio_rest : bytes }.

#[global] Instance BytesIO_read : ByteSource BytesIO :=
  fun amount f =>
    if 0 <=? amount then
      Ok (take (Z.to_nat amount) (bio_rest f),
          InMemory (drop (Z.to_nat amount) (bio_rest f)))
    else Ok (bio_rest f, InMemory []).

(** ** Primitive reader *)

(** [struct.unpack(">B", data)[0]], [">H"] and [">I"]: big-endian, and a
    struct.error unless the buffer has exactly the size of the format. *)
Definition unpack_B (data : bytes) : result Z :=
  match data with
  | [b0] => Ok (byte_val b0)
  | _ => Raise StructError
  end.

Definition unpack_H (data : bytes) : result Z :=
  match data with
  | [b0; b1] => Ok (Z.lor (Z.shiftl (byte_val b0) 8) (byte_val b1))
  | _ => Raise StructError
  end.

Definition unpack_I (data : bytes) : result Z :=
  match data with
  | [b0; b1; b2; b3] =>
      Ok (Z.lor (Z.shiftl (byte_val b0) 24)
         (Z.lor (Z.shiftl (byte_val b1) 16)
         (Z.lor (Z.shiftl (byte_val b2) 8) (byte_val b3))))
  | _ => Raise StructError
  end.

Section PrimitiveReader.
Context {F : Type} `{!ByteSource F}.

Definition read_uint8 (fp : F) : result (Z * F) :=
  '(data, fp) ← read 1 fp;
  v ← unpack_B data;
  mret (v, fp).

Definition read_uint16 (fp : F) : result (Z * F) :=
  '(data, fp) ← read 2 fp;
  v ← unpack_H data;
  mret (v, fp).

Definition read_uint24 (fp : F) : result (Z * F) :=
  '(hi, fp) ← read_uint16 fp;
  '(lo, fp) ← read_uint8 fp;
  mret (Z.lor (Z.shiftl hi 8) lo, fp).

Definition read_uint32 (fp : F) : result (Z * F) :=
  '(data, fp) ← read 4 fp;
  v ← unpack_I data;
  mret (v, fp).

(** [read_gamma] returns the pair (value, number of bytes of the
    encoding). *)
Definition read_gamma (fp : F) : result ((Z * Z) * F) :=
  '(b, fp) ← read_uint8 fp;
  if Z.land b 0x80 =? 0 then
    mret ((Z.land b 0x7F, 1), fp)
  else if Z.land b 0xC0 =? 0x80 then
    '(lo, fp) ← read_uint8 fp;
    mret ((Z.lor (Z.shiftl (Z.land b 0x3F) 8) lo, 2), fp)
  else if Z.land b 0xE0 =? 0xC0 then
    '(lo, fp) ← read_uint16 fp;
    mret ((Z.lor (Z.shiftl (Z.land b 0x1F) 16) lo, 3), fp)
  else if Z.land b 0xF0 =? 0xE0 then
    '(lo, fp) ← read_uint24 fp;
    mret ((Z.lor (Z.shiftl (Z.land b 0x0F) 24) lo, 4), fp)
  else if Z.land b 0xF8 =? 0xF0 then
    '(lo, fp) ← read_uint32 fp;
    mret ((Z.lor (Z.shiftl (Z.land b 0x07) 32) lo, 5), fp)
  else Raise InvalidGammaEncoding.
End PrimitiveReader.

(** ** Text *)

(** A Python [str]: its code points. *)
Abbreviation pystr := (list Z).

Definition is_cont (c : Z) : bool := (0x80 <=? c) && (c <=? 0xBF).

(** The range allowed for the second byte of a three- and of a four-byte
    sequence: no overlong form, no surrogate, nothing above U+10FFFF. *)
Definition second_of_3 (c0 c1 : Z) : bool :=
  if c0 =? 0xE0 then (0xA0 <=? c1) && (c1 <=? 0xBF)
  else if c0 =? 0xED then (0x80 <=? c1) && (c1 <=? 0x9F)
  else is_cont c1.

Definition second_of_4 (c0 c1 : Z) : bool :=
  if c0 =? 0xF0 then (0x90 <=? c1) && (c1 <=? 0xBF)
  else if c0 =? 0xF4 then (0x80 <=? c1) && (c1 <=? 0x8F)
  else is_cont c1.

(** [data.decode()]: strict UTF-8. *)
Fixpoint decode (data : bytes) : result pystr :=
  match data with
  | [] => Ok []
  | b0 :: t0 =>
    let c0 := byte_val b0 in
    if c0 <? 0x80 then s ← decode t0; mret (c0 :: s)
    else
      match t0 with
      | [] => Raise UnicodeDecodeError
      | b1 :: t1 =>
        let c1 := byte_val b1 in
        if (0xC2 <=? c0) && (c0 <=? 0xDF) then
          if is_cont c1 then
            s ← decode t1;
            mret (Z.lor (Z.shiftl (Z.land c0 0x1F) 6) (Z.land c1 0x3F) :: s)
          else Raise UnicodeDecodeError
        else
          match t1 with
          | [] => Raise UnicodeDecodeError
          | b2 :: t2 =>
            let c2 := byte_val b2 in
            if (0xE0 <=? c0) && (c0 <=? 0xEF) then
              if second_of_3 c0 c1 && is_cont c2 then
                s ← decode t2;
                mret (Z.lor (Z.shiftl (Z.land c0 0x0F) 12)
                     (Z.lor (Z.shiftl (Z.land c1 0x3F) 6) (Z.land c2 0x3F)) :: s)
              else Raise UnicodeDecodeError
            else
              match t2 with
              | [] => Raise UnicodeDecodeError
              | b3 :: t3 =>
                let c3 := byte_val b3 in
                if (0xF0 <=? c0) && (c0 <=? 0xF4) then
                  if second_of_4 c0 c1 && is_cont c2 && is_cont c3 then
                    s ← decode t3;
                    mret (Z.lor (Z.shiftl (Z.land c0 0x07) 18)
                         (Z.lor (Z.shiftl (Z.land c1 0x3F) 12)
                         (Z.lor (Z.shiftl (Z.land c2 0x3F) 6) (Z.land c3 0x3F))) :: s)
                  else Raise UnicodeDecodeError
                else Raise UnicodeDecodeError
              end
          end
      end
  end.

Definition read_str {F : Type} `{!ByteSource F} (fp : F) : result (pystr * F) :=
  '((size, _), fp) ← read_gamma fp;
  '(data, fp) ← read size fp;
  s ← decode data;
  mret (s, fp).

(** ** The summary record and the field extractor *)

(** The values of the summary dictionary: int, str or bytes. *)
Inductive value : Type :=
| VInt (n : Z)
| VStr (s : string)
| VBytes (b : bytes).

Abbreviation summary := (gmap string value).

(** [analysis[key] += 1]. *)
Definition increment (key : string) (analysis : summary) : result summary :=
  match analysis !! key with
  | None => Raise (KeyError key)
  | Some (VInt n) => Ok (<[key := VInt (n + 1)]> analysis)
  | Some _ => Raise TypeError
  end.

(** The idiom of the three counters:
      if guard not in analysis: analysis[key] = 0
      analysis[key] += 1 *)
Definition count (guard key : string) (analysis : summary) : result summary :=
  let analysis :=
    match analysis !! guard with
    | None => <[key := VInt 0]> analysis
    | Some _ => analysis
    end in
  increment key analysis.

(** ["%dx%d" % (w, h)]. *)
Definition format_dxd (w h : Z) : string := pretty w +:+ "x" +:+ pretty h.

Definition analyze_chunk (tag : bytes) (index : Z) (data : bytes)
    (analysis : summary) : result summary :=
  let fp := InMemory data in
  '(fp, analysis) ←
    (if bytes_eqb tag (b_ "MAPS") then
       '(w, fp) ← read_uint32 fp;
       '(h, fp) ← read_uint32 fp;
       mret (fp, <["map-size" := VStr (format_dxd w h)]> analysis)
     else mret (fp, analysis));
  analysis ←
    (if bytes_eqb tag (b_ "NGRF") then count "newgrf" "newgrf-count" analysis
     else mret analysis);
  '(fp, analysis) ←
    (if bytes_eqb tag (b_ "AIPL") then
       '(name, fp) ← read_str fp;
       match name with
       | [] => mret (fp, analysis)
       | _ :: _ => analysis ← count "ai" "ai-count" analysis; mret (fp, analysis)
       end
     else mret (fp, analysis));
  if bytes_eqb tag (b_ "GSDT") then
    '(name, fp) ← read_str fp;
    match name with
    | [] => mret analysis
    | _ :: _ => count "gs" "gs-count" analysis
    end
  else mret analysis.

(** ** The chunk loop *)

Section ChunkLoop.
Context {F : Type} `{!ByteSource F}.
(** What is done with each (tag, index, payload) the loop produces; the
    program passes them to [analyze_chunk]. *)
Context {A : Type} (visit : bytes -> Z -> bytes -> A -> result A).

(** The inner [while True] of the array and sparse-array layouts. *)
Fixpoint read_records (fuel : nat) (tag : bytes) (type index : Z) (fp : F)
    (analysis : A) : result (F * A) :=
  match fuel with
  | O => Raise OutOfFuel
  | S fuel =>
    '((gamma, _), fp) ← read_gamma fp;
    let size := gamma - 1 in
    if size <? 0 then mret (fp, analysis)
    else
      '(index, size, fp) ←
        (if type =? 2 then
           '((index, index_size), fp) ← read_gamma fp;
           mret (index, size - index_size, fp)
         else mret (index + 1, size, fp));
      '(data, fp) ← read size fp;
      analysis ← visit tag index data analysis;
      read_records fuel tag type index fp analysis
  end.

Fixpoint analyze_savegame_with (fuel : nat) (fp : F) (analysis : A)
    : result A :=
  match fuel with
  | O => Raise OutOfFuel
  | S fuel =>
    '(tag, fp) ← read 4 fp;
    if (length tag =? 0)%nat || bytes_eqb tag [x00; x00; x00; x00] then
      mret analysis
    else if negb (length tag =? 4)%nat then Raise GarbageAtEnd
    else
      '(type, fp) ← read_uint8 fp;
      if Z.land type 0x0F =? 0x00 then
        '(lo, fp) ← read_uint24 fp;
        let size := Z.lor (Z.shiftl type 20) lo in
        '(data, fp) ← read size fp;
        analysis ← visit tag (-1) data analysis;
        analyze_savegame_with fuel fp analysis
      else if (type =? 1) || (type =? 2) then
        '(fp, analysis) ← read_records fuel tag type (-1) fp analysis;
        analyze_savegame_with fuel fp analysis
      else Raise (InvalidChunkType type)
  end.
End ChunkLoop.

(** The array and the sparse-array layout in the words of the description
    of the format (the states of its chunk iterator), to compare the loop of
    the program with. *)
Section Layouts.
Context {F : Type} `{!ByteSource F}.
Context {A : Type} (visit : bytes -> Z -> bytes -> A -> result A).

(** Array: a gamma before each record; 0 ends the array, otherwise the
    record has gamma - 1 bytes; the records are numbered 0, 1, 2, ... as
    they come. *)
Fixpoint spec_array_layout (fuel : nat) (tag : bytes) (next_index : Z) (fp : F)
    (analysis : A) : result (F * A) :=
  match fuel with
  | O => Raise OutOfFuel
  | S fuel =>
    '((gamma, _), fp) ← read_gamma fp;
    if gamma =? 0 then mret (fp, analysis)
    else
      '(data, fp) ← read (gamma - 1) fp;
      analysis ← visit tag next_index data analysis;
      spec_array_layout fuel tag (next_index + 1) fp analysis
  end.

(** Sparse array: as the array, but a second gamma after the length gives
    the index of the record, and its bytes count in the length. *)
Fixpoint spec_sparse_layout (fuel : nat) (tag : bytes) (fp : F) (analysis : A)
    : result (F * A) :=
  match fuel with
  | O => Raise OutOfFuel
  | S fuel =>
    '((gamma_len, _), fp) ← read_gamma fp;
    if gamma_len =? 0 then mret (fp, analysis)
    else
      '((index, index_bytes), fp) ← read_gamma fp;
      '(data, fp) ← read ((gamma_len - 1) - index_bytes) fp;
      analysis ← visit tag index data analysis;
      spec_sparse_layout fuel tag fp analysis
  end.
End Layouts.

(** [analyze_savegame(fp, analysis)]. *)
Definition analyze_savegame {F : Type} `{!ByteSource F} (fuel : nat) (fp : F)
    (analysis : summary) : result summary :=
  analyze_savegame_with analyze_chunk fuel fp analysis.

(** The (tag, index, payload) triples of a stream, in the order the loop
    produces them. *)
Definition item : Type := bytes * Z * bytes.

Definition emit (tag : bytes) (index : Z) (data : bytes) (acc : list item)
    : result (list item) :=
  Ok (acc ++ [(tag, index, data)]).

Definition chunk_items {F : Type} `{!ByteSource F} (fuel : nat) (fp : F)
    : result (list item) :=
  analyze_savegame_with emit fuel fp [].

(** ** Decompression adapters and the per-file part of [main] *)

(** [filename.split("/")[-1]]: what follows the last slash. *)
Fixpoint last_component (acc s : string) : string :=
  match s with
  | EmptyString => acc
  | String c s' =>
    if Ascii.eqb c "/"%char then last_component EmptyString s'
    else last_component (acc +:+ String c EmptyString) s'
  end.

Definition initial_analysis (filename : string) (savegame_version : Z)
    (format : bytes) : summary :=
  <["filename" := VStr (last_component EmptyString filename)]>
  (<["savegame-version" := VInt savegame_version]>
  (<["compression" := VBytes format]> ∅)).

(** The inflate engine, which the program takes from [zlib]: the object
    [zlib.decompressobj()] returns and its [decompress] method, which gives
    the bytes that come out and leaves the object advanced. *)
Class InflateEngine (D : Type) : Type := {
  decompressobj : D;
  decompress : bytes -> D -> result (bytes * D)
}.

Section Adapters.
Context {D : Type} `{!InflateEngine D}.
(** The file objects of [lzma.open]. *)
Context {L : Type} `{!ByteSource L} (lzma_open : BufferedReader -> L).

Record ZLibFile : Type := MkZLibFile {
  file : BufferedReader;
  decompressor : D;
  uncompressed : bytes
}.

Definition ZLibFile_open (f : BufferedReader) : ZLibFile :=
  MkZLibFile f decompressobj [].

(** The [while] loop of [ZLibFile.read]. *)
Fixpoint fill (fuel : nat) (amount : Z) (z : ZLibFile) : result ZLibFile :=
  match fuel with
  | O => Raise OutOfFuel
  | S fuel =>
    if Z.of_nat (length (uncompressed z)) <? amount then
      '(new_data, f) ← read 8192 (file z);
      if (length new_data =? 0)%nat then
        mret (MkZLibFile f (decompressor z) (uncompressed z))
      else
        '(out, d) ← decompress new_data (decompressor z);
        fill fuel amount (MkZLibFile f d (uncompressed z ++ out))
    else mret z
  end.

(** [ZLibFile.read].  Every turn of the loop but the last takes at least
    one byte from the raw file, so the loop is given one turn more than
    the raw file has bytes (see [fill_fuel]). *)
Definition ZLibFile_read (amount : Z) (z : ZLibFile)
    : result (bytes * ZLibFile) :=
  z ← fill (S (length (br_rest (file z)))) amount z;
  mret (slice_to amount (uncompressed z),
        MkZLibFile (file z) (decompressor z)
                   (slice_from amount (uncompressed z))).

#[global] Instance ZLibFile_ByteSource : ByteSource ZLibFile := ZLibFile_read.

(** A sequence of [read] calls on one adapter, with the slices they
    return. *)
Fixpoint read_calls (amounts : list Z) (z : ZLibFile)
    : result (list bytes * ZLibFile) :=
  match amounts with
  | [] => Ok ([], z)
  | amount :: amounts =>
    '(data, z) ← read amount z;
    '(slices, z) ← read_calls amounts z;
    mret (data :: slices, z)
  end.

(** The decompressed logical stream still to be delivered: what the engine
    makes of the raw bytes, fed in pieces of 8192 bytes, up to the end of
    the raw file or to the first piece the engine refuses. *)
Fixpoint inflate_all (fuel : nat) (raw : bytes) (d : D) : bytes :=
  match fuel, raw with
  | O, _ | _, [] => []
  | S fuel, _ :: _ =>
    match decompress (take (Z.to_nat 8192) raw) d with
    | Ok (out, d) => out ++ inflate_all fuel (drop (Z.to_nat 8192) raw) d
    | Raise _ => []
    end
  end.

Definition logical_stream (z : ZLibFile) : bytes :=
  uncompressed z
  ++ inflate_all (length (br_rest (file z))) (br_rest (file z)) (decompressor z).

(** The engine fed with the first [pieces] pieces of 8192 bytes of the raw
    bytes, one after the other: what comes out, and the engine after. *)
Fixpoint feed (pieces : nat) (raw : bytes) (d : D) : result (bytes * D) :=
  match pieces with
  | O => Ok ([], d)
  | S pieces =>
    '(out, d) ← decompress (take (Z.to_nat 8192) raw) d;
    '(more, d) ← feed pieces (drop (Z.to_nat 8192) raw) d;
    mret (out ++ more, d)
  end.

(** The raw source has nothing left and nothing is buffered. *)
Definition exhausted (z : ZLibFile) : Prop :=
  br_rest (file z) = [] /\ uncompressed z = [].

(** What [decompressor.open(fp)] can return. *)
Inductive savefile : Type :=
| OfPlainFile (f : BufferedReader)
| OfZLibFile (z : ZLibFile)
| OfLzma (l : L).

#[global] Instance savefile_ByteSource : ByteSource savefile :=
  fun amount fp =>
    match fp with
    | OfPlainFile f => '(data, f) ← read amount f; mret (data, OfPlainFile f)
    | OfZLibFile z => '(data, z) ← read amount z; mret (data, OfZLibFile z)
    | OfLzma l => '(data, l) ← read amount l; mret (data, OfLzma l)
    end.

(** The table [UNCOMPRESS], with [.get(format)] and [.open] applied. *)
Definition UNCOMPRESS (format : bytes) : option (BufferedReader -> savefile) :=
  if bytes_eqb format (b_ "OTTN") then Some OfPlainFile
  else if bytes_eqb format (b_ "OTTZ") then
    Some (fun f => OfZLibFile (ZLibFile_open f))
  else if bytes_eqb format (b_ "OTTX") then
    Some (fun f => OfLzma (lzma_open f))
  else None.

(** The body of the [for filename in files] loop of [main], up to the
    summary record of the file. *)
Definition main_file (fuel : nat) (filename : string) (contents : bytes)
    : result summary :=
  let fp := Buffered contents in
  '(format, fp) ← read 4 fp;
  '(savegame_version, fp) ← read_uint16 fp;
  '(_, fp) ← read_uint16 fp;
  let analysis := initial_analysis filename savegame_version format in
  match UNCOMPRESS format with
  | None => Raise UnknownCompression
  | Some decompressor_open =>
    analyze_savegame fuel (decompressor_open fp) analysis
  end.
End Adapters.

(** An inflate engine for data that was stored as it is: it hands back what
    it is fed.  It stands in for zlib where a concrete adapter is run. *)
Definition stored (data : bytes) (d : unit) : result (bytes * unit) :=
  Ok (data, d).

#[global] Instance stored_engine : InflateEngine unit :=
  {| decompressobj := tt; decompress := stored |}.

(** ** The gamma encoder *)

(** Modelled from the spec: the encoder that the round trip of the gamma
    table refers to (the program only reads savegames).  Each value takes
    the shortest of the five forms of the table that holds it. *)
Definition spec_write_gamma (v : Z) : bytes :=
  if v <? 2 ^ 7 then [byte_of_Z v]
  else if v <? 2 ^ 14 then
    [byte_of_Z (Z.lor 0x80 (Z.shiftr v 8)); byte_of_Z v]
  else if v <? 2 ^ 21 then
    [byte_of_Z (Z.lor 0xC0 (Z.shiftr v 16)); byte_of_Z (Z.shiftr v 8);
     byte_of_Z v]
  else if v <? 2 ^ 28 then
    [byte_of_Z (Z.lor 0xE0 (Z.shiftr v 24)); byte_of_Z (Z.shiftr v 16);
     byte_of_Z (Z.shiftr v 8); byte_of_Z v]
  else
    [byte_of_Z (Z.lor 0xF0 (Z.shiftr v 32)); byte_of_Z (Z.shiftr v 24);
     byte_of_Z (Z.shiftr v 16); byte_of_Z (Z.shiftr v 8); byte_of_Z v].

(** The big-endian value of two and of three bytes, as [read_uint16] and
    [read_uint24] put them together. *)
Definition be16 (b1 b0 : byte) : Z :=
  Z.lor (Z.shiftl (byte_val b1) 8) (byte_val b0).

Definition be24 (b2 b1 b0 : byte) : Z :=
  Z.lor (Z.shiftl (be16 b2 b1) 8) (byte_val b0).

Definition be32 (b3 b2 b1 b0 : byte) : Z :=
  Z.lor (Z.shiftl (byte_val b3) 24)
 (Z.lor (Z.shiftl (byte_val b2) 16)
 (Z.lor (Z.shiftl (byte_val b1) 8) (byte_val b0))).

(** The all-zero tag that ends the chunk stream. *)
Definition zero_tag : bytes := [x00; x00; x00; x00].

(** The tags the field extractor handles. *)
Definition handled (tag : bytes) : Prop :=
  tag = b_ "MAPS" \/ tag = b_ "NGRF" \/ tag = b_ "AIPL" \/ tag = b_ "GSDT".

(** The keys the field extractor may write. *)
Definition extractor_key (key : string) : Prop :=
  key = "map-size" \/ key = "newgrf-count" \/ key = "ai-count"
  \/ key = "gs-count".

(** The three entries [main] puts in the summary before the chunk loop. *)
Definition header_key (key : string) : Prop :=
  key = "filename" \/ key = "savegame-version" \/ key = "compression".

(** The number a sequence of bytes stands for, most significant byte
    first. *)
Definition big_endian (data : bytes) : Z :=
  fold_left (fun acc b => acc * 256 + byte_val b) data 0.

(** What an entry of the summary of a decoded file looks like: the three
    entries [main] writes and the four the field extractor writes. *)
Definition entry_ok (key : string) (v : value) : Prop :=
  (key = "filename" /\ exists name, v = VStr name) \/
  (key = "savegame-version" /\ exists n, v = VInt n /\ 0 <= n < 2 ^ 16) \/
  (key = "compression" /\
   (v = VBytes (b_ "OTTN") \/ v = VBytes (b_ "OTTZ") \/ v = VBytes (b_ "OTTX"))) \/
  (key = "map-size" /\
   exists w h, 0 <= w < 2 ^ 32 /\ 0 <= h < 2 ^ 32 /\ v = VStr (format_dxd w h)) \/
  ((key = "newgrf-count" \/ key = "ai-count" \/ key = "gs-count") /\ v = VInt 1).

Definition summary_shape (a : summary) : Prop :=
  (forall key v, a !! key = Some v -> entry_ok key v) /\
  is_Some (a !! "filename") /\ is_Some (a !! "savegame-version") /\
  is_Some (a !! "compression").

(** Whether a slash occurs in a text. *)
Fixpoint has_slash (s : string) : bool :=
  match s with
  | EmptyString => false
  | String c s' => Ascii.eqb c "/"%char || has_slash s'
  end.

(** A sequence of [read] calls on any byte source, with the slices they
    return. *)
Fixpoint read_seq {F : Type} `{!ByteSource F} (amounts : list Z) (fp : F)
    : result (list bytes * F) :=
  match amounts with
  | [] => Ok ([], fp)
  | amount :: amounts =>
    '(data, fp) ← read amount fp;
    '(slices, fp) ← read_seq amounts fp;
    mret (data :: slices, fp)
  end.

(** ** Writing a chunk stream *)

(** Modelled from the spec: the three layouts of a chunk in the words of
    the description of the format, written out as bytes (the program only
    reads savegames), to read back with the chunk loop.  A block holds one
    payload; an array holds records, numbered as they come; a sparse array
    holds records with their own index. *)
Inductive chunk : Type :=
| BlockChunk (tag payload : bytes)
| ArrayChunk (tag : bytes) (records : list bytes)
| SparseChunk (tag : bytes) (records : list (Z * bytes)).

(** A block: the header byte has low nibble 0 and bits 24-27 of the length
    in its high nibble; the other 24 bits follow, then the payload. *)
Definition spec_write_block (payload : bytes) : bytes :=
  let size := Z.of_nat (length payload) in
  byte_of_Z (Z.shiftl (Z.shiftr size 24) 4) :: byte_of_Z (Z.shiftr size 16)
  :: byte_of_Z (Z.shiftr size 8) :: byte_of_Z size :: payload.

(** A record of an array: the gamma of its length plus one, then its
    bytes. *)
Definition spec_write_record (payload : bytes) : bytes :=
  spec_write_gamma (Z.of_nat (length payload) + 1) ++ payload.

(** A record of a sparse array: the bytes of the index gamma count in the
    length. *)
Definition spec_write_indexed (r : Z * bytes) : bytes :=
  let index_gamma := spec_write_gamma r.1 in
  spec_write_gamma (Z.of_nat (length r.2) + 1 + Z.of_nat (length index_gamma))
  ++ index_gamma ++ r.2.

Definition spec_write_chunk (c : chunk) : bytes :=
  match c with
  | BlockChunk tag payload => tag ++ spec_write_block payload
  | ArrayChunk tag records =>
      tag ++ x01 :: concat (map spec_write_record records) ++ [x00]
  | SparseChunk tag records =>
      tag ++ x02 :: concat (map spec_write_indexed records) ++ [x00]
  end.

(** What can be written: a tag of four bytes that is not the end marker, a
    block below 2^28 bytes, and lengths and indices that a gamma holds. *)
Definition chunk_tag (c : chunk) : bytes :=
  match c with
  | BlockChunk tag _ | ArrayChunk tag _ | SparseChunk tag _ => tag
  end.

Definition chunk_ok (c : chunk) : Prop :=
  length (chunk_tag c) = 4%nat /\ chunk_tag c <> zero_tag /\
  match c with
  | BlockChunk _ payload => Z.of_nat (length payload) < 2 ^ 28
  | ArrayChunk _ records =>
      Forall (fun p => Z.of_nat (length p) + 1 < 2 ^ 35) records
  | SparseChunk _ records =>
      Forall (fun r => 0 <= r.1 < 2 ^ 35 /\
                       Z.of_nat (length r.2) + 6 < 2 ^ 35) records
  end.

(** The (tag, index, payload) triples that a chunk stands for. *)
Definition spec_items (c : chunk) : list item :=
  match c with
  | BlockChunk tag payload => [(tag, -1, payload)]
  | ArrayChunk tag records => imap (fun i p => (tag, Z.of_nat i, p)) records
  | SparseChunk tag records => map (fun r => (tag, r.1, r.2)) records
  end.

(** The visits of a list of triples, one after the other. *)
Fixpoint visit_all {A : Type} (visit : bytes -> Z -> bytes -> A -> result A)
    (items : list item) (analysis : A) : result A :=
  match items with
  | [] => Ok analysis
  | (tag, index, data) :: items =>
    analysis ← visit tag index data analysis;
    visit_all visit items analysis
  end.

(** ** The files of a run and the grouping by key *)

(** The first loop of [main]: the summary records of the files, in the
    order of the command line; the first file that fails ends the run. *)
Fixpoint main_files {D : Type} `{!InflateEngine D} {L : Type} `{!ByteSource L}
    (lzma_open : BufferedReader -> L) (fuel : nat)
    (files : list (string * bytes)) : result (list summary) :=
  match files with
  | [] => Ok []
  | (filename, contents) :: files =>
    analysis ← main_file lzma_open fuel filename contents;
    analysis_all ← main_files lzma_open fuel files;
    mret (analysis :: analysis_all)
  end.

(** [keys]: the keys of all the records. *)
Fixpoint keys_of (analysis_all : list summary) : gset string :=
  match analysis_all with
  | [] => ∅
  | analysis :: analysis_all => dom analysis ∪ keys_of analysis_all
  end.

(** [type(v)] of a value of a summary. *)
Inductive pytype : Type := TInt | TStr | TBytes.

#[global] Instance pytype_eq_dec : EqDecision pytype.
Proof. solve_decision. Defined.

#[global] Instance value_eq_dec : EqDecision value.
Proof. solve_decision. Defined.

Definition type_of (v : value) : pytype :=
  match v with
  | VInt _ => TInt
  | VStr _ => TStr
  | VBytes _ => TBytes
  end.

(** The loop that looks for the common type of the values under [key]; it
    leaves [None] when no record has the key and when two records differ. *)
Fixpoint detect_type_loop (key : string) (detect_type : option pytype)
    (analysis_all : list summary) : option pytype :=
  match analysis_all with
  | [] => detect_type
  | analysis :: analysis_all =>
    match analysis !! key with
    | None => detect_type_loop key detect_type analysis_all
    | Some v =>
      let t := type_of v in
      match detect_type with
      | None => detect_type_loop key (Some t) analysis_all
      | Some t' =>
        if bool_decide (t' = t) then detect_type_loop key (Some t) analysis_all
        else None
      end
    end
  end.

(** The default of each type.  A value of a summary is an int, a str or a
    bytes, so the last [else] of the program (no default value) has no
    case here. *)
Definition default_value (t : pytype) : value :=
  match t with
  | TInt => VInt 0
  | TStr => VStr ""
  | TBytes => VBytes []
  end.

(** The order of Python on sequences: the first place where they differ
    decides, and a proper prefix is smaller. *)
Fixpoint lex_ltb (x y : list Z) : bool :=
  match x, y with
  | _, [] => false
  | [], _ :: _ => true
  | a :: x, b :: y => (a <? b) || ((a =? b) && lex_ltb x y)
  end.

(** [x < y] on values: defined inside one type, a TypeError across types.
    A text is held as its UTF-8 bytes, whose order is that of the code
    points. *)
Definition value_lt (x y : value) : result bool :=
  match x, y with
  | VInt a, VInt b => Ok (a <? b)
  | VStr a, VStr b =>
      Ok (lex_ltb (map byte_val (b_ a)) (map byte_val (b_ b)))
  | VBytes a, VBytes b => Ok (lex_ltb (map byte_val a) (map byte_val b))
  | _, _ => Raise TypeError
  end.

(** [sorted(l, key=f)].  Python's sort is stable and compares the keys with
    [<] only; on keys of one type the outcome does not depend on the
    algorithm, and an insertion from the front stands for it: a record
    goes in front of the first one whose key is not smaller. *)
Section SortedBuiltin.
Context {X : Type} (f : X -> value).

Fixpoint insert_sorted (x : X) (l : list X) : result (list X) :=
  match l with
  | [] => Ok [x]
  | y :: l' =>
    smaller ← value_lt (f y) (f x);
    if smaller : bool then rest ← insert_sorted x l'; mret (y :: rest)
    else mret (x :: l)
  end.

Fixpoint sorted (l : list X) : result (list X) :=
  match l with
  | [] => Ok []
  | x :: l =>
    rest ← sorted l;
    insert_sorted x rest
  end.
End SortedBuiltin.

(** ["unknown"], the slot of the records without the key. *)
Definition unknown : value := VStr "unknown".

(** [values[slot].append(x)] on a [defaultdict(list)]: a dictionary keeps
    its keys in the order in which they came in.  The keys are what [slot]
    can hold: [None] or a value. *)
Abbreviation slots := (list (option value * list value)).

Fixpoint dict_append (slot : option value) (x : value) (values : slots)
    : slots :=
  match values with
  | [] => [(slot, [x])]
  | (k, xs) :: values' =>
    if bool_decide (k = slot) then (k, xs ++ [x]) :: values'
    else (k, xs) :: dict_append slot x values'
  end.

(** The loop over the sorted records. *)
Fixpoint group_loop (key : string) (last_value slot : option value)
    (values : slots) (analysis_all : list summary) : result slots :=
  match analysis_all with
  | [] => Ok values
  | analysis :: analysis_all =>
    let value :=
      match analysis !! key with
      | None => unknown
      | Some v => v
      end in
    let '(slot, last_value) :=
      if bool_decide (last_value <> Some value) then (Some value, Some value)
      else (slot, last_value) in
    match analysis !! "filename" with
    | None => Raise (KeyError "filename")
    | Some filename =>
      group_loop key last_value slot (dict_append slot filename values)
        analysis_all
    end
  end.

(** What can end the second part of [main]: an exception of Python, or the
    program's own "Failed to detect common type". *)
Inductive main_exn : Type :=
| PythonError (e : exn)
| NoCommonType (key : string).

Inductive outcome (A : Type) : Type :=
| Done (a : A)
| Failed (e : main_exn).
Arguments Done {A} a.
Arguments Failed {A} e.

(** The body of [for key in keys], up to the dictionary [values] that the
    two files of the key are written from. *)
Definition values_of_key (key : string) (analysis_all : list summary)
    : outcome slots :=
  match detect_type_loop key None analysis_all with
  | None => Failed (NoCommonType key)
  | Some detect_type =>
    let default := default_value detect_type in
    let sort_key (x : summary) :=
      match x !! key with
      | None => default
      | Some v => v
      end in
    match sorted sort_key analysis_all with
    | Raise e => Failed (PythonError e)
    | Ok in_order =>
      match group_loop key None None [] in_order with
      | Raise e => Failed (PythonError e)
      | Ok values => Done values
      end
    end
  end.

(** The slot a record belongs to, and the names filed under a value: the
    files of the records with that value, in the order of the list. *)
Definition slot_of (key : string) (analysis : summary) : value :=
  match analysis !! key with
  | None => unknown
  | Some v => v
  end.

Definition filenames_with (key : string) (v : value)
    (analysis_all : list summary) : list value :=
  omap (fun analysis => analysis !! "filename")
    (filter (fun analysis => slot_of key analysis = v) analysis_all).

(** [values.get(slot, [])]. *)
Fixpoint dict_get (slot : option value) (values : slots) : list value :=
  match values with
  | [] => []
  | (k, xs) :: values' =>
    if bool_decide (k = slot) then xs else dict_get slot values'
  end.

(** * Properties *)

(** Closed equations are settled by evaluating both sides. *)
Ltac by_vm :=
  lazymatch goal with
  | |- @eq ?T ?l ?r => exact (@eq_refl T r <: @eq T l r)
  end.

(** ** Bytes *)

Lemma byte_val_range (b : byte) : 0 <= byte_val b < 256.
Proof.
  unfold byte_val. pose proof (Byte.to_N_bounded b) as H.
  split; [apply N2Z.is_nonneg | lia].
Qed.

Lemma byte_val_of_Z (z : Z) : byte_val (byte_of_Z z) = z mod 256.
Proof.
  unfold byte_val, byte_of_Z.
  pose proof (Z.mod_pos_bound z 256 eq_refl) as Hr.
  destruct (Byte.of_N (Z.to_N (z mod 256))) as [b|] eqn:E.
  - apply Byte.to_of_N in E. rewrite E. lia.
  - apply Byte.of_N_None_iff in E. lia.
Qed.

Lemma byte_val_inj (b c : byte) : byte_val b = byte_val c -> b = c.
Proof.
  unfold byte_val. intros H. apply N2Z.inj in H.
  apply (f_equal Byte.of_N) in H. rewrite !Byte.of_to_N in H. congruence.
Qed.

Lemma bytes_eqb_eq (x y : bytes) : bytes_eqb x y = true <-> x = y.
Proof. unfold bytes_eqb. apply bool_decide_eq_true. Qed.

Lemma bytes_eqb_neq (x y : bytes) : bytes_eqb x y = false <-> x <> y.
Proof. unfold bytes_eqb. apply bool_decide_eq_false. Qed.

Lemma slice_to_from (n : Z) (x : bytes) : slice_to n x ++ slice_from n x = x.
Proof. unfold slice_to, slice_from. destruct (0 <=? n); apply take_drop. Qed.

(** ** The primitive reader on a buffered file *)

Lemma read_uint8_nil : read_uint8 (Buffered []) = Raise StructError.
Proof. reflexivity. Qed.

Lemma read_uint8_cons (b : byte) (s : bytes) :
  read_uint8 (Buffered (b :: s)) = Ok (byte_val b, Buffered s).
Proof. reflexivity. Qed.

Lemma read_uint16_cons (b1 b0 : byte) (s : bytes) :
  read_uint16 (Buffered (b1 :: b0 :: s)) = Ok (be16 b1 b0, Buffered s).
Proof. reflexivity. Qed.

Lemma read_uint24_cons (b2 b1 b0 : byte) (s : bytes) :
  read_uint24 (Buffered (b2 :: b1 :: b0 :: s)) = Ok (be24 b2 b1 b0, Buffered s).
Proof. reflexivity. Qed.

Lemma read_uint32_cons (b3 b2 b1 b0 : byte) (s : bytes) :
  read_uint32 (Buffered (b3 :: b2 :: b1 :: b0 :: s))
  = Ok (be32 b3 b2 b1 b0, Buffered s).
Proof. reflexivity. Qed.

(** The tests of [read_gamma] on the first byte, by its leading bits.  Each
    is settled by running through the 256 bytes. *)
Ltac by_byte_cases b :=
  destruct b; vm_compute; intros; repeat split; congruence.

Lemma prefix_0 (b : byte) :
  Z.shiftr (byte_val b) 7 = 0 -> (Z.land (byte_val b) 0x80 =? 0) = true.
Proof. by_byte_cases b. Qed.

Lemma prefix_10 (b : byte) :
  Z.shiftr (byte_val b) 6 = 2 ->
  (Z.land (byte_val b) 0x80 =? 0) = false /\
  (Z.land (byte_val b) 0xC0 =? 0x80) = true.
Proof. by_byte_cases b. Qed.

Lemma prefix_110 (b : byte) :
  Z.shiftr (byte_val b) 5 = 6 ->
  (Z.land (byte_val b) 0x80 =? 0) = false /\
  (Z.land (byte_val b) 0xC0 =? 0x80) = false /\
  (Z.land (byte_val b) 0xE0 =? 0xC0) = true.
Proof. by_byte_cases b. Qed.

Lemma prefix_1110 (b : byte) :
  Z.shiftr (byte_val b) 4 = 14 ->
  (Z.land (byte_val b) 0x80 =? 0) = false /\
  (Z.land (byte_val b) 0xC0 =? 0x80) = false /\
  (Z.land (byte_val b) 0xE0 =? 0xC0) = false /\
  (Z.land (byte_val b) 0xF0 =? 0xE0) = true.
Proof. by_byte_cases b. Qed.

Lemma prefix_11110 (b : byte) :
  Z.shiftr (byte_val b) 3 = 30 ->
  (Z.land (byte_val b) 0x80 =? 0) = false /\
  (Z.land (byte_val b) 0xC0 =? 0x80) = false /\
  (Z.land (byte_val b) 0xE0 =? 0xC0) = false /\
  (Z.land (byte_val b) 0xF0 =? 0xE0) = false /\
  (Z.land (byte_val b) 0xF8 =? 0xF0) = true.
Proof. by_byte_cases b. Qed.

Lemma prefix_11111 (b : byte) :
  0xF8 <= byte_val b ->
  (Z.land (byte_val b) 0x80 =? 0) = false /\
  (Z.land (byte_val b) 0xC0 =? 0x80) = false /\
  (Z.land (byte_val b) 0xE0 =? 0xC0) = false /\
  (Z.land (byte_val b) 0xF0 =? 0xE0) = false /\
  (Z.land (byte_val b) 0xF8 =? 0xF0) = false.
Proof.
  destruct b; vm_compute; intros H; repeat split; try congruence;
    exfalso; apply H; reflexivity.
Qed.

(** [read_gamma] after its first byte has been read. *)
Lemma read_gamma_cons (b : byte) (s : bytes) :
  read_gamma (Buffered (b :: s))
  = let v := byte_val b in
    if Z.land v 0x80 =? 0 then Ok ((Z.land v 0x7F, 1), Buffered s)
    else if Z.land v 0xC0 =? 0x80 then
      '(lo, fp) ← read_uint8 (Buffered s);
      mret ((Z.lor (Z.shiftl (Z.land v 0x3F) 8) lo, 2), fp)
    else if Z.land v 0xE0 =? 0xC0 then
      '(lo, fp) ← read_uint16 (Buffered s);
      mret ((Z.lor (Z.shiftl (Z.land v 0x1F) 16) lo, 3), fp)
    else if Z.land v 0xF0 =? 0xE0 then
      '(lo, fp) ← read_uint24 (Buffered s);
      mret ((Z.lor (Z.shiftl (Z.land v 0x0F) 24) lo, 4), fp)
    else if Z.land v 0xF8 =? 0xF0 then
      '(lo, fp) ← read_uint32 (Buffered s);
      mret ((Z.lor (Z.shiftl (Z.land v 0x07) 32) lo, 5), fp)
    else Raise InvalidGammaEncoding.
Proof. reflexivity. Qed.

Lemma gamma_row_1 (b : byte) (s : bytes) :
  Z.shiftr (byte_val b) 7 = 0 ->
  read_gamma (Buffered (b :: s))
  = Ok ((Z.land (byte_val b) 0x7F, 1), Buffered s).
Proof.
  intros H. rewrite read_gamma_cons. cbv zeta.
  by rewrite (prefix_0 b H).
Qed.

Lemma gamma_row_2 (b c0 : byte) (s : bytes) :
  Z.shiftr (byte_val b) 6 = 2 ->
  read_gamma (Buffered (b :: c0 :: s))
  = Ok ((Z.lor (Z.shiftl (Z.land (byte_val b) 0x3F) 8) (byte_val c0), 2),
        Buffered s).
Proof.
  intros H. rewrite read_gamma_cons. cbv zeta.
  destruct (prefix_10 b H) as (-> & ->). reflexivity.
Qed.

Lemma gamma_row_3 (b c1 c0 : byte) (s : bytes) :
  Z.shiftr (byte_val b) 5 = 6 ->
  read_gamma (Buffered (b :: c1 :: c0 :: s))
  = Ok ((Z.lor (Z.shiftl (Z.land (byte_val b) 0x1F) 16) (be16 c1 c0), 3),
        Buffered s).
Proof.
  intros H. rewrite read_gamma_cons. cbv zeta.
  destruct (prefix_110 b H) as (-> & -> & ->). reflexivity.
Qed.

Lemma gamma_row_4 (b c2 c1 c0 : byte) (s : bytes) :
  Z.shiftr (byte_val b) 4 = 14 ->
  read_gamma (Buffered (b :: c2 :: c1 :: c0 :: s))
  = Ok ((Z.lor (Z.shiftl (Z.land (byte_val b) 0x0F) 24) (be24 c2 c1 c0), 4),
        Buffered s).
Proof.
  intros H. rewrite read_gamma_cons. cbv zeta.
  destruct (prefix_1110 b H) as (-> & -> & -> & ->). reflexivity.
Qed.

Lemma gamma_row_5 (b c3 c2 c1 c0 : byte) (s : bytes) :
  Z.shiftr (byte_val b) 3 = 30 ->
  read_gamma (Buffered (b :: c3 :: c2 :: c1 :: c0 :: s))
  = Ok ((Z.lor (Z.shiftl (Z.land (byte_val b) 0x07) 32) (be32 c3 c2 c1 c0), 5),
        Buffered s).
Proof.
  intros H. rewrite read_gamma_cons. cbv zeta.
  destruct (prefix_11110 b H) as (-> & -> & -> & -> & ->). reflexivity.
Qed.

Lemma gamma_row_6 (b : byte) (s : bytes) :
  0xF8 <= byte_val b ->
  read_gamma (Buffered (b :: s)) = Raise InvalidGammaEncoding.
Proof.
  intros H. rewrite read_gamma_cons. cbv zeta.
  destruct (prefix_11111 b H) as (-> & -> & -> & -> & ->). reflexivity.
Qed.

(** ** Bit operations as arithmetic *)

Lemma lor_shiftl (a b n : Z) :
  0 <= n -> 0 <= b < 2 ^ n -> Z.lor (Z.shiftl a n) b = a * 2 ^ n + b.
Proof.
  intros Hn Hb.
  assert (Z.land (Z.shiftl a n) b = 0) as Hdisj.
  { apply Z.bits_inj'. intros i Hi.
    rewrite Z.land_spec, Z.bits_0.
    destruct (Z.lt_ge_cases i n).
    - by rewrite Z.shiftl_spec_low.
    - rewrite <- (Z.mod_small b (2 ^ n)) by lia.
      rewrite Z.mod_pow2_bits_high by lia. apply andb_false_r. }
  rewrite <- Z.lxor_lor by done.
  rewrite <- Z.add_nocarry_lxor by done.
  by rewrite Z.shiftl_mul_pow2.
Qed.

Lemma be16_arith (b1 b0 : byte) : be16 b1 b0 = byte_val b1 * 2 ^ 8 + byte_val b0.
Proof.
  unfold be16. pose proof (byte_val_range b0).
  apply lor_shiftl; lia.
Qed.

Lemma be24_arith (b2 b1 b0 : byte) :
  be24 b2 b1 b0 = byte_val b2 * 2 ^ 16 + byte_val b1 * 2 ^ 8 + byte_val b0.
Proof.
  unfold be24. pose proof (byte_val_range b0).
  rewrite lor_shiftl, be16_arith by lia. lia.
Qed.

Lemma be32_arith (b3 b2 b1 b0 : byte) :
  be32 b3 b2 b1 b0
  = byte_val b3 * 2 ^ 24 + byte_val b2 * 2 ^ 16 + byte_val b1 * 2 ^ 8
    + byte_val b0.
Proof.
  unfold be32.
  pose proof (byte_val_range b0). pose proof (byte_val_range b1).
  pose proof (byte_val_range b2).
  rewrite (lor_shiftl (byte_val b1) _ 8) by lia.
  rewrite (lor_shiftl (byte_val b2) _ 16) by lia.
  rewrite (lor_shiftl (byte_val b3) _ 24) by lia. lia.
Qed.

Lemma be16_range (b1 b0 : byte) : 0 <= be16 b1 b0 < 2 ^ 16.
Proof.
  rewrite be16_arith.
  pose proof (byte_val_range b0). pose proof (byte_val_range b1). lia.
Qed.

Lemma be24_range (b2 b1 b0 : byte) : 0 <= be24 b2 b1 b0 < 2 ^ 24.
Proof.
  rewrite be24_arith.
  pose proof (byte_val_range b0). pose proof (byte_val_range b1).
  pose proof (byte_val_range b2). lia.
Qed.

Lemma be32_range (b3 b2 b1 b0 : byte) : 0 <= be32 b3 b2 b1 b0 < 2 ^ 32.
Proof.
  rewrite be32_arith.
  pose proof (byte_val_range b0). pose proof (byte_val_range b1).
  pose proof (byte_val_range b2). pose proof (byte_val_range b3). lia.
Qed.

(** A mask of low bits is a remainder. *)
Lemma land_low (a n : Z) : 0 <= n -> Z.land a (Z.ones n) = a mod 2 ^ n.
Proof. apply Z.land_ones. Qed.

(** ** The gamma encoder and the round trip *)

(** The leading byte of a multi-byte form: the prefix [p] over [n] payload
    bits. *)
Lemma lead_byte (p n x : Z) :
  0 <= n -> 0 <= x < 2 ^ n -> 0 <= p -> p * 2 ^ n + x < 256 ->
  byte_val (byte_of_Z (Z.lor (Z.shiftl p n) x)) = p * 2 ^ n + x.
Proof.
  intros Hn Hx Hp Hlt.
  rewrite byte_val_of_Z, lor_shiftl by lia.
  apply Z.mod_small. lia.
Qed.

Lemma spec_write_gamma_1 (v : Z) (rest : bytes) :
  0 <= v < 2 ^ 7 ->
  read_gamma (Buffered ([byte_of_Z v] ++ rest)) = Ok ((v, 1), Buffered rest).
Proof.
  intros Hv. cbn [app].
  assert (byte_val (byte_of_Z v) = v) as Hb.
  { rewrite byte_val_of_Z. apply Z.mod_small. lia. }
  rewrite gamma_row_1; rewrite Hb.
  - change 0x7F with (Z.ones 7). rewrite land_low by lia.
    by rewrite Z.mod_small by lia.
  - rewrite Z.shiftr_div_pow2 by lia. apply Z.div_small. lia.
Qed.

Lemma spec_write_gamma_2 (v : Z) (rest : bytes) :
  2 ^ 7 <= v < 2 ^ 14 ->
  read_gamma (Buffered ([byte_of_Z (Z.lor 0x80 (Z.shiftr v 8)); byte_of_Z v]
                        ++ rest))
  = Ok ((v, 2), Buffered rest).
Proof.
  intros Hv. cbn [app].
  rewrite Z.shiftr_div_pow2 by lia.
  assert (0 <= v / 2 ^ 8 < 2 ^ 6) as Hq
    by (split; [apply Z.div_pos|apply Z.div_lt_upper_bound]; lia).
  assert (byte_val (byte_of_Z (Z.lor 0x80 (v / 2 ^ 8))) = 2 * 2 ^ 6 + v / 2 ^ 8)
    as Hb by (change 0x80 with (Z.shiftl 2 6); apply lead_byte; lia).
  rewrite gamma_row_2; rewrite Hb.
  - do 2 f_equal. f_equal.
    change 0x3F with (Z.ones 6). rewrite land_low by lia.
    rewrite lor_shiftl by (pose proof (byte_val_range (byte_of_Z v)); lia).
    rewrite byte_val_of_Z.
    change 256 with (2 ^ 8). Z.div_mod_to_equations. lia.
  - rewrite Z.shiftr_div_pow2 by lia. Z.div_mod_to_equations. lia.
Qed.

Lemma spec_write_gamma_3 (v : Z) (rest : bytes) :
  2 ^ 14 <= v < 2 ^ 21 ->
  read_gamma (Buffered ([byte_of_Z (Z.lor 0xC0 (Z.shiftr v 16));
                         byte_of_Z (Z.shiftr v 8); byte_of_Z v] ++ rest))
  = Ok ((v, 3), Buffered rest).
Proof.
  intros Hv. cbn [app].
  rewrite !Z.shiftr_div_pow2 by lia.
  assert (0 <= v / 2 ^ 16 < 2 ^ 5) as Hq
    by (split; [apply Z.div_pos|apply Z.div_lt_upper_bound]; lia).
  assert (byte_val (byte_of_Z (Z.lor 0xC0 (v / 2 ^ 16)))
          = 6 * 2 ^ 5 + v / 2 ^ 16)
    as Hb by (change 0xC0 with (Z.shiftl 6 5); apply lead_byte; lia).
  rewrite gamma_row_3; rewrite Hb.
  - do 2 f_equal. f_equal.
    change 0x1F with (Z.ones 5). rewrite land_low by lia.
    rewrite lor_shiftl by (apply be16_range || lia).
    rewrite be16_arith, !byte_val_of_Z.
    change 256 with (2 ^ 8). Z.div_mod_to_equations. lia.
  - rewrite Z.shiftr_div_pow2 by lia. Z.div_mod_to_equations. lia.
Qed.

Lemma spec_write_gamma_4 (v : Z) (rest : bytes) :
  2 ^ 21 <= v < 2 ^ 28 ->
  read_gamma (Buffered ([byte_of_Z (Z.lor 0xE0 (Z.shiftr v 24));
                         byte_of_Z (Z.shiftr v 16); byte_of_Z (Z.shiftr v 8);
                         byte_of_Z v] ++ rest))
  = Ok ((v, 4), Buffered rest).
Proof.
  intros Hv. cbn [app].
  rewrite !Z.shiftr_div_pow2 by lia.
  assert (0 <= v / 2 ^ 24 < 2 ^ 4) as Hq
    by (split; [apply Z.div_pos|apply Z.div_lt_upper_bound]; lia).
  assert (byte_val (byte_of_Z (Z.lor 0xE0 (v / 2 ^ 24)))
          = 14 * 2 ^ 4 + v / 2 ^ 24)
    as Hb by (change 0xE0 with (Z.shiftl 14 4); apply lead_byte; lia).
  rewrite gamma_row_4; rewrite Hb.
  - do 2 f_equal. f_equal.
    change 0x0F with (Z.ones 4). rewrite land_low by lia.
    rewrite lor_shiftl by (apply be24_range || lia).
    rewrite be24_arith, !byte_val_of_Z.
    change 256 with (2 ^ 8). Z.div_mod_to_equations. lia.
  - rewrite Z.shiftr_div_pow2 by lia. Z.div_mod_to_equations. lia.
Qed.

Lemma spec_write_gamma_5 (v : Z) (rest : bytes) :
  2 ^ 28 <= v < 2 ^ 35 ->
  read_gamma (Buffered ([byte_of_Z (Z.lor 0xF0 (Z.shiftr v 32));
                         byte_of_Z (Z.shiftr v 24); byte_of_Z (Z.shiftr v 16);
                         byte_of_Z (Z.shiftr v 8); byte_of_Z v] ++ rest))
  = Ok ((v, 5), Buffered rest).
Proof.
  intros Hv. cbn [app].
  rewrite !Z.shiftr_div_pow2 by lia.
  assert (0 <= v / 2 ^ 32 < 2 ^ 3) as Hq
    by (split; [apply Z.div_pos|apply Z.div_lt_upper_bound]; lia).
  assert (byte_val (byte_of_Z (Z.lor 0xF0 (v / 2 ^ 32)))
          = 30 * 2 ^ 3 + v / 2 ^ 32)
    as Hb by (change 0xF0 with (Z.shiftl 30 3); apply lead_byte; lia).
  rewrite gamma_row_5; rewrite Hb.
  - do 2 f_equal. f_equal.
    change 0x07 with (Z.ones 3). rewrite land_low by lia.
    rewrite lor_shiftl by (apply be32_range || lia).
    rewrite be32_arith, !byte_val_of_Z.
    change 256 with (2 ^ 8). Z.div_mod_to_equations. lia.
  - rewrite Z.shiftr_div_pow2 by lia. Z.div_mod_to_equations. lia.
Qed.

Lemma read_spec_write_gamma (v : Z) (rest : bytes) :
  0 <= v < 2 ^ 35 ->
  read_gamma (Buffered (spec_write_gamma v ++ rest))
  = Ok ((v, Z.of_nat (length (spec_write_gamma v))), Buffered rest).
Proof.
  intros Hv. unfold spec_write_gamma.
  destruct (Z.ltb_spec v (2 ^ 7)); [by apply spec_write_gamma_1; lia|].
  destruct (Z.ltb_spec v (2 ^ 14)); [by apply spec_write_gamma_2; lia|].
  destruct (Z.ltb_spec v (2 ^ 21)); [by apply spec_write_gamma_3; lia|].
  destruct (Z.ltb_spec v (2 ^ 28)); [by apply spec_write_gamma_4; lia|].
  by apply spec_write_gamma_5; lia.
Qed.

(** C4.  [read_gamma] follows the five rows of the bit-prefix table: by the
    leading bits of the first byte it takes 1 to 5 bytes and returns the low
    bits of the first byte above the big-endian value of the bytes that
    follow, together with the number of bytes taken; every first byte from
    0xF8 to 0xFF is refused as an invalid encoding; and decoding what the
    encoder of the table writes gives the value back, for every value up to
    the largest one of five bytes (so for all the boundary values). *)
Theorem read_gamma_table :
  (forall (b : byte) (s : bytes),
      Z.shiftr (byte_val b) 7 = 0 ->
      read_gamma (Buffered (b :: s))
      = Ok ((byte_val b mod 2 ^ 7, 1), Buffered s)) /\
  (forall (b c0 : byte) (s : bytes),
      Z.shiftr (byte_val b) 6 = 2 ->
      read_gamma (Buffered (b :: c0 :: s))
      = Ok ((Z.lor (Z.shiftl (byte_val b mod 2 ^ 6) 8) (byte_val c0), 2),
            Buffered s)) /\
  (forall (b c1 c0 : byte) (s : bytes),
      Z.shiftr (byte_val b) 5 = 6 ->
      read_gamma (Buffered (b :: c1 :: c0 :: s))
      = Ok ((Z.lor (Z.shiftl (byte_val b mod 2 ^ 5) 16) (be16 c1 c0), 3),
            Buffered s)) /\
  (forall (b c2 c1 c0 : byte) (s : bytes),
      Z.shiftr (byte_val b) 4 = 14 ->
      read_gamma (Buffered (b :: c2 :: c1 :: c0 :: s))
      = Ok ((Z.lor (Z.shiftl (byte_val b mod 2 ^ 4) 24) (be24 c2 c1 c0), 4),
            Buffered s)) /\
  (forall (b c3 c2 c1 c0 : byte) (s : bytes),
      Z.shiftr (byte_val b) 3 = 30 ->
      read_gamma (Buffered (b :: c3 :: c2 :: c1 :: c0 :: s))
      = Ok ((Z.lor (Z.shiftl (byte_val b mod 2 ^ 3) 32) (be32 c3 c2 c1 c0), 5),
            Buffered s)) /\
  (forall (b : byte) (s : bytes),
      0xF8 <= byte_val b <= 0xFF ->
      read_gamma (Buffered (b :: s)) = Raise InvalidGammaEncoding) /\
  (forall (v : Z) (rest : bytes),
      0 <= v < 2 ^ 35 ->
      read_gamma (Buffered (spec_write_gamma v ++ rest))
      = Ok ((v, Z.of_nat (length (spec_write_gamma v))), Buffered rest)).
Proof.
  repeat split.
  - intros b s H. rewrite <- land_low by lia. by apply gamma_row_1.
  - intros b c0 s H. rewrite <- land_low by lia. by apply gamma_row_2.
  - intros b c1 c0 s H. rewrite <- land_low by lia. by apply gamma_row_3.
  - intros b c2 c1 c0 s H. rewrite <- land_low by lia. by apply gamma_row_4.
  - intros b c3 c2 c1 c0 s H. rewrite <- land_low by lia. by apply gamma_row_5.
  - intros b s [H _]. by apply gamma_row_6.
  - intros v rest H. by apply read_spec_write_gamma.
Qed.

Lemma read_gamma_table_witness :
  (Z.shiftr (byte_val x7f) 7 = 0 /\
   read_gamma (Buffered [x7f; xaa]) = Ok ((127, 1), Buffered [xaa])) /\
  (Z.shiftr (byte_val xbf) 6 = 2 /\
   read_gamma (Buffered [xbf; xff]) = Ok ((16383, 2), Buffered [])) /\
  (Z.shiftr (byte_val xc0) 5 = 6 /\
   read_gamma (Buffered [xc0; x40; x00]) = Ok ((16384, 3), Buffered [])) /\
  (Z.shiftr (byte_val xe0) 4 = 14 /\
   read_gamma (Buffered [xe0; x20; x00; x00]) = Ok ((2097152, 4), Buffered [])) /\
  (Z.shiftr (byte_val xf7) 3 = 30 /\
   read_gamma (Buffered [xf7; xff; xff; xff; xff])
   = Ok ((2 ^ 35 - 1, 5), Buffered [])) /\
  (0xF8 <= byte_val xf8 <= 0xFF /\
   read_gamma (Buffered [xf8; x00; x00; x00; x00; x00])
   = Raise InvalidGammaEncoding) /\
  Forall (fun v => 0 <= v < 2 ^ 35 /\
                   read_gamma (Buffered (spec_write_gamma v ++ [x2a]))
                   = Ok ((v, Z.of_nat (length (spec_write_gamma v))), Buffered [x2a]))
         [0; 127; 128; 16383; 16384; 2097151; 2097152; 268435455; 268435456;
          2 ^ 35 - 1].
Proof.
  destruct read_gamma_table as (R1 & R2 & R3 & R4 & R5 & R6 & RT).
  split; [split; [reflexivity | exact (R1 x7f [xaa] eq_refl)] |].
  split; [split; [reflexivity | exact (R2 xbf xff [] eq_refl)] |].
  split; [split; [reflexivity | exact (R3 xc0 x40 x00 [] eq_refl)] |].
  split; [split; [reflexivity | exact (R4 xe0 x20 x00 x00 [] eq_refl)] |].
  split; [split; [reflexivity | exact (R5 xf7 xff xff xff xff [] eq_refl)] |].
  split; [split; [vm_compute; intuition congruence
                 | apply (R6 xf8); vm_compute; intuition congruence] |].
  repeat (apply Forall_cons; split;
          [split; [lia | apply RT; lia] |]).
  apply Forall_nil. done.
Defined.

(** ** The error monad *)

Lemma bind_Ok {A B : Type} (f : A -> result B) (a : A) : Ok a ≫= f = f a.
Proof. reflexivity. Qed.

Lemma bind_Raise {A B : Type} (f : A -> result B) (e : exn) :
  Raise e ≫= f = Raise e.
Proof. reflexivity. Qed.

Lemma bind_Ok_inv {A B : Type} (f : A -> result B) (m : result A) (b : B) :
  m ≫= f = Ok b -> exists a, m = Ok a /\ f a = Ok b.
Proof. destruct m as [a|e]; [eauto | discriminate]. Qed.

(** ** The chunk loop, one turn at a time *)

Section ChunkLoopFacts.
Context {F : Type} `{!ByteSource F}.
Context {A : Type} (visit : bytes -> Z -> bytes -> A -> result A).

Lemma read_records_S (fuel : nat) (tag : bytes) (type index : Z) (fp : F)
    (analysis : A) :
  read_records visit (S fuel) tag type index fp analysis
  = '((gamma, _), fp) ← read_gamma fp;
    let size := gamma - 1 in
    if size <? 0 then mret (fp, analysis)
    else
      '(index, size, fp) ←
        (if type =? 2 then
           '((index, index_size), fp) ← read_gamma fp;
           mret (index, size - index_size, fp)
         else mret (index + 1, size, fp));
      '(data, fp) ← read size fp;
      analysis ← visit tag index data analysis;
      read_records visit fuel tag type index fp analysis.
Proof. reflexivity. Qed.

Lemma analyze_savegame_with_S (fuel : nat) (fp : F) (analysis : A) :
  analyze_savegame_with visit (S fuel) fp analysis
  = '(tag, fp) ← read 4 fp;
    if (length tag =? 0)%nat || bytes_eqb tag zero_tag then mret analysis
    else if negb (length tag =? 4)%nat then Raise GarbageAtEnd
    else
      '(type, fp) ← read_uint8 fp;
      if Z.land type 0x0F =? 0x00 then
        '(lo, fp) ← read_uint24 fp;
        let size := Z.lor (Z.shiftl type 20) lo in
        '(data, fp) ← read size fp;
        analysis ← visit tag (-1) data analysis;
        analyze_savegame_with visit fuel fp analysis
      else if (type =? 1) || (type =? 2) then
        '(fp, analysis) ← read_records visit fuel tag type (-1) fp analysis;
        analyze_savegame_with visit fuel fp analysis
      else Raise (InvalidChunkType type).
Proof. reflexivity. Qed.

(** At a chunk boundary: what the four bytes of the tag decide. *)
Lemma boundary_done (fuel : nat) (fp fp' : F) (tag : bytes) (analysis : A) :
  read 4 fp = Ok (tag, fp') ->
  tag = [] \/ tag = zero_tag ->
  analyze_savegame_with visit (S fuel) fp analysis = Ok analysis.
Proof.
  intros Hread Htag. rewrite analyze_savegame_with_S, Hread, bind_Ok.
  by destruct Htag as [-> | ->].
Qed.

Lemma boundary_garbage (fuel : nat) (fp fp' : F) (tag : bytes) (analysis : A) :
  read 4 fp = Ok (tag, fp') ->
  length tag <> 0%nat -> length tag <> 4%nat ->
  analyze_savegame_with visit (S fuel) fp analysis = Raise GarbageAtEnd.
Proof.
  intros Hread H0 H4. rewrite analyze_savegame_with_S, Hread, bind_Ok.
  apply Nat.eqb_neq in H0 as ->. cbn [orb].
  destruct (bytes_eqb tag zero_tag) eqn:E.
  - apply bytes_eqb_eq in E. by subst tag.
  - by apply Nat.eqb_neq in H4 as ->.
Qed.

(** A proper tag: four bytes, not all zero. *)
Lemma boundary_chunk (fuel : nat) (fp fp' : F) (tag : bytes) (analysis : A) :
  read 4 fp = Ok (tag, fp') ->
  length tag = 4%nat -> tag <> zero_tag ->
  analyze_savegame_with visit (S fuel) fp analysis
  = '(type, fp) ← read_uint8 fp';
    if Z.land type 0x0F =? 0x00 then
      '(lo, fp) ← read_uint24 fp;
      let size := Z.lor (Z.shiftl type 20) lo in
      '(data, fp) ← read size fp;
      analysis ← visit tag (-1) data analysis;
      analyze_savegame_with visit fuel fp analysis
    else if (type =? 1) || (type =? 2) then
      '(fp, analysis) ← read_records visit fuel tag type (-1) fp analysis;
      analyze_savegame_with visit fuel fp analysis
    else Raise (InvalidChunkType type).
Proof.
  intros Hread H4 Hz. rewrite analyze_savegame_with_S, Hread, bind_Ok.
  rewrite H4. cbn [Nat.eqb orb negb].
  apply bytes_eqb_neq in Hz as ->. reflexivity.
Qed.
End ChunkLoopFacts.

(** Reading from a buffered file. *)
Lemma read_Buffered (n : nat) (s : bytes) :
  read (Z.of_nat n) (Buffered s) = Ok (take n s, Buffered (drop n s)).
Proof.
  unfold read, BufferedReader_read. cbn [br_rest].
  destruct (Z.leb_spec 0 (Z.of_nat n)); [|lia].
  by rewrite Nat2Z.id.
Qed.

Lemma read_Buffered_app (x s : bytes) :
  read (Z.of_nat (length x)) (Buffered (x ++ s)) = Ok (x, Buffered s).
Proof.
  rewrite read_Buffered. by rewrite take_app_length, drop_app_length.
Qed.

Lemma read_Buffered_short (n : Z) (s : bytes) :
  Z.of_nat (length s) <= n ->
  read n (Buffered s) = Ok (s, Buffered []).
Proof.
  intros H. rewrite <- (Z2Nat.id n) by lia. rewrite read_Buffered.
  by rewrite take_ge, drop_ge by lia.
Qed.

Lemma read_tag (tag s : bytes) :
  length tag = 4%nat -> read 4 (Buffered (tag ++ s)) = Ok (tag, Buffered s).
Proof. intros H. change 4 with (Z.of_nat 4). rewrite <- H. apply read_Buffered_app. Qed.

(** C8.  At a chunk boundary the loop ends without error, and with the
    summary as it is, when the read of the tag returns no byte at all (clean
    end of input) or the four-byte all-zero tag; a stream that is only the
    all-zero tag has no chunk; and a read of one to three bytes where a tag
    is expected raises the garbage-at-end-of-file error.  This holds for a
    buffered file and, in terms of what [read(4)] returns, for every byte
    source. *)
Theorem chunk_stream_end {A : Type} (visit : bytes -> Z -> bytes -> A -> result A)
    (fuel : nat) (analysis : A) :
  analyze_savegame_with visit (S fuel) (Buffered []) analysis = Ok analysis /\
  (forall rest : bytes,
      analyze_savegame_with visit (S fuel) (Buffered (zero_tag ++ rest)) analysis
      = Ok analysis) /\
  chunk_items (S fuel) (Buffered zero_tag) = Ok [] /\
  (forall s : bytes,
      (1 <= length s <= 3)%nat ->
      analyze_savegame_with visit (S fuel) (Buffered s) analysis
      = Raise GarbageAtEnd) /\
  (forall (F : Type) (R : ByteSource F) (fp fp' : F) (tag : bytes),
      read 4 fp = Ok (tag, fp') ->
      (tag = [] \/ tag = zero_tag ->
       analyze_savegame_with visit (S fuel) fp analysis = Ok analysis) /\
      ((1 <= length tag <= 3)%nat ->
       analyze_savegame_with visit (S fuel) fp analysis = Raise GarbageAtEnd)).
Proof.
  split; [reflexivity|]. split; [reflexivity|]. split; [reflexivity|]. split.
  - intros s Hs.
    apply (boundary_garbage visit fuel _ (Buffered []) s); [|lia..].
    apply read_Buffered_short. lia.
  - intros F R fp fp' tag Hread. split.
    + intros Htag. by apply (boundary_done visit fuel fp fp' tag).
    + intros Hlen. apply (boundary_garbage visit fuel fp fp' tag); [done|lia..].
Qed.

Lemma chunk_stream_end_witness :
  (1 <= length [x4d; x41] <= 3)%nat /\
  analyze_savegame_with emit 1 (Buffered [x4d; x41]) [] = Raise GarbageAtEnd /\
  read 4 (Buffered (b_ "MA")) = Ok (b_ "MA", Buffered []) /\
  analyze_savegame_with emit 1 (Buffered zero_tag) [] = Ok [].
Proof.
  destruct (chunk_stream_end emit 0 []) as (_ & _ & _ & Hshort & Hany).
  split; [cbn; lia|].
  split; [apply Hshort; cbn; lia|].
  split; [reflexivity|].
  apply (Hany _ _ (Buffered zero_tag) (Buffered []) zero_tag eq_refl).
  by right.
Defined.

(** ** Block chunks *)

(** On a header byte with low nibble 0 the size the code computes,
    [type << 20 | uint24], is the 28-bit size of the format. *)
Lemma block_size_high (ty : byte) :
  Z.land (byte_val ty) 0x0F = 0 ->
  Z.shiftl (byte_val ty) 20 = Z.shiftl (Z.shiftr (byte_val ty) 4) 24.
Proof. by_byte_cases ty. Qed.

Lemma block_size_range (ty s2 s1 s0 : byte) :
  0 <= Z.lor (Z.shiftl (Z.shiftr (byte_val ty) 4) 24) (be24 s2 s1 s0) < 2 ^ 28.
Proof.
  pose proof (be24_range s2 s1 s0). pose proof (byte_val_range ty).
  rewrite lor_shiftl by lia. rewrite Z.shiftr_div_pow2 by lia.
  Z.div_mod_to_equations. lia.
Qed.

Lemma bind_ret_r {A : Type} (m : result A) : (a ← m; Ok a) = m.
Proof. by destruct m. Qed.

Section OnBufferedFile.
Context {A : Type} (visit : bytes -> Z -> bytes -> A -> result A).

(** One block chunk at the head of a buffered file, whatever follows its
    three size bytes. *)
Lemma block_step (fuel : nat) (tag : bytes) (ty s2 s1 s0 : byte)
    (body : bytes) (analysis : A) :
  length tag = 4%nat -> tag <> zero_tag ->
  Z.land (byte_val ty) 0x0F = 0 ->
  let size := Z.lor (Z.shiftl (Z.shiftr (byte_val ty) 4) 24) (be24 s2 s1 s0) in
  analyze_savegame_with visit (S fuel)
    (Buffered (tag ++ ty :: s2 :: s1 :: s0 :: body)) analysis
  = analysis ← visit tag (-1) (take (Z.to_nat size) body) analysis;
    analyze_savegame_with visit fuel
      (Buffered (drop (Z.to_nat size) body)) analysis.
Proof.
  intros Hlen Hnz Hlow size.
  rewrite (boundary_chunk visit fuel _ _ tag analysis (read_tag tag _ Hlen))
    by done.
  rewrite read_uint8_cons, bind_Ok.
  apply Z.eqb_eq in Hlow as Hlow'. rewrite Hlow'.
  rewrite read_uint24_cons, bind_Ok. cbv zeta.
  rewrite (block_size_high ty Hlow). fold size.
  pose proof (block_size_range ty s2 s1 s0) as Hr. fold size in Hr.
  rewrite <- (Z2Nat.id size) at 1 by lia.
  by rewrite read_Buffered, bind_Ok.
Qed.
End OnBufferedFile.

(** C5.  For a block chunk (a proper tag, a header byte with low nibble 0,
    three size bytes and the payload they declare) the size read is
    [(header >> 4) << 24 | uint24], a 28-bit number; exactly the payload is
    consumed, the loop going on at the byte after it; and exactly one item,
    (tag, -1, payload), is produced for the chunk. *)
Theorem block_chunk {A : Type} (visit : bytes -> Z -> bytes -> A -> result A)
    (fuel : nat) (tag : bytes) (ty s2 s1 s0 : byte) (payload rest : bytes)
    (analysis : A) :
  length tag = 4%nat -> tag <> zero_tag ->
  Z.land (byte_val ty) 0x0F = 0 ->
  let size := Z.lor (Z.shiftl (Z.shiftr (byte_val ty) 4) 24) (be24 s2 s1 s0) in
  Z.of_nat (length payload) = size ->
  0 <= size < 2 ^ 28 /\
  Z.lor (Z.shiftl (byte_val ty) 20) (be24 s2 s1 s0) = size /\
  analyze_savegame_with visit (S fuel)
    (Buffered (tag ++ ty :: s2 :: s1 :: s0 :: payload ++ rest)) analysis
  = (analysis ← visit tag (-1) payload analysis;
     analyze_savegame_with visit fuel (Buffered rest) analysis) /\
  chunk_items (S fuel) (Buffered (tag ++ ty :: s2 :: s1 :: s0 :: payload ++ rest))
  = analyze_savegame_with emit fuel (Buffered rest) [(tag, -1, payload)].
Proof.
  intros Hlen Hnz Hlow size Hpayload.
  split; [apply block_size_range|].
  split; [by rewrite (block_size_high ty Hlow)|].
  unfold chunk_items. rewrite !block_step by done. fold size.
  rewrite <- Hpayload, Nat2Z.id, take_app_length, drop_app_length.
  done.
Qed.

Lemma block_chunk_witness :
  length (b_ "MAPS") = 4%nat /\ b_ "MAPS" <> zero_tag /\
  Z.land (byte_val x00) 0x0F = 0 /\
  Z.of_nat (length [x2a; x2b])
  = Z.lor (Z.shiftl (Z.shiftr (byte_val x00) 4) 24) (be24 x00 x00 x02) /\
  chunk_items 2 (Buffered (b_ "MAPS" ++ x00 :: x00 :: x00 :: x02
                           :: [x2a; x2b] ++ zero_tag))
  = Ok [(b_ "MAPS", -1, [x2a; x2b])].
Proof.
  assert (length (b_ "MAPS") = 4%nat) as Hlen by reflexivity.
  assert (b_ "MAPS" <> zero_tag) as Hnz by discriminate.
  assert (Z.land (byte_val x00) 0x0F = 0) as Hlow by reflexivity.
  assert (Z.of_nat (length [x2a; x2b])
          = Z.lor (Z.shiftl (Z.shiftr (byte_val x00) 4) 24) (be24 x00 x00 x02))
    as Hsize by reflexivity.
  repeat (split; [assumption|]).
  destruct (block_chunk emit 1 (b_ "MAPS") x00 x00 x00 x02
              [x2a; x2b] zero_tag [] Hlen Hnz Hlow Hsize)
    as (_ & _ & _ & ->).
  reflexivity.
Defined.

(** ** The field extractor *)

Ltac tag_tests :=
  repeat match goal with
         | |- context [bytes_eqb (b_ ?x) (b_ ?y)] =>
           let v := eval vm_compute in (bytes_eqb (b_ x) (b_ y)) in
           change (bytes_eqb (b_ x) (b_ y)) with v
         end.

Lemma analyze_chunk_MAPS (index : Z) (data : bytes) (analysis : summary) :
  analyze_chunk (b_ "MAPS") index data analysis
  = '(w, fp) ← read_uint32 (InMemory data);
    '(h, fp) ← read_uint32 fp;
    Ok (<["map-size" := VStr (format_dxd w h)]> analysis).
Proof.
  unfold analyze_chunk. tag_tests. cbv iota.
  destruct (read_uint32 (InMemory data)) as [[w fp]|]; [|done].
  rewrite !bind_Ok. by destruct (read_uint32 fp) as [[h fp']|].
Qed.

Lemma analyze_chunk_NGRF (index : Z) (data : bytes) (analysis : summary) :
  analyze_chunk (b_ "NGRF") index data analysis
  = count "newgrf" "newgrf-count" analysis.
Proof.
  unfold analyze_chunk. tag_tests. cbv iota.
  rewrite bind_Ok. by destruct (count "newgrf" "newgrf-count" analysis).
Qed.

Lemma analyze_chunk_AIPL (index : Z) (data : bytes) (analysis : summary) :
  analyze_chunk (b_ "AIPL") index data analysis
  = '(name, fp) ← read_str (InMemory data);
    match name with
    | [] => Ok analysis
    | _ :: _ => count "ai" "ai-count" analysis
    end.
Proof.
  unfold analyze_chunk. tag_tests. cbv iota.
  rewrite !bind_Ok.
  destruct (read_str (InMemory data)) as [[[|c name] fp]|]; try done.
  rewrite !bind_Ok. by destruct (count "ai" "ai-count" analysis).
Qed.

Lemma analyze_chunk_GSDT (index : Z) (data : bytes) (analysis : summary) :
  analyze_chunk (b_ "GSDT") index data analysis
  = '(name, fp) ← read_str (InMemory data);
    match name with
    | [] => Ok analysis
    | _ :: _ => count "gs" "gs-count" analysis
    end.
Proof.
  unfold analyze_chunk. tag_tests. cbv iota.
  rewrite !bind_Ok.
  by destruct (read_str (InMemory data)) as [[[|c name] fp]|].
Qed.

Lemma analyze_chunk_other (tag : bytes) (index : Z) (data : bytes)
    (analysis : summary) :
  ~ handled tag -> analyze_chunk tag index data analysis = Ok analysis.
Proof.
  intros H. unfold analyze_chunk, handled in *.
  destruct (bytes_eqb tag (b_ "MAPS")) eqn:E1;
    [apply bytes_eqb_eq in E1; tauto|].
  destruct (bytes_eqb tag (b_ "NGRF")) eqn:E2;
    [apply bytes_eqb_eq in E2; tauto|].
  destruct (bytes_eqb tag (b_ "AIPL")) eqn:E3;
    [apply bytes_eqb_eq in E3; tauto|].
  destruct (bytes_eqb tag (b_ "GSDT")) eqn:E4;
    [apply bytes_eqb_eq in E4; tauto|].
  reflexivity.
Qed.

Lemma tag_cases (tag : bytes) :
  tag = b_ "MAPS" \/ tag = b_ "NGRF" \/ tag = b_ "AIPL" \/ tag = b_ "GSDT"
  \/ ~ handled tag.
Proof.
  unfold handled.
  destruct (decide (tag = b_ "MAPS")); [tauto|].
  destruct (decide (tag = b_ "NGRF")); [tauto|].
  destruct (decide (tag = b_ "AIPL")); [tauto|].
  destruct (decide (tag = b_ "GSDT")); tauto.
Qed.

Lemma increment_frame (key k : string) (a a' : summary) :
  increment key a = Ok a' -> k <> key -> a' !! k = a !! k.
Proof.
  unfold increment. intros H Hk.
  destruct (a !! key) as [[n|s|b]|]; simplify_eq.
  by rewrite lookup_insert_ne.
Qed.

Lemma count_frame (guard key k : string) (a a' : summary) :
  count guard key a = Ok a' -> k <> key -> a' !! k = a !! k.
Proof.
  unfold count. intros H Hk.
  apply increment_frame with (k := k) in H; [|done].
  rewrite H. destruct (a !! guard); [done|]. by rewrite lookup_insert_ne.
Qed.

(** Whatever the chunk, the extractor leaves every other key as it is. *)
Lemma analyze_chunk_frame (tag : bytes) (index : Z) (data : bytes)
    (a a' : summary) (k : string) :
  analyze_chunk tag index data a = Ok a' ->
  ~ extractor_key k -> a' !! k = a !! k.
Proof.
  unfold extractor_key. intros H Hk.
  destruct (tag_cases tag) as [-> | [-> | [-> | [-> | Hother]]]].
  - rewrite analyze_chunk_MAPS in H.
    destruct (read_uint32 (InMemory data)) as [[w fp]|]; [|done].
    rewrite bind_Ok in H.
    destruct (read_uint32 fp) as [[h fp']|]; [|done].
    rewrite bind_Ok in H. simplify_eq.
    rewrite lookup_insert_ne; [done|]. intros <-. naive_solver.
  - rewrite analyze_chunk_NGRF in H.
    apply count_frame with (k := k) in H; [done|]. intros ->. naive_solver.
  - rewrite analyze_chunk_AIPL in H.
    destruct (read_str (InMemory data)) as [[name fp]|]; [|done].
    rewrite bind_Ok in H. destruct name as [|c name]; [by simplify_eq|].
    apply count_frame with (k := k) in H; [done|]. intros ->. naive_solver.
  - rewrite analyze_chunk_GSDT in H.
    destruct (read_str (InMemory data)) as [[name fp]|]; [|done].
    rewrite bind_Ok in H. destruct name as [|c name]; [by simplify_eq|].
    apply count_frame with (k := k) in H; [done|]. intros ->. naive_solver.
  - rewrite analyze_chunk_other in H by done. by simplify_eq.
Qed.

(** ** What every chunk preserves *)

Section LoopInvariant.
Context {F : Type} `{!ByteSource F}.
Context {A : Type} (visit : bytes -> Z -> bytes -> A -> result A).
Context (P : A -> Prop).
Hypothesis visit_keeps : forall tag index data a a',
    P a -> visit tag index data a = Ok a' -> P a'.

Lemma read_records_keeps (fuel : nat) (tag : bytes) (type index : Z)
    (fp fp' : F) (a a' : A) :
  P a -> read_records visit fuel tag type index fp a = Ok (fp', a') -> P a'.
Proof.
  revert index fp a.
  induction fuel as [|fuel IH]; intros index fp a Ha H; [done|].
  rewrite read_records_S in H.
  destruct (read_gamma fp) as [[[gamma n] fp1]|]; [|done].
  rewrite bind_Ok in H. cbv zeta in H.
  destruct (gamma - 1 <? 0); [unfold mret, result_ret in H; by simplify_eq|].
  destruct (type =? 2).
  - destruct (read_gamma fp1) as [[[ix n'] fp2]|]; [|done].
    rewrite !bind_Ok in H.
    destruct (read _ fp2) as [[data fp3]|]; [|done].
    rewrite bind_Ok in H.
    destruct (visit tag ix data a) as [a1|] eqn:Hv; [|done].
    rewrite bind_Ok in H. eauto.
  - rewrite !bind_Ok in H.
    destruct (read _ fp1) as [[data fp3]|]; [|done].
    rewrite bind_Ok in H.
    destruct (visit tag (index + 1) data a) as [a1|] eqn:Hv; [|done].
    rewrite bind_Ok in H. eauto.
Qed.

Lemma analyze_savegame_with_keeps (fuel : nat) (fp : F) (a a' : A) :
  P a -> analyze_savegame_with visit fuel fp a = Ok a' -> P a'.
Proof.
  revert fp a.
  induction fuel as [|fuel IH]; intros fp a Ha H; [done|].
  rewrite analyze_savegame_with_S in H.
  destruct (read 4 fp) as [[tag fp1]|]; [|done].
  rewrite bind_Ok in H.
  destruct (_ || _); [unfold mret, result_ret in H; by simplify_eq|].
  destruct (negb _); [done|].
  destruct (read_uint8 fp1) as [[type fp2]|]; [|done].
  rewrite bind_Ok in H.
  destruct (Z.land type 15 =? 0).
  - destruct (read_uint24 fp2) as [[lo fp3]|]; [|done].
    rewrite bind_Ok in H. cbv zeta in H.
    destruct (read _ fp3) as [[data fp4]|]; [|done].
    rewrite bind_Ok in H.
    destruct (visit tag (-1) data a) as [a1|] eqn:Hv; [|done].
    rewrite bind_Ok in H. eauto.
  - destruct (_ || _); [|done].
    destruct (read_records visit fuel tag type (-1) fp2 a)
      as [[fp3 a1]|] eqn:Hr; [|done].
    rewrite bind_Ok in H.
    apply read_records_keeps in Hr; eauto.
Qed.
End LoopInvariant.

Lemma header_key_not_extractor (k : string) : header_key k -> ~ extractor_key k.
Proof.
  intros [-> | [-> | ->]] [H | [H | [H | H]]]; discriminate.
Qed.

Lemma analyze_savegame_frame {F : Type} `{!ByteSource F} (fuel : nat) (fp : F)
    (a a' : summary) (k : string) :
  analyze_savegame fuel fp a = Ok a' -> ~ extractor_key k -> a' !! k = a !! k.
Proof.
  intros H Hk. unfold analyze_savegame in H.
  apply (analyze_savegame_with_keeps analyze_chunk (fun x => x !! k = a !! k))
    in H; [done| |done].
  intros tag index data x x' Hx Hstep.
  rewrite <- Hx. by apply analyze_chunk_frame with tag index data.
Qed.


Lemma initial_analysis_keys (filename : string) (version : Z) (format : bytes) :
  initial_analysis filename version format !! "filename"
  = Some (VStr (last_component EmptyString filename)) /\
  initial_analysis filename version format !! "savegame-version"
  = Some (VInt version) /\
  initial_analysis filename version format !! "compression"
  = Some (VBytes format).
Proof. unfold initial_analysis. by simplify_map_eq. Qed.

Section MainFile.
Context {D : Type} `{!InflateEngine D}.
Context {L : Type} `{!ByteSource L} (lzma_open : BufferedReader -> L).

(** The summary of a file that was decoded to its end still has the three
    entries it started with. *)
Lemma main_file_keys (fuel : nat) (filename : string) (contents : bytes)
    (a : summary) :
  main_file lzma_open fuel filename contents = Ok a ->
  exists version : Z,
    a !! "filename" = Some (VStr (last_component EmptyString filename)) /\
    a !! "savegame-version" = Some (VInt version) /\
    a !! "compression" = Some (VBytes (take 4 contents)).
Proof.
  unfold main_file. intros H.
  change (read 4 (Buffered contents))
    with (Ok (take 4 contents, Buffered (drop 4 contents))) in H.
  rewrite bind_Ok in H.
  destruct (read_uint16 _) as [[version fp1]|]; [|done].
  rewrite bind_Ok in H.
  destruct (read_uint16 fp1) as [[reserved fp2]|]; [|done].
  rewrite bind_Ok in H. cbv zeta in H.
  destruct (UNCOMPRESS _ _) as [dopen|]; [|done].
  exists version.
  destruct (initial_analysis_keys filename version (take 4 contents))
    as (H1 & H2 & H3).
  rewrite <- H1, <- H2, <- H3.
  repeat split; (eapply analyze_savegame_frame; [exact H|]);
    apply header_key_not_extractor; unfold header_key; auto.
Qed.
End MainFile.

(** C9.  The summary record holds filename, savegame-version and compression
    before any chunk is processed; a chunk that is processed, whatever its
    tag, leaves these three entries as they are, and so does the whole chunk
    loop and the decoding of a file; and a chunk whose tag is not MAPS, NGRF,
    AIPL or GSDT leaves the whole summary record as it is. *)
Theorem summary_frame :
  (forall (filename : string) (version : Z) (format : bytes),
      initial_analysis filename version format !! "filename"
      = Some (VStr (last_component EmptyString filename)) /\
      initial_analysis filename version format !! "savegame-version"
      = Some (VInt version) /\
      initial_analysis filename version format !! "compression"
      = Some (VBytes format)) /\
  (forall (tag : bytes) (index : Z) (data : bytes) (a a' : summary) (k : string),
      header_key k ->
      analyze_chunk tag index data a = Ok a' -> a' !! k = a !! k) /\
  (forall (tag : bytes) (index : Z) (data : bytes) (a : summary),
      ~ handled tag -> analyze_chunk tag index data a = Ok a) /\
  (forall (F : Type) (R : ByteSource F) (fuel : nat) (fp : F)
          (a a' : summary) (k : string),
      header_key k ->
      analyze_savegame fuel fp a = Ok a' -> a' !! k = a !! k) /\
  (forall (D : Type) (E : InflateEngine D)
          (L : Type) (R : ByteSource L) (lzma_open : BufferedReader -> L)
          (fuel : nat) (filename : string) (contents : bytes) (a : summary),
      main_file lzma_open fuel filename contents = Ok a ->
      exists version : Z,
        a !! "filename" = Some (VStr (last_component EmptyString filename)) /\
        a !! "savegame-version" = Some (VInt version) /\
        a !! "compression" = Some (VBytes (take 4 contents))).
Proof.
  split; [exact initial_analysis_keys|]. split; [|split; [|split]].
  - intros tag index data a a' k Hk H.
    apply analyze_chunk_frame with tag index data; [done|].
    by apply header_key_not_extractor.
  - exact analyze_chunk_other.
  - intros F R fuel fp a a' k Hk H.
    apply (analyze_savegame_frame fuel fp); [done|].
    by apply header_key_not_extractor.
  - intros. by eapply main_file_keys.
Qed.

Lemma summary_frame_witness :
  let a := initial_analysis "savegames/a.sav" 5 (b_ "OTTN") in
  let a' := <["map-size" := VStr "4x6"]> a in
  header_key "compression" /\
  analyze_chunk (b_ "MAPS") (-1) [x00; x00; x00; x04; x00; x00; x00; x06] a
  = Ok a' /\
  a' !! "compression" = a !! "compression" /\
  ~ handled (b_ "PATS") /\
  analyze_chunk (b_ "PATS") (-1) [x01] a = Ok a /\
  (exists version : Z,
      a' !! "filename" = Some (VStr "a.sav") /\
      a' !! "savegame-version" = Some (VInt version) /\
      a' !! "compression" = Some (VBytes (b_ "OTTN"))).
Proof.
  intros a a'.
  destruct summary_frame as (_ & Hkeep & Hother & _ & Hfile).
  assert (header_key "compression") as Hk by (unfold header_key; auto).
  assert (analyze_chunk (b_ "MAPS") (-1)
            [x00; x00; x00; x04; x00; x00; x00; x06] a = Ok a') as Hmaps
    by by_vm.
  assert (~ handled (b_ "PATS")) as Hpats
    by (intros [H | [H | [H | H]]]; discriminate H).
  split; [exact Hk|]. split; [exact Hmaps|].
  split; [exact (Hkeep _ _ _ a a' "compression" Hk Hmaps)|].
  split; [exact Hpats|].
  split; [exact (Hother (b_ "PATS") (-1) [x01] a Hpats)|].
  apply (Hfile unit stored_engine BufferedReader _ (fun f => f) 3%nat
           "savegames/a.sav"
           (b_ "OTTN" ++ [x00; x05; x00; x00] ++ b_ "MAPS"
            ++ [x00; x00; x00; x08; x00; x00; x00; x04; x00; x00; x00; x06])).
  by_vm.
Defined.

(** ** Values of [read_gamma] *)

Section GammaValues.
Context {F : Type} `{!ByteSource F}.

Lemma unpack_B_range (data : bytes) (v : Z) :
  unpack_B data = Ok v -> 0 <= v < 2 ^ 8.
Proof.
  destruct data as [|b0 [|]]; intros H; try discriminate H.
  injection H as <-. apply byte_val_range.
Qed.

Lemma unpack_H_range (data : bytes) (v : Z) :
  unpack_H data = Ok v -> 0 <= v < 2 ^ 16.
Proof.
  destruct data as [|b1 [|b0 [|]]]; intros H; try discriminate H.
  injection H as <-. apply be16_range.
Qed.

Lemma unpack_I_range (data : bytes) (v : Z) :
  unpack_I data = Ok v -> 0 <= v < 2 ^ 32.
Proof.
  destruct data as [|b3 [|b2 [|b1 [|b0 [|]]]]]; intros H;
    try discriminate H.
  injection H as <-. apply be32_range.
Qed.

Lemma read_uint8_range (fp fp' : F) (v : Z) :
  read_uint8 fp = Ok (v, fp') -> 0 <= v < 2 ^ 8.
Proof.
  unfold read_uint8. intros H.
  destruct (read 1 fp) as [[data fp1]|]; [|done]. rewrite bind_Ok in H.
  destruct (unpack_B data) as [v'|] eqn:E; [|done]. rewrite bind_Ok in H.
  unfold mret, result_ret in H. simplify_eq. by apply unpack_B_range in E.
Qed.

Lemma read_uint16_range (fp fp' : F) (v : Z) :
  read_uint16 fp = Ok (v, fp') -> 0 <= v < 2 ^ 16.
Proof.
  unfold read_uint16. intros H.
  destruct (read 2 fp) as [[data fp1]|]; [|done]. rewrite bind_Ok in H.
  destruct (unpack_H data) as [v'|] eqn:E; [|done]. rewrite bind_Ok in H.
  unfold mret, result_ret in H. simplify_eq. by apply unpack_H_range in E.
Qed.

Lemma read_uint32_range (fp fp' : F) (v : Z) :
  read_uint32 fp = Ok (v, fp') -> 0 <= v < 2 ^ 32.
Proof.
  unfold read_uint32. intros H.
  destruct (read 4 fp) as [[data fp1]|]; [|done]. rewrite bind_Ok in H.
  destruct (unpack_I data) as [v'|] eqn:E; [|done]. rewrite bind_Ok in H.
  unfold mret, result_ret in H. simplify_eq. by apply unpack_I_range in E.
Qed.

Lemma read_uint24_range (fp fp' : F) (v : Z) :
  read_uint24 fp = Ok (v, fp') -> 0 <= v.
Proof.
  unfold read_uint24. intros H.
  destruct (read_uint16 fp) as [[hi fp1]|] eqn:E1; [|done].
  rewrite bind_Ok in H.
  destruct (read_uint8 fp1) as [[lo fp2]|] eqn:E2; [|done].
  rewrite bind_Ok in H. unfold mret, result_ret in H. simplify_eq.
  apply read_uint16_range in E1. apply read_uint8_range in E2.
  apply Z.lor_nonneg. split; [apply Z.shiftl_nonneg|]; lia.
Qed.

(** A gamma value is never negative, and its encoding has 1 to 5 bytes. *)
Lemma read_gamma_range (fp fp' : F) (v n : Z) :
  read_gamma fp = Ok ((v, n), fp') -> 0 <= v /\ 1 <= n <= 5.
Proof.
  unfold read_gamma. intros H.
  destruct (read_uint8 fp) as [[b fp1]|] eqn:E; [|done].
  rewrite bind_Ok in H. apply read_uint8_range in E.
  assert (forall m lo k, 0 <= lo -> 0 <= Z.lor (Z.shiftl (Z.land b m) k) lo)
    as Hnn.
  { intros m lo k Hlo. apply Z.lor_nonneg. split; [|done].
    apply Z.shiftl_nonneg, Z.land_nonneg. lia. }
  destruct (Z.land b 128 =? 0).
  { unfold mret, result_ret in H. simplify_eq.
    split; [apply Z.land_nonneg|]; lia. }
  destruct (Z.land b 192 =? 128).
  { destruct (read_uint8 fp1) as [[lo fp2]|] eqn:E2; [|done].
    rewrite bind_Ok in H. unfold mret, result_ret in H. simplify_eq.
    apply read_uint8_range in E2. split; [apply Hnn|]; lia. }
  destruct (Z.land b 224 =? 192).
  { destruct (read_uint16 fp1) as [[lo fp2]|] eqn:E2; [|done].
    rewrite bind_Ok in H. unfold mret, result_ret in H. simplify_eq.
    apply read_uint16_range in E2. split; [apply Hnn|]; lia. }
  destruct (Z.land b 240 =? 224).
  { destruct (read_uint24 fp1) as [[lo fp2]|] eqn:E2; [|done].
    rewrite bind_Ok in H. unfold mret, result_ret in H. simplify_eq.
    apply read_uint24_range in E2. split; [apply Hnn|]; lia. }
  destruct (Z.land b 248 =? 240); [|done].
  destruct (read_uint32 fp1) as [[lo fp2]|] eqn:E2; [|done].
  rewrite bind_Ok in H. unfold mret, result_ret in H. simplify_eq.
  apply read_uint32_range in E2. split; [apply Hnn|]; lia.
Qed.
End GammaValues.

(** ** The record loop and the two array layouts *)

Section RecordLoop.
Context {F : Type} `{!ByteSource F}.
Context {A : Type} (visit : bytes -> Z -> bytes -> A -> result A).

(** With header byte 1 the loop of the program is the array layout. *)
Lemma read_records_array (fuel : nat) (tag : bytes) (next_index : Z) (fp : F)
    (analysis : A) :
  read_records visit fuel tag 1 (next_index - 1) fp analysis
  = spec_array_layout visit fuel tag next_index fp analysis.
Proof.
  revert next_index fp analysis.
  induction fuel as [|fuel IH]; intros i fp a; [done|].
  rewrite read_records_S. cbn [spec_array_layout].
  destruct (read_gamma fp) as [[[gamma n] fp1]|] eqn:E; [|done].
  rewrite !bind_Ok. cbv zeta. apply read_gamma_range in E as [Hg _].
  destruct (Z.ltb_spec (gamma - 1) 0), (Z.eqb_spec gamma 0);
    try lia; [done|].
  change (1 =? 2) with false. cbv iota. rewrite bind_Ok.
  replace (i - 1 + 1) with i by lia.
  destruct (read (gamma - 1) fp1) as [[data fp2]|]; [|done].
  rewrite !bind_Ok.
  destruct (visit tag i data a) as [a1|]; [|done].
  rewrite !bind_Ok. rewrite <- IH. f_equal. lia.
Qed.

(** With header byte 2 it is the sparse-array layout, whatever the index
    it starts with. *)
Lemma read_records_sparse (fuel : nat) (tag : bytes) (index : Z) (fp : F)
    (analysis : A) :
  read_records visit fuel tag 2 index fp analysis
  = spec_sparse_layout visit fuel tag fp analysis.
Proof.
  revert index fp analysis.
  induction fuel as [|fuel IH]; intros index fp a; [done|].
  rewrite read_records_S. cbn [spec_sparse_layout].
  destruct (read_gamma fp) as [[[gamma n] fp1]|] eqn:E; [|done].
  rewrite !bind_Ok. cbv zeta. apply read_gamma_range in E as [Hg _].
  destruct (Z.ltb_spec (gamma - 1) 0), (Z.eqb_spec gamma 0);
    try lia; [done|].
  change (2 =? 2) with true. cbv iota.
  destruct (read_gamma fp1) as [[[ix m] fp2]|]; [|done].
  rewrite !bind_Ok.
  destruct (read (gamma - 1 - m) fp2) as [[data fp3]|]; [|done].
  rewrite !bind_Ok.
  destruct (visit tag ix data a) as [a1|]; [|done].
  rewrite !bind_Ok. apply IH.
Qed.

(** One sparse record, in terms of what the reads return. *)
Lemma sparse_end (fuel : nat) (tag : bytes) (index : Z) (fp fp1 : F)
    (n : Z) (analysis : A) :
  read_gamma fp = Ok ((0, n), fp1) ->
  read_records visit (S fuel) tag 2 index fp analysis = Ok (fp1, analysis).
Proof. intros H. by rewrite read_records_S, H, bind_Ok. Qed.

Lemma sparse_step (fuel : nat) (tag : bytes) (index : Z)
    (fp fp1 fp2 : F) (len n ix m : Z) (analysis : A) :
  read_gamma fp = Ok ((len, n), fp1) -> len <> 0 ->
  read_gamma fp1 = Ok ((ix, m), fp2) ->
  read_records visit (S fuel) tag 2 index fp analysis
  = '(data, fp3) ← read (len - 1 - m) fp2;
    analysis ← visit tag ix data analysis;
    read_records visit fuel tag 2 ix fp3 analysis.
Proof.
  intros H1 Hlen H2. rewrite read_records_S, H1, bind_Ok. cbv zeta.
  apply read_gamma_range in H1 as [Hg _].
  destruct (Z.ltb_spec (len - 1) 0); [lia|].
  change (2 =? 2) with true. cbv iota.
  by rewrite H2, !bind_Ok.
Qed.

Lemma array_step (fuel : nat) (tag : bytes) (index : Z)
    (fp fp1 : F) (len n : Z) (analysis : A) :
  read_gamma fp = Ok ((len, n), fp1) -> len <> 0 ->
  read_records visit (S fuel) tag 1 index fp analysis
  = '(data, fp2) ← read (len - 1) fp1;
    analysis ← visit tag (index + 1) data analysis;
    read_records visit fuel tag 1 (index + 1) fp2 analysis.
Proof.
  intros H1 Hlen. rewrite read_records_S, H1, bind_Ok. cbv zeta.
  apply read_gamma_range in H1 as [Hg _].
  destruct (Z.ltb_spec (len - 1) 0); [lia|].
  change (1 =? 2) with false. cbv iota.
  by rewrite !bind_Ok.
Qed.
End RecordLoop.

(** On a buffered file [read_gamma] takes its bytes off the front, and its
    second result is how many it took. *)
Lemma read_gamma_consumed (s s' : bytes) (v n : Z) :
  read_gamma (Buffered s) = Ok ((v, n), Buffered s') ->
  exists enc : bytes, s = enc ++ s' /\ Z.of_nat (length enc) = n.
Proof.
  destruct s as [|b s]; [done|].
  rewrite read_gamma_cons. cbv zeta.
  destruct (_ =? _).
  { intros H. simplify_eq. by exists [b]. }
  destruct (_ =? _).
  { destruct s as [|c0 s]; [done|]. rewrite read_uint8_cons, bind_Ok.
    intros H. unfold mret, result_ret in H. simplify_eq. by exists [b; c0]. }
  destruct (_ =? _).
  { destruct s as [|c1 [|c0 s]]; [done..|]. rewrite read_uint16_cons, bind_Ok.
    intros H. unfold mret, result_ret in H. simplify_eq.
    by exists [b; c1; c0]. }
  destruct (_ =? _).
  { destruct s as [|c2 [|c1 [|c0 s]]]; [done..|].
    rewrite read_uint24_cons, bind_Ok.
    intros H. unfold mret, result_ret in H. simplify_eq.
    by exists [b; c2; c1; c0]. }
  destruct (_ =? _); [|done].
  destruct s as [|c3 [|c2 [|c1 [|c0 s]]]]; [done..|].
  rewrite read_uint32_cons, bind_Ok.
  intros H. unfold mret, result_ret in H. simplify_eq.
  by exists [b; c3; c2; c1; c0].
Qed.

(** ** The header byte *)

Lemma low_nibble_12 (ty : byte) :
  Z.land (byte_val ty) 0x0F <> 0 ->
  (Z.land (byte_val ty) 0x0F =? 0) = false.
Proof. intros H. by apply Z.eqb_neq. Qed.

Section HeaderByte.
Context {A : Type} (visit : bytes -> Z -> bytes -> A -> result A).

Lemma header_array (fuel : nat) (tag : bytes) (ty : byte) (body : bytes)
    (analysis : A) :
  length tag = 4%nat -> tag <> zero_tag -> byte_val ty = 1 ->
  analyze_savegame_with visit (S fuel) (Buffered (tag ++ ty :: body)) analysis
  = '(fp, analysis) ← spec_array_layout visit fuel tag 0 (Buffered body) analysis;
    analyze_savegame_with visit fuel fp analysis.
Proof.
  intros Hlen Hnz Hty.
  rewrite (boundary_chunk visit fuel _ _ tag analysis (read_tag tag _ Hlen))
    by done.
  rewrite read_uint8_cons, bind_Ok, Hty.
  change (Z.land 1 15 =? 0) with false.
  change ((1 =? 1) || (1 =? 2)) with true. cbv iota.
  by rewrite <- read_records_array.
Qed.

Lemma header_sparse (fuel : nat) (tag : bytes) (ty : byte) (body : bytes)
    (analysis : A) :
  length tag = 4%nat -> tag <> zero_tag -> byte_val ty = 2 ->
  analyze_savegame_with visit (S fuel) (Buffered (tag ++ ty :: body)) analysis
  = '(fp, analysis) ← spec_sparse_layout visit fuel tag (Buffered body) analysis;
    analyze_savegame_with visit fuel fp analysis.
Proof.
  intros Hlen Hnz Hty.
  rewrite (boundary_chunk visit fuel _ _ tag analysis (read_tag tag _ Hlen))
    by done.
  rewrite read_uint8_cons, bind_Ok, Hty.
  change (Z.land 2 15 =? 0) with false.
  change ((2 =? 1) || (2 =? 2)) with true. cbv iota.
  by rewrite <- (read_records_sparse visit fuel tag (-1)).
Qed.

Lemma header_invalid (fuel : nat) (tag : bytes) (ty : byte) (body : bytes)
    (analysis : A) :
  length tag = 4%nat -> tag <> zero_tag ->
  Z.land (byte_val ty) 0x0F <> 0 -> byte_val ty <> 1 -> byte_val ty <> 2 ->
  analyze_savegame_with visit (S fuel) (Buffered (tag ++ ty :: body)) analysis
  = Raise (InvalidChunkType (byte_val ty)).
Proof.
  intros Hlen Hnz Hlow H1 H2.
  rewrite (boundary_chunk visit fuel _ _ tag analysis (read_tag tag _ Hlen))
    by done.
  rewrite read_uint8_cons, bind_Ok, low_nibble_12 by done.
  apply Z.eqb_neq in H1 as ->. by apply Z.eqb_neq in H2 as ->.
Qed.
End HeaderByte.

(** C1, as stated, fails: the header byte 0x11 has low nibble 1, and the
    chunk is not parsed as an array (which here would be an empty array and
    a clean end) but refused as an invalid chunk type; likewise 0x12. *)
Lemma high_nibble_array_rejected :
  Z.land (byte_val x11) 0x0F = 1 /\
  analyze_savegame_with emit 2 (Buffered (b_ "NGRF" ++ [x11; x00])) []
  = Raise (InvalidChunkType 17) /\
  ('(fp, items) ← spec_array_layout emit 1 (b_ "NGRF") 0 (Buffered [x00]) [];
   analyze_savegame_with emit 1 fp items) = Ok [] /\
  Z.land (byte_val x12) 0x0F = 2 /\
  analyze_savegame_with emit 2 (Buffered (b_ "NGRF" ++ [x12; x00])) []
  = Raise (InvalidChunkType 18).
Proof. repeat split. Qed.

(** C1, amended.  A chunk is parsed as the array layout exactly when its
    header byte is 1 and as the sparse-array layout exactly when it is 2,
    that is with low nibble 1 or 2 and high nibble 0; every other header
    byte whose low nibble is not 0 makes the whole parse fail with the
    invalid-chunk-type error: a low nibble outside 0, 1, 2, and also a low
    nibble 1 or 2 under a high nibble that is not 0. *)
Theorem header_byte_dispatch {A : Type}
    (visit : bytes -> Z -> bytes -> A -> result A) (fuel : nat) (tag : bytes)
    (ty : byte) (body : bytes) (analysis : A) :
  length tag = 4%nat -> tag <> zero_tag ->
  let parse :=
    analyze_savegame_with visit (S fuel) (Buffered (tag ++ ty :: body)) analysis
  in
  (byte_val ty = 1 ->
   parse = '(fp, analysis) ← spec_array_layout visit fuel tag 0 (Buffered body) analysis;
           analyze_savegame_with visit fuel fp analysis) /\
  (byte_val ty = 2 ->
   parse = '(fp, analysis) ← spec_sparse_layout visit fuel tag (Buffered body) analysis;
           analyze_savegame_with visit fuel fp analysis) /\
  (Z.land (byte_val ty) 0x0F <> 0 -> Z.land (byte_val ty) 0x0F <> 1 ->
   Z.land (byte_val ty) 0x0F <> 2 ->
   parse = Raise (InvalidChunkType (byte_val ty))) /\
  (Z.land (byte_val ty) 0x0F = 1 \/ Z.land (byte_val ty) 0x0F = 2 ->
   Z.shiftr (byte_val ty) 4 <> 0 ->
   parse = Raise (InvalidChunkType (byte_val ty))).
Proof.
  intros Hlen Hnz parse. subst parse.
  split; [by apply header_array|]. split; [by apply header_sparse|]. split.
  - intros H0 H1 H2. apply header_invalid; try done.
    + intros E. by rewrite E in H1.
    + intros E. by rewrite E in H2.
  - intros Hlow Hhigh. apply header_invalid; try done.
    + destruct Hlow as [E | E]; rewrite E; lia.
    + intros E. by rewrite E in Hhigh.
    + intros E. by rewrite E in Hhigh.
Qed.

Lemma header_byte_dispatch_witness :
  length (b_ "NGRF") = 4%nat /\ b_ "NGRF" <> zero_tag /\
  (byte_val x01 = 1 /\
   chunk_items 3 (Buffered (b_ "NGRF" ++ x01 :: [x03; x2a; x2b; x00]))
   = Ok [(b_ "NGRF", 0, [x2a; x2b])]) /\
  (byte_val x02 = 2 /\
   chunk_items 3 (Buffered (b_ "NGRF" ++ x02 :: [x04; x07; x2a; x2b; x00]))
   = Ok [(b_ "NGRF", 7, [x2a; x2b])]) /\
  (Z.land (byte_val x03) 0x0F <> 0 /\ Z.land (byte_val x03) 0x0F <> 1 /\
   Z.land (byte_val x03) 0x0F <> 2 /\
   chunk_items 3 (Buffered (b_ "NGRF" ++ x03 :: [x00]))
   = Raise (InvalidChunkType 3)) /\
  ((Z.land (byte_val x21) 0x0F = 1 \/ Z.land (byte_val x21) 0x0F = 2) /\
   Z.shiftr (byte_val x21) 4 <> 0 /\
   chunk_items 3 (Buffered (b_ "NGRF" ++ x21 :: [x00]))
   = Raise (InvalidChunkType 33)).
Proof.
  assert (length (b_ "NGRF") = 4%nat) as Hlen by reflexivity.
  assert (b_ "NGRF" <> zero_tag) as Hnz by discriminate.
  split; [exact Hlen|]. split; [exact Hnz|].
  split; [split; [reflexivity|]|split; [split; [reflexivity|]|split]].
  - unfold chunk_items.
    destruct (header_byte_dispatch emit 2 (b_ "NGRF") x01
                [x03; x2a; x2b; x00] [] Hlen Hnz) as (-> & _); reflexivity.
  - unfold chunk_items.
    destruct (header_byte_dispatch emit 2 (b_ "NGRF") x02
                [x04; x07; x2a; x2b; x00] [] Hlen Hnz) as (_ & -> & _);
      reflexivity.
  - assert (Z.land (byte_val x03) 0x0F <> 0) as H0 by discriminate.
    assert (Z.land (byte_val x03) 0x0F <> 1) as H1 by discriminate.
    assert (Z.land (byte_val x03) 0x0F <> 2) as H2 by discriminate.
    repeat (split; [assumption|]).
    destruct (header_byte_dispatch emit 2 (b_ "NGRF") x03 [x00] [] Hlen Hnz)
      as (_ & _ & H & _).
    exact (H H0 H1 H2).
  - assert (Z.land (byte_val x21) 0x0F = 1 \/ Z.land (byte_val x21) 0x0F = 2)
      as Hlow by (left; reflexivity).
    assert (Z.shiftr (byte_val x21) 4 <> 0) as Hhigh by discriminate.
    repeat (split; [assumption|]).
    destruct (header_byte_dispatch emit 2 (b_ "NGRF") x21 [x00] [] Hlen Hnz)
      as (_ & _ & _ & H).
    exact (H Hlow Hhigh).
Defined.

(** ** Counting NewGRF chunks *)

(** No key "newgrf" is ever written, so the guard of the counter always
    finds it missing: the counter is put back to 0 and ends at 1. *)
Lemma count_without_guard (guard key : string) (a : summary) :
  a !! guard = None ->
  count guard key a = Ok (<[key := VInt 1]> a).
Proof.
  intros H. unfold count, increment. rewrite H, lookup_insert_eq.
  by rewrite insert_insert_eq.
Qed.

Lemma analyze_chunk_newgrf_count (tag : bytes) (index : Z) (data : bytes)
    (a a' : summary) :
  a !! "newgrf" = None ->
  a !! "newgrf-count" = None \/ a !! "newgrf-count" = Some (VInt 1) ->
  analyze_chunk tag index data a = Ok a' ->
  a' !! "newgrf" = None /\
  (a' !! "newgrf-count" = None \/ a' !! "newgrf-count" = Some (VInt 1)).
Proof.
  intros Hguard Hcount H. split.
  { rewrite <- Hguard. apply analyze_chunk_frame with tag index data; [done|].
    intros [E | [E | [E | E]]]; discriminate E. }
  destruct (tag_cases tag) as [-> | [-> | [-> | [-> | Hother]]]].
  - rewrite analyze_chunk_MAPS in H.
    destruct (read_uint32 (InMemory data)) as [[w fp]|]; [|done].
    rewrite bind_Ok in H.
    destruct (read_uint32 fp) as [[h fp']|]; [|done].
    rewrite bind_Ok in H. simplify_eq. by rewrite lookup_insert_ne.
  - rewrite analyze_chunk_NGRF, count_without_guard in H by done.
    simplify_eq. right. apply lookup_insert_eq.
  - rewrite analyze_chunk_AIPL in H.
    destruct (read_str (InMemory data)) as [[name fp]|]; [|done].
    rewrite bind_Ok in H. destruct name as [|c name]; [by simplify_eq|].
    apply count_frame with (k := "newgrf-count") in H; [|done].
    by rewrite H.
  - rewrite analyze_chunk_GSDT in H.
    destruct (read_str (InMemory data)) as [[name fp]|]; [|done].
    rewrite bind_Ok in H. destruct name as [|c name]; [by simplify_eq|].
    apply count_frame with (k := "newgrf-count") in H; [|done].
    by rewrite H.
  - rewrite analyze_chunk_other in H by done. by simplify_eq.
Qed.

(** C2 does not hold of the code.  A file with two NGRF chunks gets
    newgrf-count 1, not 2; and whatever the file and the byte source, the
    summary of a decoded file has no newgrf-count or has it at 1. *)
Theorem newgrf_count_stuck_at_one :
  (forall (D : Type) (E : InflateEngine D) (L : Type) (R : ByteSource L)
          (lzma_open : BufferedReader -> L),
      main_file lzma_open 3 "savegames/two.sav"
        (b_ "OTTN" ++ [x00; x05; x00; x00]
         ++ b_ "NGRF" ++ [x00; x00; x00; x00]
         ++ b_ "NGRF" ++ [x00; x00; x00; x00])
      = Ok (<["newgrf-count" := VInt 1]>
              (initial_analysis "savegames/two.sav" 5 (b_ "OTTN")))) /\
  (forall (F : Type) (R : ByteSource F) (fuel : nat) (fp : F)
          (filename : string) (version : Z) (format : bytes) (a : summary),
      analyze_savegame fuel fp (initial_analysis filename version format) = Ok a ->
      a !! "newgrf-count" = None \/ a !! "newgrf-count" = Some (VInt 1)).
Proof.
  split; [intros D E L R lzma_open; by_vm|].
  intros F R fuel fp filename version format a H.
  unfold analyze_savegame in H.
  apply (analyze_savegame_with_keeps analyze_chunk
           (fun x => x !! "newgrf" = None /\
                     (x !! "newgrf-count" = None
                      \/ x !! "newgrf-count" = Some (VInt 1)))) in H.
  - tauto.
  - intros tag index data x x' [Hg Hc] Hstep.
    by apply analyze_chunk_newgrf_count with tag index data x.
  - unfold initial_analysis. split; [|left]; by simplify_map_eq.
Qed.

Lemma newgrf_count_stuck_at_one_witness :
  analyze_savegame 6
    (Buffered (b_ "NGRF" ++ [x01; x02; x2a; x02; x2b; x02; x2c; x00]))
    (initial_analysis "three.sav" 5 (b_ "OTTN"))
  = Ok (<["newgrf-count" := VInt 1]> (initial_analysis "three.sav" 5 (b_ "OTTN")))
  /\ (<["newgrf-count" := VInt 1]> (initial_analysis "three.sav" 5 (b_ "OTTN")))
     !! "newgrf-count" = Some (VInt 1).
Proof.
  assert (analyze_savegame 6
    (Buffered (b_ "NGRF" ++ [x01; x02; x2a; x02; x2b; x02; x2c; x00]))
    (initial_analysis "three.sav" 5 (b_ "OTTN"))
  = Ok (<["newgrf-count" := VInt 1]> (initial_analysis "three.sav" 5 (b_ "OTTN"))))
    as Hrun by by_vm.
  split; [exact Hrun|].
  destruct newgrf_count_stuck_at_one as [_ Hall].
  destruct (Hall _ _ _ _ _ _ _ _ Hrun) as [Hnone | Hone]; [|exact Hone].
  vm_compute in Hnone. discriminate Hnone.
Defined.

(** ** Payloads longer than the rest of the file *)

Section ShortPayload.
Context {A : Type} (visit : bytes -> Z -> bytes -> A -> result A).



End ShortPayload.

(** ** What the field extractor makes of a short payload *)




(** An array or sparse-array chunk at the head of the stream whose first
    record is cut. *)
Section ShortRecordInFile.
Context {A : Type} (visit : bytes -> Z -> bytes -> A -> result A).


End ShortRecordInFile.




(** ** Sparse-array records *)

(** C6.  In the sparse-array loop a length gamma is decoded first.  If it is
    0 the chunk ends there.  Otherwise a second gamma gives the index of the
    record, the payload that is read has (length gamma - 1) minus the number
    of bytes of the index gamma bytes, and the record is handed on with the
    index it carries, whatever the index the loop held before; the loop goes
    on behind the payload. *)
Theorem sparse_record {A : Type} (visit : bytes -> Z -> bytes -> A -> result A)
    (fuel : nat) (tag : bytes) (index : Z) (analysis : A) :
  (forall (F : Type) (R : ByteSource F) (fp fp1 : F) (n : Z),
      read_gamma fp = Ok ((0, n), fp1) ->
      read_records visit (S fuel) tag 2 index fp analysis = Ok (fp1, analysis)) /\
  (forall (F : Type) (R : ByteSource F) (fp fp1 fp2 : F) (len n ix m : Z),
      read_gamma fp = Ok ((len, n), fp1) -> len <> 0 ->
      read_gamma fp1 = Ok ((ix, m), fp2) ->
      read_records visit (S fuel) tag 2 index fp analysis
      = '(data, fp3) ← read ((len - 1) - m) fp2;
        analysis ← visit tag ix data analysis;
        read_records visit fuel tag 2 ix fp3 analysis) /\
  (forall (s s1 payload rest : bytes) (len n ix m : Z),
      read_gamma (Buffered s) = Ok ((len, n), Buffered s1) ->
      read_gamma (Buffered s1) = Ok ((ix, m), Buffered (payload ++ rest)) ->
      Z.of_nat (length payload) = (len - 1) - m ->
      (exists index_gamma : bytes,
          s1 = index_gamma ++ payload ++ rest /\
          Z.of_nat (length payload) = (len - 1) - Z.of_nat (length index_gamma)) /\
      read_records visit (S fuel) tag 2 index (Buffered s) analysis
      = (analysis ← visit tag ix payload analysis;
         read_records visit fuel tag 2 ix (Buffered rest) analysis)).
Proof.
  split; [|split].
  - intros F R fp fp1 n H. by apply sparse_end with n.
  - intros F R fp fp1 fp2 len n ix m H1 Hlen H2.
    by apply sparse_step with fp1 n.
  - intros s s1 payload rest len n ix m H1 H2 Hpayload. split.
    + destruct (read_gamma_consumed _ _ _ _ H2) as (enc & -> & Henc).
      exists enc. split; [done|lia].
    + pose proof (read_gamma_range _ _ _ _ H2) as [_ Hm].
      rewrite (sparse_step visit fuel tag index _ _ _ len n ix m
                 analysis H1 ltac:(lia) H2).
      rewrite <- Hpayload, read_Buffered_app. by rewrite bind_Ok.
Qed.

Lemma sparse_record_witness :
  read_gamma (Buffered [x00; x2a]) = Ok ((0, 1), Buffered [x2a]) /\
  read_records emit 1 (b_ "SIGN") 2 (-1) (Buffered [x00; x2a]) []
  = Ok (Buffered [x2a], []) /\
  read_gamma (Buffered [x05; x80; x07; x2a; x2b; x00])
  = Ok ((5, 1), Buffered [x80; x07; x2a; x2b; x00]) /\
  read_gamma (Buffered [x80; x07; x2a; x2b; x00])
  = Ok ((7, 2), Buffered ([x2a; x2b] ++ [x00])) /\
  Z.of_nat (length [x2a; x2b]) = (5 - 1) - 2 /\
  read_records emit 2 (b_ "SIGN") 2 (-1)
    (Buffered [x05; x80; x07; x2a; x2b; x00]) []
  = Ok (Buffered [], [(b_ "SIGN", 7, [x2a; x2b])]).
Proof.
  destruct (sparse_record emit 0 (b_ "SIGN") (-1) []) as (Hend & _ & _).
  destruct (sparse_record emit 1 (b_ "SIGN") (-1) []) as (_ & _ & Hrec).
  split; [reflexivity|].
  split; [exact (Hend _ _ (Buffered [x00; x2a]) (Buffered [x2a]) 1 eq_refl)|].
  split; [reflexivity|]. split; [reflexivity|]. split; [reflexivity|].
  destruct (Hrec [x05; x80; x07; x2a; x2b; x00] [x80; x07; x2a; x2b; x00]
              [x2a; x2b] [x00] 5 1 7 2 eq_refl eq_refl eq_refl) as [_ ->].
  reflexivity.
Defined.

(** A read of fewer than -1 bytes is refused by a buffered file itself. *)
Lemma read_Buffered_refused (n : Z) (s : bytes) :
  n < -1 -> read n (Buffered s) = Raise ValueError.
Proof.
  intros H. unfold read, BufferedReader_read.
  destruct (Z.leb_spec 0 n); [lia|].
  by destruct (Z.eqb_spec n (-1)); [lia|].
Qed.

(** C10.  There are sparse-array records whose length gamma minus 1 is
    smaller than the number of bytes of their index gamma, so that the size
    computed for the payload is negative: a length gamma 1 before any index
    gamma.  For such a record the loop makes no check of its own: it passes
    the negative size to [read] of the stream and hands the record on with
    whatever that returns.  A buffered file asked for -1 bytes returns all
    that is left; the zlib adapter returns nothing, and a file whose only
    record is of this kind is decoded without any error. *)
Theorem negative_sparse_size :
  (forall (F : Type) (R : ByteSource F) (A : Type)
          (visit : bytes -> Z -> bytes -> A -> result A) (fuel : nat)
          (tag : bytes) (index : Z) (fp fp1 fp2 : F) (len n ix m : Z)
          (analysis : A),
      read_gamma fp = Ok ((len, n), fp1) -> len <> 0 ->
      read_gamma fp1 = Ok ((ix, m), fp2) ->
      len - 1 < m ->
      (len - 1) - m < 0 /\
      read_records visit (S fuel) tag 2 index fp analysis
      = '(data, fp3) ← read ((len - 1) - m) fp2;
        analysis ← visit tag ix data analysis;
        read_records visit fuel tag 2 ix fp3 analysis) /\
  (forall (F : Type) (R : ByteSource F) (fp fp1 fp2 : F) (n ix m : Z),
      read_gamma fp = Ok ((1, n), fp1) ->
      read_gamma fp1 = Ok ((ix, m), fp2) ->
      1 - 1 < m) /\
  (forall (fuel : nat) (tag : bytes) (index : Z) (ixb : byte) (rest : bytes)
          (items : list item),
      Z.shiftr (byte_val ixb) 7 = 0 ->
      read_records emit (S fuel) tag 2 index (Buffered (x01 :: ixb :: rest)) items
      = read_records emit fuel tag 2 (byte_val ixb) (Buffered [])
          (items ++ [(tag, byte_val ixb, rest)])) /\
  chunk_items 3
    (ZLibFile_open (D := unit)
       (Buffered (b_ "SIGN" ++ [x02; x01; x00; x00])))
  = Ok [(b_ "SIGN", 0, [])].
Proof.
  split; [|split; [|split]].
  - intros F R A visit fuel tag index fp fp1 fp2 len n ix m analysis
      H1 Hlen H2 Hneg.
    split; [lia|]. by apply sparse_step with fp1 n.
  - intros F R fp fp1 fp2 n ix m _ H2.
    pose proof (read_gamma_range _ _ _ _ H2) as [_ Hm]. lia.
  - intros fuel tag index ixb rest items Hix.
    pose proof (gamma_row_1 ixb rest Hix) as H2.
    change 0x7F with (Z.ones 7) in H2. rewrite land_low in H2 by lia.
    pose proof (byte_val_range ixb) as Hr.
    assert (byte_val ixb < 2 ^ 7) as Hlt.
    { rewrite Z.shiftr_div_pow2 in Hix by lia.
      apply Z.div_small_iff in Hix; lia. }
    rewrite Z.mod_small in H2 by lia.
    assert (read_gamma (Buffered (x01 :: ixb :: rest))
            = Ok ((1, 1), Buffered (ixb :: rest))) as H1 by reflexivity.
    rewrite (sparse_step emit fuel tag index _ _ _ 1 1 _ 1 items
               H1 ltac:(lia) H2).
    reflexivity.
  - by_vm.
Qed.

Lemma negative_sparse_size_witness :
  read_gamma (Buffered [x01; x80; x07; x2a]) = Ok ((1, 1), Buffered [x80; x07; x2a]) /\
  read_gamma (Buffered [x80; x07; x2a]) = Ok ((7, 2), Buffered [x2a]) /\
  (1 - 1) - 2 < 0 /\
  read_records emit 1 (b_ "SIGN") 2 (-1) (Buffered [x01; x80; x07; x2a]) []
  = Raise ValueError /\
  Z.shiftr (byte_val x07) 7 = 0 /\
  read_records emit 1 (b_ "SIGN") 2 (-1) (Buffered [x01; x07; x2a; x2b]) []
  = read_records emit 0 (b_ "SIGN") 2 7 (Buffered [])
      [(b_ "SIGN", 7, [x2a; x2b])].
Proof.
  destruct negative_sparse_size as (Hloop & Hany & Hminus1 & _).
  assert (read_gamma (Buffered [x01; x80; x07; x2a])
          = Ok ((1, 1), Buffered [x80; x07; x2a])) as H1 by reflexivity.
  assert (read_gamma (Buffered [x80; x07; x2a]) = Ok ((7, 2), Buffered [x2a]))
    as H2 by reflexivity.
  split; [exact H1|]. split; [exact H2|].
  destruct (Hloop BufferedReader _ (list item) emit 0%nat (b_ "SIGN") (-1)
              _ _ _ 1 1 7 2 [] H1 ltac:(lia) H2 (Hany _ _ _ _ _ _ _ _ H1 H2))
    as [Hneg ->].
  split; [exact Hneg|]. split; [reflexivity|]. split; [reflexivity|].
  exact (Hminus1 0%nat (b_ "SIGN") (-1) x07 [x2a; x2b] [] eq_refl).
Defined.


(** ** The zlib adapter *)

Lemma read_8192 (raw : bytes) :
  read 8192 (Buffered raw)
  = Ok (take (Z.to_nat 8192) raw, Buffered (drop (Z.to_nat 8192) raw)).
Proof. reflexivity. Qed.

Section ZLibAdapter.
Context {D : Type} `{!InflateEngine D}.

(** One turn of the loop of [ZLibFile.read]. *)
Lemma fill_S (fuel : nat) (amount : Z) (z : ZLibFile) :
  fill (S fuel) amount z
  = if Z.of_nat (length (uncompressed z)) <? amount then
      match br_rest (file z) with
      | [] => Ok (MkZLibFile (Buffered []) (decompressor z) (uncompressed z))
      | _ :: _ =>
        '(out, d) ← decompress (take (Z.to_nat 8192) (br_rest (file z)))
                               (decompressor z);
        fill fuel amount
          (MkZLibFile (Buffered (drop (Z.to_nat 8192) (br_rest (file z)))) d
                      (uncompressed z ++ out))
      end
    else Ok z.
Proof.
  cbn [fill]. destruct (_ <? _); [|done].
  destruct z as [[raw] d unc]. cbn [file br_rest decompressor uncompressed].
  rewrite read_8192, bind_Ok.
  destruct raw as [|b raw].
  - by rewrite take_nil, drop_nil.
  - rewrite length_take. cbn [length].
    destruct (Nat.eqb_spec (Z.to_nat 8192 `min` S (length raw)) 0); [lia|done].
Qed.

Lemma inflate_all_fuel (fuel1 fuel2 : nat) (raw : bytes) (d : D) :
  (length raw <= fuel1)%nat -> (length raw <= fuel2)%nat ->
  inflate_all fuel1 raw d = inflate_all fuel2 raw d.
Proof.
  revert fuel2 raw d.
  induction fuel1 as [|fuel1 IH]; intros fuel2 raw d H1 H2.
  - destruct raw; [|cbn in H1; lia]. by destruct fuel2.
  - destruct fuel2 as [|fuel2].
    + destruct raw; [done|cbn in H2; lia].
    + destruct raw as [|b raw]; [done|].
      cbn [inflate_all].
      destruct (decompress _ d) as [[out d']|]; [|done].
      f_equal. apply IH; rewrite length_drop; cbn [length] in *; lia.
Qed.

Lemma logical_stream_cons (b : byte) (raw : bytes) (d : D) (unc : bytes) :
  logical_stream (MkZLibFile (Buffered (b :: raw)) d unc)
  = match decompress (take (Z.to_nat 8192) (b :: raw)) d with
    | Ok (out, d') =>
      logical_stream
        (MkZLibFile (Buffered (drop (Z.to_nat 8192) (b :: raw))) d' (unc ++ out))
    | Raise _ => unc
    end.
Proof.
  unfold logical_stream. cbn [file br_rest decompressor uncompressed].
  cbn [length inflate_all].
  destruct (decompress _ d) as [[out d']|]; [|by rewrite app_nil_r].
  rewrite <- app_assoc. do 2 f_equal.
  apply inflate_all_fuel; rewrite length_drop; cbn [length]; lia.
Qed.

(** What the loop leaves behind: the logical stream is the same; the raw
    file has lost a number of pieces of 8192 bytes; the buffer has only
    grown at its end; the loop stopped with enough bytes in the buffer or
    with the raw file at its end; and it did not touch a buffer that was
    large enough. *)
Lemma fill_spec (fuel : nat) (amount : Z) (z z' : ZLibFile) :
  fill fuel amount z = Ok z' ->
  logical_stream z' = logical_stream z /\
  (exists pieces : nat,
      br_rest (file z')
      = drop (pieces * Z.to_nat 8192) (br_rest (file z))) /\
  (exists out : bytes, uncompressed z' = uncompressed z ++ out) /\
  (amount <= Z.of_nat (length (uncompressed z')) \/ br_rest (file z') = []) /\
  (amount <= Z.of_nat (length (uncompressed z)) -> z' = z).
Proof.
  revert z. induction fuel as [|fuel IH]; intros z H; [done|].
  rewrite fill_S in H.
  destruct (Z.ltb_spec (Z.of_nat (length (uncompressed z))) amount) as [Hlt|Hge].
  2:{ simplify_eq.
      split; [done|]. split; [by exists 0%nat|].
      split; [exists []; by rewrite app_nil_r|].
      split; [by left|done]. }
  destruct z as [[raw] d unc]. cbn [file br_rest decompressor uncompressed] in *.
  destruct raw as [|b raw].
  { simplify_eq. cbn [file br_rest decompressor uncompressed].
    split; [done|]. split; [by exists 0%nat|].
    split; [exists []; by rewrite app_nil_r|].
    split; [by right|]. intros; lia. }
  destruct (decompress _ d) as [[out d']|] eqn:E; [|done].
  rewrite bind_Ok in H. apply IH in H as (Hs & [k Hk] & [o Ho] & Hstop & _).
  cbn [file br_rest decompressor uncompressed] in *.
  split; [by rewrite Hs, logical_stream_cons, E|].
  split; [exists (S k); rewrite Hk, drop_drop; f_equal; lia|].
  split; [exists (out ++ o); by rewrite Ho, app_assoc|].
  split; [done|]. intros; lia.
Qed.

(** More turns than the raw file has bytes: their number plays no part. *)
Lemma fill_fuel (fuel1 fuel2 : nat) (amount : Z) (z : ZLibFile) :
  (length (br_rest (file z)) < fuel1)%nat ->
  (length (br_rest (file z)) < fuel2)%nat ->
  fill fuel1 amount z = fill fuel2 amount z.
Proof.
  revert fuel2 z.
  induction fuel1 as [|fuel1 IH]; intros fuel2 z H1 H2; [lia|].
  destruct fuel2 as [|fuel2]; [lia|].
  rewrite !fill_S. destruct (_ <? _); [|done].
  destruct z as [[raw] d unc]. cbn [file br_rest decompressor uncompressed] in *.
  destruct raw as [|b raw]; [done|].
  destruct (decompress _ d) as [[out d']|]; [|done].
  rewrite !bind_Ok. apply IH; cbn [file br_rest]; rewrite length_drop;
    cbn [length] in *; lia.
Qed.

(** With one turn more than the raw file has bytes the loop never stops for
    want of turns: an engine that accepts every piece makes it return. *)
Lemma fill_total (fuel : nat) (amount : Z) (z : ZLibFile) :
  (forall data d, is_Ok (decompress data d)) ->
  (length (br_rest (file z)) < fuel)%nat ->
  is_Ok (fill fuel amount z).
Proof.
  intros Hengine. revert z.
  induction fuel as [|fuel IH]; intros z Hfuel; [lia|].
  rewrite fill_S. destruct (_ <? _); [|by eexists].
  destruct z as [[raw] d unc]. cbn [file br_rest decompressor uncompressed] in *.
  destruct raw as [|b raw]; [by eexists|].
  destruct (Hengine (take (Z.to_nat 8192) (b :: raw)) d) as [[out d'] ->].
  rewrite bind_Ok. apply IH. cbn [file br_rest].
  rewrite length_drop. cbn [length] in *. lia.
Qed.

(** The pieces the loop takes: it feeds the engine a number of pieces of
    the raw file, each taken while the buffer was still too short and the
    raw file not at its end, and adds what comes out to the buffer. *)
Lemma fill_feeds (fuel : nat) (amount : Z) (z z' : ZLibFile) :
  fill fuel amount z = Ok z' ->
  exists (pieces : nat) (out : bytes),
    feed pieces (br_rest (file z)) (decompressor z) = Ok (out, decompressor z') /\
    br_rest (file z') = drop (pieces * Z.to_nat 8192) (br_rest (file z)) /\
    uncompressed z' = uncompressed z ++ out /\
    (forall (j : nat) (out_j : bytes) (d_j : D),
        (j < pieces)%nat ->
        feed j (br_rest (file z)) (decompressor z) = Ok (out_j, d_j) ->
        Z.of_nat (length (uncompressed z ++ out_j)) < amount /\
        drop (j * Z.to_nat 8192) (br_rest (file z)) <> []).
Proof.
  revert z. induction fuel as [|fuel IH]; intros z H; [done|].
  rewrite fill_S in H.
  destruct (Z.ltb_spec (Z.of_nat (length (uncompressed z))) amount) as [Hlt|Hge].
  2:{ simplify_eq. exists 0%nat, []. rewrite app_nil_r.
      split; [done|]. split; [done|]. split; [done|]. intros; lia. }
  destruct z as [[raw] d unc]. cbn [file br_rest decompressor uncompressed] in *.
  destruct raw as [|b raw].
  { simplify_eq. cbn [file br_rest decompressor uncompressed].
    exists 0%nat, []. rewrite app_nil_r.
    split; [done|]. split; [done|]. split; [done|]. intros; lia. }
  destruct (decompress _ d) as [[out d1]|] eqn:E; [|done].
  rewrite bind_Ok in H.
  apply IH in H as (k & more & Hfeed & Hraw & Hunc & Hmin).
  cbn [file br_rest decompressor uncompressed] in *.
  exists (S k), (out ++ more).
  split; [cbn [feed]; by rewrite E, bind_Ok, Hfeed, bind_Ok|].
  split; [rewrite Hraw, drop_drop; f_equal; lia|].
  split; [by rewrite Hunc, app_assoc|].
  intros j out_j d_j Hj Hfj. destruct j as [|j].
  - cbn in Hfj. simplify_eq. rewrite app_nil_r. done.
  - cbn [feed] in Hfj. rewrite E, bind_Ok in Hfj.
    destruct (feed j _ d1) as [[more_j d_j']|] eqn:Ej; [|done].
    rewrite bind_Ok in Hfj. unfold mret, result_ret in Hfj. simplify_eq.
    destruct (Hmin j more_j d_j ltac:(lia) Ej) as [Hlen Hne].
    split; [by rewrite app_assoc|].
    replace (S j * Z.to_nat 8192)%nat with (Z.to_nat 8192 + j * Z.to_nat 8192)%nat
      by lia.
    by rewrite <- drop_drop.
Qed.

Lemma read_ZLibFile (amount : Z) (z : ZLibFile) :
  read amount z
  = z1 ← fill (S (length (br_rest (file z)))) amount z;
    Ok (slice_to amount (uncompressed z1),
        MkZLibFile (file z1) (decompressor z1)
                   (slice_from amount (uncompressed z1))).
Proof. reflexivity. Qed.
End ZLibAdapter.

Section ZLibRead.
Context {D : Type} `{!InflateEngine D}.

Lemma slice_to_nil (n : Z) : slice_to n [] = [].
Proof. unfold slice_to. destruct (0 <=? n); apply take_nil. Qed.

Lemma slice_from_nil (n : Z) : slice_from n [] = [].
Proof. unfold slice_from. destruct (0 <=? n); apply drop_nil. Qed.

(** One call of [read]. *)
Lemma read_ZLibFile_spec (n : Z) (z z' : ZLibFile) (data : bytes) :
  read n z = Ok (data, z') ->
  logical_stream z = data ++ logical_stream z' /\
  (exists pieces : nat,
      br_rest (file z')
      = drop (pieces * Z.to_nat 8192) (br_rest (file z))) /\
  (exists out : bytes, data ++ uncompressed z' = uncompressed z ++ out) /\
  (n <= Z.of_nat (length (data ++ uncompressed z')) \/ br_rest (file z') = []) /\
  (n <= Z.of_nat (length (uncompressed z)) -> file z' = file z) /\
  (0 <= n ->
   Z.of_nat (length data) <= n /\
   (Z.of_nat (length data) < n -> exhausted z')) /\
  (exists (pieces : nat) (out : bytes),
      feed pieces (br_rest (file z)) (decompressor z)
      = Ok (out, decompressor z') /\
      br_rest (file z') = drop (pieces * Z.to_nat 8192) (br_rest (file z)) /\
      data ++ uncompressed z' = uncompressed z ++ out /\
      (forall (j : nat) (out_j : bytes) (d_j : D),
          (j < pieces)%nat ->
          feed j (br_rest (file z)) (decompressor z) = Ok (out_j, d_j) ->
          Z.of_nat (length (uncompressed z ++ out_j)) < n /\
          drop (j * Z.to_nat 8192) (br_rest (file z)) <> [])).
Proof.
  rewrite read_ZLibFile. intros H.
  destruct (fill _ n z) as [z1|] eqn:E; [|done].
  rewrite bind_Ok in H. simplify_eq.
  pose proof (fill_feeds _ _ _ _ E) as Hfeeds.
  apply fill_spec in E as (Hs & Hk & Ho & Hstop & Hsame).
  cbn [file br_rest decompressor uncompressed].
  rewrite slice_to_from.
  split.
  { rewrite <- Hs. unfold logical_stream.
    cbn [file br_rest decompressor uncompressed].
    by rewrite app_assoc, slice_to_from. }
  split; [done|]. split; [done|]. split; [done|].
  split; [intros Hn; by rewrite (Hsame Hn)|].
  split; [|done].
  intros Hn. unfold slice_to, slice_from, exhausted.
  cbn [file br_rest decompressor uncompressed].
  destruct (Z.leb_spec 0 n); [|lia].
  rewrite length_take. split; [lia|].
  intros Hshort. destruct Hstop as [Hfull | Hraw]; [lia|].
  split; [done|]. apply drop_ge. lia.
Qed.

(** A call after the end. *)
Lemma read_exhausted (n : Z) (z : ZLibFile) :
  exhausted z -> read n z = Ok ([], z).
Proof.
  destruct z as [[raw] d unc]. unfold exhausted.
  cbn [file br_rest uncompressed]. intros [-> ->].
  rewrite read_ZLibFile, fill_S.
  cbn [file br_rest decompressor uncompressed length].
  destruct (_ <? _); rewrite bind_Ok;
    cbn [file br_rest decompressor uncompressed];
    by rewrite slice_to_nil, slice_from_nil.
Qed.

(** A sequence of calls. *)
Lemma read_calls_spec (amounts : list Z) (z z' : ZLibFile)
    (slices : list bytes) :
  read_calls amounts z = Ok (slices, z') ->
  logical_stream z = concat slices ++ logical_stream z' /\
  (Forall (fun n => 0 <= n) amounts ->
   Forall2 (fun n data => Z.of_nat (length data) <= n) amounts slices).
Proof.
  revert z slices.
  induction amounts as [|n amounts IH]; intros z slices H.
  { cbn in H. simplify_eq. split; [done|]. intros _. constructor. }
  cbn [read_calls] in H.
  destruct (read n z) as [[data z1]|] eqn:E; [|done].
  rewrite bind_Ok in H.
  destruct (read_calls amounts z1) as [[rest z2]|] eqn:E'; [|done].
  rewrite bind_Ok in H. unfold mret, result_ret in H. simplify_eq.
  apply IH in E' as [Hs Hlen].
  apply read_ZLibFile_spec in E as (Hs1 & _ & _ & _ & _ & Hn & _).
  split.
  - cbn [concat]. by rewrite <- app_assoc, <- Hs, <- Hs1.
  - intros Hall. apply Forall_cons in Hall as [Hn0 Hall].
    constructor; [by apply Hn|by apply Hlen].
Qed.

Lemma read_total (n : Z) (z : ZLibFile) :
  (forall data d, is_Ok (decompress data d)) -> is_Ok (read n z).
Proof.
  intros Hengine. rewrite read_ZLibFile.
  destruct (fill_total (S (length (br_rest (file z)))) n z Hengine) as [z1 ->];
    [lia|].
  rewrite bind_Ok. by eexists.
Qed.

Lemma read_calls_total (amounts : list Z) (z : ZLibFile) :
  (forall data d, is_Ok (decompress data d)) -> is_Ok (read_calls amounts z).
Proof.
  intros Hengine. revert z.
  induction amounts as [|n amounts IH]; intros z; [by eexists|].
  cbn [read_calls].
  destruct (read_total n z Hengine) as [[data z1] ->]. rewrite bind_Ok.
  destruct (IH z1) as [[rest z2] ->]. rewrite bind_Ok. by eexists.
Qed.
End ZLibRead.

Lemma read_calls_exhausted {D : Type} `{!InflateEngine D} (amounts : list Z)
    (z : ZLibFile) :
  exhausted z ->
  read_calls amounts z = Ok (replicate (length amounts) [], z).
Proof.
  intros Hz. induction amounts as [|n amounts IH]; [done|].
  cbn [read_calls length replicate].
  by rewrite read_exhausted, bind_Ok, IH, bind_Ok.
Qed.

(** A negative byte count: the loop is not entered, since no length is
    below it, and the two slices [[0:n]] and [[n:]] cut the buffer [-n]
    bytes before its end. *)
Lemma read_ZLibFile_negative {D : Type} `{!InflateEngine D} (n : Z)
    (z : ZLibFile) :
  n < 0 ->
  read n z
  = Ok (take (length (uncompressed z) - Z.to_nat (- n)) (uncompressed z),
        MkZLibFile (file z) (decompressor z)
          (drop (length (uncompressed z) - Z.to_nat (- n)) (uncompressed z))).
Proof.
  intros Hn. rewrite read_ZLibFile, fill_S.
  destruct (Z.ltb_spec (Z.of_nat (length (uncompressed z))) n); [lia|].
  rewrite bind_Ok. unfold slice_to, slice_from.
  by destruct (Z.leb_spec 0 n); [lia|].
Qed.

(** C7, as stated, fails for a negative byte count: after [read(3)] on a
    raw file that inflates to "hello" the buffer holds "lo"; [read(-1)]
    then returns the one byte "l", which is more than -1 bytes, keeps "o",
    and the adapter is not at its end. *)
Lemma zlib_negative_read_exceeds :
  let z0 := ZLibFile_open (D := unit) (Buffered (b_ "hello")) in
  let z1 := MkZLibFile (Buffered []) tt (b_ "lo") in
  let z2 := MkZLibFile (Buffered []) tt (b_ "o") in
  read 3 z0 = Ok (b_ "hel", z1) /\
  read (-1) z1 = Ok (b_ "l", z2) /\
  ~ (Z.of_nat (length (b_ "l")) <= -1) /\
  ~ exhausted z2.
Proof.
  split; [by_vm|]. split; [by_vm|]. split.
  - cbn. lia.
  - unfold exhausted. cbn. by intros [_ ?].
Qed.

(** C7, amended.  The zlib adapter, for calls [read(n)] with byte counts
    [n >= 0]: a call returns at most [n] bytes, and fewer than [n] only when
    the raw source is at its end (and then nothing is left in the buffer
    either).  For every integer [n]: once the adapter is at its end every
    call returns the empty slice; the slices of a sequence of calls, put
    together, are a prefix of the decompressed logical stream, in order; a
    call takes pieces of 8192 bytes from the raw file and feeds them to the
    inflate engine until the buffer holds at least [n] bytes or the raw file
    is at its end (none when the buffer already holds [n]), and what it does
    not return stays in the buffer for the next call; with an engine that
    accepts what it is fed every call returns.  For [n < 0] the bound on the
    length does not hold: the call takes nothing from the raw file and
    returns the buffer but for its last [-n] bytes, which stay in the
    buffer, so it returns more than [n] bytes. *)
Theorem zlib_read_contract {D : Type} `{!InflateEngine D} :
  (forall (n : Z) (z z' : ZLibFile) (data : bytes),
      0 <= n -> read n z = Ok (data, z') ->
      Z.of_nat (length data) <= n /\
      (Z.of_nat (length data) < n -> exhausted z')) /\
  (forall (amounts : list Z) (z : ZLibFile),
      exhausted z ->
      read_calls amounts z = Ok (replicate (length amounts) [], z)) /\
  (forall (amounts : list Z) (z z' : ZLibFile) (slices : list bytes),
      read_calls amounts z = Ok (slices, z') ->
      logical_stream z = concat slices ++ logical_stream z' /\
      (Forall (fun n => 0 <= n) amounts ->
       Forall2 (fun n data => Z.of_nat (length data) <= n) amounts slices)) /\
  (forall (n : Z) (z z' : ZLibFile) (data : bytes),
      read n z = Ok (data, z') ->
      (exists (pieces : nat) (out : bytes),
          feed pieces (br_rest (file z)) (decompressor z)
          = Ok (out, decompressor z') /\
          br_rest (file z')
          = drop (pieces * Z.to_nat 8192) (br_rest (file z)) /\
          data ++ uncompressed z' = uncompressed z ++ out /\
          (forall (j : nat) (out_j : bytes) (d_j : D),
              (j < pieces)%nat ->
              feed j (br_rest (file z)) (decompressor z) = Ok (out_j, d_j) ->
              Z.of_nat (length (uncompressed z ++ out_j)) < n /\
              drop (j * Z.to_nat 8192) (br_rest (file z)) <> [])) /\
      (n <= Z.of_nat (length (data ++ uncompressed z'))
       \/ br_rest (file z') = []) /\
      (n <= Z.of_nat (length (uncompressed z)) -> file z' = file z)) /\
  ((forall data d, is_Ok (decompress data d)) ->
   forall (amounts : list Z) (z : ZLibFile), is_Ok (read_calls amounts z)) /\
  (forall (n : Z) (z : ZLibFile),
      n < 0 ->
      read n z
      = Ok (take (length (uncompressed z) - Z.to_nat (- n)) (uncompressed z),
            MkZLibFile (file z) (decompressor z)
              (drop (length (uncompressed z) - Z.to_nat (- n))
                 (uncompressed z))) /\
      n < Z.of_nat (length (take (length (uncompressed z) - Z.to_nat (- n))
                              (uncompressed z)))).
Proof.
  split; [|split; [|split; [|split; [|split]]]].
  - intros n z z' data Hn H.
    apply read_ZLibFile_spec in H as (_ & _ & _ & _ & _ & H & _). by apply H.
  - intros amounts z Hz. by apply read_calls_exhausted.
  - intros amounts z z' slices H. by apply read_calls_spec.
  - intros n z z' data H.
    apply read_ZLibFile_spec in H as (_ & _ & _ & Hstop & Hsame & _ & Hfeeds).
    done.
  - intros Hengine amounts z. by apply read_calls_total.
  - intros n z Hn. split; [by apply read_ZLibFile_negative|lia].
Qed.

Lemma zlib_read_contract_witness :
  let z0 := ZLibFile_open (D := unit) (Buffered (b_ "hello")) in
  let z1 := MkZLibFile (Buffered []) tt (b_ "llo") in
  let z2 := MkZLibFile (Buffered []) tt [] in
  read 2 z0 = Ok (b_ "he", z1) /\
  read 10 z1 = Ok (b_ "llo", z2) /\
  (0 <= 10 /\ Z.of_nat (length (b_ "llo")) <= 10 /\ exhausted z2) /\
  read_calls [5; 7] z2 = Ok ([[]; []], z2) /\
  read_calls [2; 0; 10; 3] z0 = Ok ([b_ "he"; []; b_ "llo"; []], z2) /\
  logical_stream z0 = concat [b_ "he"; []; b_ "llo"; []] ++ logical_stream z2 /\
  Forall (fun n => 0 <= n) [2; 0; 10; 3] /\
  Forall2 (fun n data => Z.of_nat (length data) <= n)
          [2; 0; 10; 3] [b_ "he"; []; b_ "llo"; []] /\
  (forall data d, is_Ok (decompress (D := unit) data d)) /\
  is_Ok (read_calls [4; 4] z0) /\
  -2 < 0 /\
  read (-2) z1 = Ok (b_ "l", MkZLibFile (Buffered []) tt (b_ "lo")).
Proof.
  intros z0 z1 z2.
  destruct (zlib_read_contract (D := unit))
    as (Hcall & Hafter & Hseq & _ & Htotal & Hneg).
  assert (read 2 z0 = Ok (b_ "he", z1)) as H1 by by_vm.
  assert (read 10 z1 = Ok (b_ "llo", z2)) as H2 by by_vm.
  assert (read_calls [2; 0; 10; 3] z0 = Ok ([b_ "he"; []; b_ "llo"; []], z2))
    as H3 by by_vm.
  assert (Forall (fun n => 0 <= n) [2; 0; 10; 3]) as Hnn
    by (repeat constructor; lia).
  assert (forall data d, is_Ok (decompress (D := unit) data d)) as Hengine
    by (intros data d; by eexists).
  assert (-2 < 0) as Hminus by lia.
  split; [exact H1|]. split; [exact H2|].
  destruct (Hcall 10 z1 z2 (b_ "llo") ltac:(lia) H2) as [Hle Hshort].
  assert (exhausted z2) as Hz2 by (apply Hshort; cbn; lia).
  split; [split; [lia|split; [exact Hle|exact Hz2]]|].
  split; [exact (Hafter [5; 7] z2 Hz2)|].
  split; [exact H3|].
  destruct (Hseq _ _ _ _ H3) as [Hprefix Hlen].
  split; [exact Hprefix|]. split; [exact Hnn|]. split; [exact (Hlen Hnn)|].
  split; [exact Hengine|]. split; [exact (Htotal Hengine [4; 4] z0)|].
  split; [exact Hminus|]. exact (proj1 (Hneg (-2) z1 Hminus)).
Defined.

(** ** Enough turns for a buffered file *)

(** The loops of the model count their turns.  On a buffered file every
    turn takes at least one byte, so with more turns than the file has
    bytes the count plays no part in the outcome. *)
Section EnoughFuel.
Context {A : Type} (visit : bytes -> Z -> bytes -> A -> result A).

Lemma read_gamma_shrinks (s : bytes) (v n : Z) (fp' : BufferedReader) :
  read_gamma (Buffered s) = Ok ((v, n), fp') ->
  (length (br_rest fp') < length s)%nat.
Proof.
  destruct fp' as [s']. intros H.
  pose proof (read_gamma_range _ _ _ _ H) as [_ Hn].
  apply read_gamma_consumed in H as (enc & -> & Henc).
  cbn [br_rest]. rewrite length_app. lia.
Qed.

Lemma read_Buffered_length (n : Z) (s data : bytes) (fp' : BufferedReader) :
  read n (Buffered s) = Ok (data, fp') ->
  (length (br_rest fp') <= length s)%nat.
Proof.
  unfold read, BufferedReader_read. cbn [br_rest].
  destruct (0 <=? n).
  - intros H. simplify_eq. cbn [br_rest]. rewrite length_drop. lia.
  - destruct (n =? -1); [|done]. intros H. simplify_eq. cbn. lia.
Qed.

Lemma read_records_fuel (fuel1 fuel2 : nat) (tag : bytes) (type index : Z)
    (s : bytes) (analysis : A) :
  (length s < fuel1)%nat -> (length s < fuel2)%nat ->
  read_records visit fuel1 tag type index (Buffered s) analysis
  = read_records visit fuel2 tag type index (Buffered s) analysis.
Proof.
  revert fuel2 index s analysis.
  induction fuel1 as [|fuel1 IH]; intros fuel2 index s a H1 H2; [lia|].
  destruct fuel2 as [|fuel2]; [lia|].
  rewrite !read_records_S.
  destruct (read_gamma (Buffered s)) as [[[g n] fp1]|] eqn:E1; [|done].
  rewrite !bind_Ok. cbv zeta.
  apply read_gamma_shrinks in E1. destruct fp1 as [s1]. cbn [br_rest] in E1.
  destruct (g - 1 <? 0); [done|].
  destruct (type =? 2).
  - destruct (read_gamma (Buffered s1)) as [[[ix m] fp2]|] eqn:E2; [|done].
    rewrite !bind_Ok.
    apply read_gamma_shrinks in E2. destruct fp2 as [s2]. cbn [br_rest] in E2.
    destruct (read _ (Buffered s2)) as [[data fp3]|] eqn:E3; [|done].
    rewrite !bind_Ok.
    apply read_Buffered_length in E3. destruct fp3 as [s3]. cbn [br_rest] in E3.
    destruct (visit tag ix data a) as [a1|]; [|done].
    rewrite !bind_Ok. apply IH; lia.
  - rewrite !bind_Ok.
    destruct (read _ (Buffered s1)) as [[data fp3]|] eqn:E3; [|done].
    rewrite !bind_Ok.
    apply read_Buffered_length in E3. destruct fp3 as [s3]. cbn [br_rest] in E3.
    destruct (visit tag (index + 1) data a) as [a1|]; [|done].
    rewrite !bind_Ok. apply IH; lia.
Qed.

Lemma read_records_shrinks (fuel : nat) (tag : bytes) (type index : Z)
    (s : bytes) (analysis analysis' : A) (fp' : BufferedReader) :
  read_records visit fuel tag type index (Buffered s) analysis
  = Ok (fp', analysis') ->
  (length (br_rest fp') < length s)%nat.
Proof.
  revert index s analysis.
  induction fuel as [|fuel IH]; intros index s a H; [done|].
  rewrite read_records_S in H.
  destruct (read_gamma (Buffered s)) as [[[g n] fp1]|] eqn:E1; [|done].
  rewrite bind_Ok in H. cbv zeta in H.
  apply read_gamma_shrinks in E1. destruct fp1 as [s1]. cbn [br_rest] in E1.
  destruct (g - 1 <? 0).
  { unfold mret, result_ret in H. by simplify_eq. }
  destruct (type =? 2).
  - destruct (read_gamma (Buffered s1)) as [[[ix m] fp2]|] eqn:E2; [|done].
    rewrite !bind_Ok in H.
    apply read_gamma_shrinks in E2. destruct fp2 as [s2]. cbn [br_rest] in E2.
    destruct (read _ (Buffered s2)) as [[data fp3]|] eqn:E3; [|done].
    rewrite bind_Ok in H.
    apply read_Buffered_length in E3. destruct fp3 as [s3]. cbn [br_rest] in E3.
    destruct (visit tag ix data a) as [a1|]; [|done].
    rewrite bind_Ok in H. apply IH in H. lia.
  - rewrite !bind_Ok in H.
    destruct (read _ (Buffered s1)) as [[data fp3]|] eqn:E3; [|done].
    rewrite bind_Ok in H.
    apply read_Buffered_length in E3. destruct fp3 as [s3]. cbn [br_rest] in E3.
    destruct (visit tag (index + 1) data a) as [a1|]; [|done].
    rewrite bind_Ok in H. apply IH in H. lia.
Qed.

Lemma read_uint24_shrinks (s : bytes) (v : Z) (fp' : BufferedReader) :
  read_uint24 (Buffered s) = Ok (v, fp') ->
  (length (br_rest fp') < length s)%nat.
Proof.
  destruct s as [|b2 [|b1 [|b0 s']]]; try done.
  rewrite read_uint24_cons. intros H. simplify_eq. cbn. lia.
Qed.

Lemma analyze_savegame_with_fuel (fuel1 fuel2 : nat) (s : bytes) (analysis : A) :
  (length s < fuel1)%nat -> (length s < fuel2)%nat ->
  analyze_savegame_with visit fuel1 (Buffered s) analysis
  = analyze_savegame_with visit fuel2 (Buffered s) analysis.
Proof.
  revert fuel2 s analysis.
  induction fuel1 as [|fuel1 IH]; intros fuel2 s a H1 H2; [lia|].
  destruct fuel2 as [|fuel2]; [lia|].
  rewrite !analyze_savegame_with_S.
  change 4 with (Z.of_nat 4). rewrite read_Buffered, !bind_Ok.
  destruct (_ || _); [done|].
  destruct (Nat.eqb_spec (length (take 4 s)) 4) as [Htag|]; [|done].
  cbn [negb].
  assert (length (drop 4 s) + 4 <= length s)%nat as Hd.
  { rewrite length_take in Htag. rewrite length_drop. lia. }
  destruct (drop 4 s) as [|ty s1]; [done|].
  rewrite read_uint8_cons, !bind_Ok. cbn [length] in Hd.
  destruct (Z.land (byte_val ty) 15 =? 0).
  - destruct (read_uint24 (Buffered s1)) as [[lo fp2]|] eqn:E2; [|done].
    rewrite !bind_Ok. cbv zeta.
    apply read_uint24_shrinks in E2. destruct fp2 as [s2]. cbn [br_rest] in E2.
    destruct (read _ (Buffered s2)) as [[data fp3]|] eqn:E3; [|done].
    rewrite !bind_Ok.
    apply read_Buffered_length in E3. destruct fp3 as [s3]. cbn [br_rest] in E3.
    destruct (visit (take 4 s) (-1) data a) as [a1|]; [|done].
    rewrite !bind_Ok. apply IH; lia.
  - destruct (_ || _); [|done].
    rewrite (read_records_fuel fuel1 fuel2) by lia.
    destruct (read_records visit fuel2 _ _ _ (Buffered s1) a)
      as [[fp3 a1]|] eqn:E3; [|done].
    rewrite !bind_Ok.
    apply read_records_shrinks in E3. destruct fp3 as [s3]. cbn [br_rest] in E3.
    apply IH; lia.
Qed.

(** One turn more than the file has bytes is as good as any larger number
    of turns. *)
Lemma analyze_savegame_with_enough (fuel : nat) (s : bytes) (analysis : A) :
  (length s < fuel)%nat ->
  analyze_savegame_with visit fuel (Buffered s) analysis
  = analyze_savegame_with visit (S (length s)) (Buffered s) analysis.
Proof. intros H. apply analyze_savegame_with_fuel; lia. Qed.
End EnoughFuel.

(** * Further properties of the program *)

(** ** Fixed-width reads *)

Lemma big_endian_1 (b0 : byte) : big_endian [b0] = byte_val b0.
Proof. reflexivity. Qed.

Lemma big_endian_2 (b1 b0 : byte) : big_endian [b1; b0] = be16 b1 b0.
Proof. rewrite be16_arith. unfold big_endian. cbn [fold_left]. lia. Qed.

Lemma big_endian_3 (b2 b1 b0 : byte) : big_endian [b2; b1; b0] = be24 b2 b1 b0.
Proof. rewrite be24_arith. unfold big_endian. cbn [fold_left]. lia. Qed.

Lemma big_endian_4 (b3 b2 b1 b0 : byte) :
  big_endian [b3; b2; b1; b0] = be32 b3 b2 b1 b0.
Proof. rewrite be32_arith. unfold big_endian. cbn [fold_left]. lia. Qed.

Lemma big_endian_range (data : bytes) :
  0 <= big_endian data < 256 ^ Z.of_nat (length data).
Proof.
  unfold big_endian.
  enough (forall acc n, 0 <= acc < 256 ^ Z.of_nat n ->
            0 <= fold_left (fun acc b => acc * 256 + byte_val b) data acc
            < 256 ^ Z.of_nat (n + length data)) as H.
  { apply (H 0 0%nat). cbn. lia. }
  induction data as [|b data IH]; intros acc n Hacc.
  - cbn [fold_left length]. by rewrite Nat.add_0_r.
  - cbn [fold_left length].
    replace (n + S (length data))%nat with (S n + length data)%nat by lia.
    apply IH. pose proof (byte_val_range b).
    rewrite Nat2Z.inj_succ, Z.pow_succ_r by lia. nia.
Qed.

(** X1.  On a buffered file [read_uint8], [read_uint16], [read_uint24] and
    [read_uint32] return the number the next 1, 2, 3, 4 bytes stand for, most
    significant byte first, and leave the file behind these bytes; the value
    is below 256 to the number of bytes.  With fewer bytes left than they
    need they raise struct.error. *)
Theorem fixed_width_reads (s : bytes) :
  ((1 <= length s)%nat ->
   read_uint8 (Buffered s) = Ok (big_endian (take 1 s), Buffered (drop 1 s))) /\
  ((2 <= length s)%nat ->
   read_uint16 (Buffered s) = Ok (big_endian (take 2 s), Buffered (drop 2 s))) /\
  ((3 <= length s)%nat ->
   read_uint24 (Buffered s) = Ok (big_endian (take 3 s), Buffered (drop 3 s))) /\
  ((4 <= length s)%nat ->
   read_uint32 (Buffered s) = Ok (big_endian (take 4 s), Buffered (drop 4 s))) /\
  (forall n : nat, 0 <= big_endian (take n s) < 256 ^ Z.of_nat n) /\
  ((length s < 1)%nat -> read_uint8 (Buffered s) = Raise StructError) /\
  ((length s < 2)%nat -> read_uint16 (Buffered s) = Raise StructError) /\
  ((length s < 3)%nat -> read_uint24 (Buffered s) = Raise StructError) /\
  ((length s < 4)%nat -> read_uint32 (Buffered s) = Raise StructError).
Proof.
  split; [|split; [|split; [|split; [|split; [|split; [|split; [|split]]]]]]].
  - destruct s as [|b0 s]; cbn [length]; [lia|]. intros _.
    by rewrite read_uint8_cons.
  - destruct s as [|b1 [|b0 s]]; cbn [length]; try lia. intros _.
    rewrite read_uint16_cons. cbn [take drop]. by rewrite big_endian_2.
  - destruct s as [|b2 [|b1 [|b0 s]]]; cbn [length]; try lia. intros _.
    rewrite read_uint24_cons. cbn [take drop]. by rewrite big_endian_3.
  - destruct s as [|b3 [|b2 [|b1 [|b0 s]]]]; cbn [length]; try lia. intros _.
    rewrite read_uint32_cons. cbn [take drop]. by rewrite big_endian_4.
  - intros n. pose proof (big_endian_range (take n s)) as H.
    rewrite length_take in H.
    assert (256 ^ Z.of_nat (n `min` length s) <= 256 ^ Z.of_nat n)
      by (apply Z.pow_le_mono_r; lia).
    lia.
  - destruct s; cbn [length]; [done|lia].
  - destruct s as [|b1 [|b0 s]]; cbn [length]; try done; lia.
  - destruct s as [|b2 [|b1 [|b0 s]]]; cbn [length]; try done; lia.
  - destruct s as [|b3 [|b2 [|b1 [|b0 s]]]]; cbn [length]; try done; lia.
Qed.

Lemma fixed_width_reads_witness :
  (3 <= length [x01; x02; x03; x04])%nat /\
  read_uint24 (Buffered [x01; x02; x03; x04]) = Ok (66051, Buffered [x04]) /\
  (length [x01; x02] < 3)%nat /\
  read_uint24 (Buffered [x01; x02]) = Raise StructError /\
  (4 <= length [xff; xff; xff; xff])%nat /\
  read_uint32 (Buffered [xff; xff; xff; xff]) = Ok (2 ^ 32 - 1, Buffered []).
Proof.
  destruct (fixed_width_reads [x01; x02; x03; x04]) as (_ & _ & H24 & _).
  destruct (fixed_width_reads [x01; x02]) as (_ & _ & _ & _ & _ & _ & _ & Hcut & _).
  destruct (fixed_width_reads [xff; xff; xff; xff]) as (_ & _ & _ & H32 & _).
  split; [cbn; lia|]. split; [apply H24; cbn; lia|].
  split; [cbn; lia|]. split; [apply Hcut; cbn; lia|].
  split; [cbn; lia|]. apply H32; cbn; lia.
Defined.

(** ** The gamma decoder: bounds and short input *)

Section GammaBounds.
Context {F : Type} `{!ByteSource F}.

Lemma read_uint24_bound (fp fp' : F) (v : Z) :
  read_uint24 fp = Ok (v, fp') -> 0 <= v < 2 ^ 24.
Proof.
  unfold read_uint24. intros H.
  destruct (read_uint16 fp) as [[hi fp1]|] eqn:E1; [|done].
  rewrite bind_Ok in H.
  destruct (read_uint8 fp1) as [[lo fp2]|] eqn:E2; [|done].
  rewrite bind_Ok in H. unfold mret, result_ret in H. simplify_eq.
  apply read_uint16_range in E1. apply read_uint8_range in E2.
  rewrite lor_shiftl by lia. lia.
Qed.

Lemma gamma_value_bound (b m k lo bits : Z) :
  0 <= b -> 0 <= bits -> 0 <= k -> m = Z.ones bits -> 0 <= lo < 2 ^ k ->
  0 <= Z.lor (Z.shiftl (Z.land b m) k) lo < 2 ^ (bits + k).
Proof.
  intros Hb Hbits Hk -> Hlo.
  rewrite land_low, lor_shiftl by lia.
  pose proof (Z.mod_pos_bound b (2 ^ bits) ltac:(lia)) as Hm.
  rewrite Z.pow_add_r by lia. nia.
Qed.

(** The value [read_gamma] returns with [n] bytes taken has at most
    [7 * n] bits. *)
Lemma read_gamma_bound (fp fp' : F) (v n : Z) :
  read_gamma fp = Ok ((v, n), fp') -> 0 <= v < 2 ^ (7 * n).
Proof.
  unfold read_gamma. intros H.
  destruct (read_uint8 fp) as [[b fp1]|] eqn:E; [|done].
  rewrite bind_Ok in H. apply read_uint8_range in E.
  destruct (Z.land b 128 =? 0).
  { unfold mret, result_ret in H. simplify_eq.
    change 127 with (Z.ones 7). rewrite land_low by lia.
    apply Z.mod_pos_bound. lia. }
  destruct (Z.land b 192 =? 128).
  { destruct (read_uint8 fp1) as [[lo fp2]|] eqn:E2; [|done].
    rewrite bind_Ok in H. unfold mret, result_ret in H. simplify_eq.
    apply read_uint8_range in E2.
    apply (gamma_value_bound b 63 8 lo 6); (done || lia). }
  destruct (Z.land b 224 =? 192).
  { destruct (read_uint16 fp1) as [[lo fp2]|] eqn:E2; [|done].
    rewrite bind_Ok in H. unfold mret, result_ret in H. simplify_eq.
    apply read_uint16_range in E2.
    apply (gamma_value_bound b 31 16 lo 5); (done || lia). }
  destruct (Z.land b 240 =? 224).
  { destruct (read_uint24 fp1) as [[lo fp2]|] eqn:E2; [|done].
    rewrite bind_Ok in H. unfold mret, result_ret in H. simplify_eq.
    apply read_uint24_bound in E2.
    apply (gamma_value_bound b 15 24 lo 4); (done || lia). }
  destruct (Z.land b 248 =? 240); [|done].
  destruct (read_uint32 fp1) as [[lo fp2]|] eqn:E2; [|done].
  rewrite bind_Ok in H. unfold mret, result_ret in H. simplify_eq.
  apply read_uint32_range in E2.
  apply (gamma_value_bound b 7 32 lo 3); (done || lia).
Qed.
End GammaBounds.

(** X2.  Whatever the byte source, a value that [read_gamma] returns
    together with the byte count [n] is not negative and has at most [7 * n]
    bits, and [n] is between 1 and 5.  On a buffered file [n] is the number
    of bytes taken from the front of the file.  The decoder does not ask for
    the shortest form: a value that fits in fewer bytes is accepted in a
    longer form. *)
Theorem read_gamma_value_bound :
  (forall (F : Type) (R : ByteSource F) (fp fp' : F) (v n : Z),
      read_gamma fp = Ok ((v, n), fp') ->
      1 <= n <= 5 /\ 0 <= v < 2 ^ (7 * n)) /\
  (forall (s s' : bytes) (v n : Z),
      read_gamma (Buffered s) = Ok ((v, n), Buffered s') ->
      s' = drop (Z.to_nat n) s /\ (Z.to_nat n <= length s)%nat) /\
  (forall (c3 c2 c1 c0 : byte) (rest : bytes),
      read_gamma (Buffered (xf0 :: c3 :: c2 :: c1 :: c0 :: rest))
      = Ok ((be32 c3 c2 c1 c0, 5), Buffered rest)).
Proof.
  split; [|split].
  - intros F R fp fp' v n H. split.
    + by destruct (read_gamma_range _ _ _ _ H).
    + by apply read_gamma_bound in H.
  - intros s s' v n H.
    apply read_gamma_consumed in H as (enc & -> & <-).
    rewrite Nat2Z.id, drop_app_length, length_app. split; [done|lia].
  - intros c3 c2 c1 c0 rest.
    rewrite (gamma_row_5 xf0) by reflexivity.
    change (Z.shiftl (Z.land (byte_val xf0) 7) 32) with 0.
    by rewrite Z.lor_0_l.
Qed.

Lemma read_gamma_value_bound_witness :
  read_gamma (Buffered [x80; x05; x2a]) = Ok ((5, 2), Buffered [x2a]) /\
  (1 <= 2 <= 5 /\ 0 <= 5 < 2 ^ (7 * 2)) /\
  [x2a] = drop (Z.to_nat 2) [x80; x05; x2a] /\
  read_gamma (Buffered [x05; x2a]) = Ok ((5, 1), Buffered [x2a]).
Proof.
  destruct read_gamma_value_bound as (Hbound & Hfront & _).
  assert (read_gamma (Buffered [x80; x05; x2a]) = Ok ((5, 2), Buffered [x2a]))
    as H by reflexivity.
  split; [exact H|]. split; [exact (Hbound _ _ _ _ _ _ H)|].
  split; [exact (proj1 (Hfront _ _ _ _ H))|]. reflexivity.
Defined.

(** X3.  On a buffered file [read_gamma] raises struct.error when the file
    is at its end, and when the first byte announces a form of 2, 3, 4 or 5
    bytes and fewer bytes follow it than the form needs. *)
Theorem read_gamma_truncated :
  read_gamma (Buffered []) = Raise StructError /\
  (forall (b : byte) (rest : bytes),
      Z.shiftr (byte_val b) 6 = 2 -> (length rest < 1)%nat ->
      read_gamma (Buffered (b :: rest)) = Raise StructError) /\
  (forall (b : byte) (rest : bytes),
      Z.shiftr (byte_val b) 5 = 6 -> (length rest < 2)%nat ->
      read_gamma (Buffered (b :: rest)) = Raise StructError) /\
  (forall (b : byte) (rest : bytes),
      Z.shiftr (byte_val b) 4 = 14 -> (length rest < 3)%nat ->
      read_gamma (Buffered (b :: rest)) = Raise StructError) /\
  (forall (b : byte) (rest : bytes),
      Z.shiftr (byte_val b) 3 = 30 -> (length rest < 4)%nat ->
      read_gamma (Buffered (b :: rest)) = Raise StructError).
Proof.
  split; [reflexivity|]. split; [|split; [|split]].
  - intros b rest Hb Hlen. rewrite read_gamma_cons. cbv zeta.
    destruct (prefix_10 b Hb) as (-> & ->).
    destruct rest; cbn [length] in Hlen; [done|lia].
  - intros b rest Hb Hlen. rewrite read_gamma_cons. cbv zeta.
    destruct (prefix_110 b Hb) as (-> & -> & ->).
    destruct rest as [|c1 [|c0 rest]]; cbn [length] in Hlen; try done; lia.
  - intros b rest Hb Hlen. rewrite read_gamma_cons. cbv zeta.
    destruct (prefix_1110 b Hb) as (-> & -> & -> & ->).
    destruct rest as [|c2 [|c1 [|c0 rest]]]; cbn [length] in Hlen;
      try done; lia.
  - intros b rest Hb Hlen. rewrite read_gamma_cons. cbv zeta.
    destruct (prefix_11110 b Hb) as (-> & -> & -> & -> & ->).
    destruct rest as [|c3 [|c2 [|c1 [|c0 rest]]]]; cbn [length] in Hlen;
      try done; lia.
Qed.

Lemma read_gamma_truncated_witness :
  Z.shiftr (byte_val xe1) 4 = 14 /\ (length [x00; x00] < 3)%nat /\
  read_gamma (Buffered [xe1; x00; x00]) = Raise StructError.
Proof.
  destruct read_gamma_truncated as (_ & _ & _ & H4 & _).
  split; [reflexivity|]. split; [cbn; lia|].
  apply H4; [reflexivity|cbn; lia].
Defined.

(** ** Text in a payload *)

(** An in-memory file and a buffered file answer [read_gamma] alike. *)
Lemma read_gamma_InMemory (s : bytes) :
  read_gamma (InMemory s)
  = '(x, f) ← read_gamma (Buffered s); Ok (x, InMemory (br_rest f)).
Proof.
  destruct s as [|b s]; [done|].
  rewrite read_gamma_cons.
  change (read_gamma (InMemory (b :: s)))
    with (let v := byte_val b in
          if Z.land v 0x80 =? 0 then Ok ((Z.land v 0x7F, 1), InMemory s)
          else if Z.land v 0xC0 =? 0x80 then
            '(lo, fp) ← read_uint8 (InMemory s);
            mret ((Z.lor (Z.shiftl (Z.land v 0x3F) 8) lo, 2), fp)
          else if Z.land v 0xE0 =? 0xC0 then
            '(lo, fp) ← read_uint16 (InMemory s);
            mret ((Z.lor (Z.shiftl (Z.land v 0x1F) 16) lo, 3), fp)
          else if Z.land v 0xF0 =? 0xE0 then
            '(lo, fp) ← read_uint24 (InMemory s);
            mret ((Z.lor (Z.shiftl (Z.land v 0x0F) 24) lo, 4), fp)
          else if Z.land v 0xF8 =? 0xF0 then
            '(lo, fp) ← read_uint32 (InMemory s);
            mret ((Z.lor (Z.shiftl (Z.land v 0x07) 32) lo, 5), fp)
          else Raise InvalidGammaEncoding).
  cbv zeta.
  destruct (_ =? _); [done|].
  destruct (_ =? _); [by destruct s|].
  destruct (_ =? _); [by destruct s as [|c1 [|c0 s]]|].
  destruct (_ =? _); [by destruct s as [|c2 [|c1 [|c0 s]]]|].
  destruct (_ =? _); [|done].
  by destruct s as [|c3 [|c2 [|c1 [|c0 s]]]].
Qed.

Lemma read_InMemory (n : Z) (s : bytes) :
  0 <= n ->
  read n (InMemory s)
  = Ok (take (Z.to_nat n) s, InMemory (drop (Z.to_nat n) s)).
Proof.
  intros H. unfold read, BytesIO_read. cbn [bio_rest].
  by destruct (Z.leb_spec 0 n); [|lia].
Qed.

(** [read_str] on a payload whose length gamma has been told apart. *)
Lemma read_str_InMemory (g body : bytes) (n m : Z) :
  read_gamma (Buffered (g ++ body)) = Ok ((n, m), Buffered body) ->
  read_str (InMemory (g ++ body))
  = s ← decode (take (Z.to_nat n) body);
    Ok (s, InMemory (drop (Z.to_nat n) body)).
Proof.
  intros H. unfold read_str.
  rewrite read_gamma_InMemory, H, !bind_Ok. cbn [br_rest].
  apply read_gamma_range in H as [Hn _].
  rewrite read_InMemory, bind_Ok by done.
  by destruct (decode _).
Qed.

Lemma decode_ascii (data : bytes) :
  Forall (fun b => byte_val b < 0x80) data ->
  decode data = Ok (map byte_val data).
Proof.
  induction 1 as [|b data Hb _ IH]; [done|].
  cbn [decode map]. destruct (Z.ltb_spec (byte_val b) 128); [|lia].
  by rewrite IH.
Qed.

Lemma decode_nil_iff (data : bytes) (s : pystr) :
  decode data = Ok s -> s = [] <-> data = [].
Proof.
  intros H. split; [|intros ->; cbn in H; by simplify_eq].
  intros ->. destruct data as [|b0 t0]; [done|]. exfalso.
  cbn [decode] in H.
  repeat (case_match; try done);
    repeat match goal with
           | H : _ ≫= _ = Ok _ |- _ =>
             apply bind_Ok_inv in H as (? & ? & ?)
           end;
    unfold mret, result_ret in *; simplify_eq.
Qed.

Lemma decode_invalid_lead (b : byte) (rest : bytes) :
  0x80 <= byte_val b < 0xC2 \/ 0xF4 < byte_val b ->
  decode (b :: rest) = Raise UnicodeDecodeError.
Proof.
  intros H. cbn [decode]. cbv zeta.
  destruct (Z.ltb_spec (byte_val b) 128); [lia|].
  assert ((194 <=? byte_val b) && (byte_val b <=? 223) = false) as E2
    by (apply andb_false_iff; destruct H;
        [left; apply Z.leb_gt|right; apply Z.leb_gt]; lia).
  assert ((224 <=? byte_val b) && (byte_val b <=? 239) = false) as E3
    by (apply andb_false_iff; destruct H;
        [left; apply Z.leb_gt|right; apply Z.leb_gt]; lia).
  assert ((240 <=? byte_val b) && (byte_val b <=? 244) = false) as E4
    by (apply andb_false_iff; destruct H;
        [left; apply Z.leb_gt|right; apply Z.leb_gt]; lia).
  destruct rest as [|b1 rest]; [done|]. rewrite E2.
  destruct rest as [|b2 rest]; [done|]. rewrite E3.
  destruct rest as [|b3 rest]; [done|]. by rewrite E4.
Qed.

(** X4.  [read_str] on an in-memory payload reads a length gamma and
    decodes the bytes that follow it, as many as the gamma says or as many
    as there are when there are fewer (the shortage is not an error).  Bytes
    below 0x80 decode to themselves; the text is empty exactly when no byte
    is decoded; a first byte that no UTF-8 sequence starts with (0x80-0xC1,
    0xF5-0xFF) raises UnicodeDecodeError; an empty payload raises
    struct.error. *)
Theorem read_str_text :
  (forall (g body : bytes) (n m : Z),
      read_gamma (Buffered (g ++ body)) = Ok ((n, m), Buffered body) ->
      read_str (InMemory (g ++ body))
      = s ← decode (take (Z.to_nat n) body);
        Ok (s, InMemory (drop (Z.to_nat n) body))) /\
  (forall text rest : bytes,
      Z.of_nat (length text) < 2 ^ 35 ->
      Forall (fun b => byte_val b < 0x80) text ->
      read_str (InMemory (spec_write_gamma (Z.of_nat (length text))
                          ++ text ++ rest))
      = Ok (map byte_val text, InMemory rest)) /\
  (forall (data : bytes) (s : pystr),
      decode data = Ok s -> s = [] <-> data = []) /\
  (forall (b : byte) (rest : bytes),
      0x80 <= byte_val b < 0xC2 \/ 0xF4 < byte_val b ->
      decode (b :: rest) = Raise UnicodeDecodeError) /\
  read_str (InMemory []) = Raise StructError.
Proof.
  split; [exact read_str_InMemory|]. split; [|split; [|split]].
  - intros text rest Hlen Hascii.
    assert (0 <= Z.of_nat (length text) < 2 ^ 35) as Hrange by lia.
    rewrite (read_str_InMemory _ _ _ _
               (read_spec_write_gamma _ (text ++ rest) Hrange)).
    rewrite Nat2Z.id, take_app_length, drop_app_length.
    by rewrite decode_ascii.
  - exact decode_nil_iff.
  - exact decode_invalid_lead.
  - reflexivity.
Qed.

Lemma read_str_text_witness :
  read_gamma (Buffered ([x05] ++ b_ "AI")) = Ok ((5, 1), Buffered (b_ "AI")) /\
  read_str (InMemory ([x05] ++ b_ "AI")) = Ok ([65; 73], InMemory []) /\
  Z.of_nat (length (b_ "Idle")) < 2 ^ 35 /\
  Forall (fun b => byte_val b < 0x80) (b_ "Idle") /\
  read_str (InMemory (x04 :: b_ "Idle" ++ [x2a]))
  = Ok ([73; 100; 108; 101], InMemory [x2a]) /\
  decode [xc3; xa9] = Ok [233] /\
  (0x80 <= byte_val xc0 < 0xC2 \/ 0xF4 < byte_val xc0) /\
  decode [xc0; x80] = Raise UnicodeDecodeError.
Proof.
  destruct read_str_text as (Hstr & Hascii & Hnil & Hlead & _).
  assert (Forall (fun b => byte_val b < 0x80) (b_ "Idle")) as Hall
    by (repeat constructor).
  split; [reflexivity|].
  split; [exact (Hstr [x05] (b_ "AI") 5 1 eq_refl)|].
  split; [cbn; lia|]. split; [exact Hall|].
  split; [exact (Hascii (b_ "Idle") [x2a] ltac:(cbn; lia) Hall)|].
  split; [reflexivity|].
  assert (0x80 <= byte_val xc0 < 0xC2 \/ 0xF4 < byte_val xc0) as Hc0
    by (left; vm_compute; intuition congruence).
  split; [exact Hc0|]. exact (Hlead xc0 [x80] Hc0).
Defined.

(** ** The handlers of the field extractor *)

Lemma read_uint32_InMemory (s : bytes) :
  ((4 <= length s)%nat ->
   read_uint32 (InMemory s) = Ok (big_endian (take 4 s), InMemory (drop 4 s))) /\
  ((length s < 4)%nat -> read_uint32 (InMemory s) = Raise StructError).
Proof.
  destruct s as [|b3 [|b2 [|b1 [|b0 s]]]]; cbn [length];
    (split; intros H; [try lia|try done; try lia]).
  cbn [take drop]. rewrite big_endian_4. reflexivity.
Qed.

(** X5.  The MAPS handler: a payload of at least 8 bytes sets map-size to
    the text "WxH", where W and H are the numbers the first and the second
    four bytes stand for (most significant byte first), and whatever follows
    the 8 bytes is ignored; a shorter payload raises struct.error; and a
    second MAPS chunk replaces what the first one wrote. *)
Theorem map_size_handler (index : Z) (analysis : summary) :
  (forall data : bytes,
      (8 <= length data)%nat ->
      analyze_chunk (b_ "MAPS") index data analysis
      = Ok (<["map-size" := VStr (format_dxd (big_endian (take 4 data))
                                    (big_endian (take 4 (drop 4 data))))]>
              analysis)) /\
  (forall data : bytes,
      (length data < 8)%nat ->
      analyze_chunk (b_ "MAPS") index data analysis = Raise StructError) /\
  (forall (data data' : bytes) (index' : Z) (a1 a2 : summary),
      analyze_chunk (b_ "MAPS") index data analysis = Ok a1 ->
      analyze_chunk (b_ "MAPS") index' data' a1 = Ok a2 ->
      analyze_chunk (b_ "MAPS") index' data' analysis = Ok a2).
Proof.
  assert (forall data idx a, (8 <= length data)%nat ->
            analyze_chunk (b_ "MAPS") idx data a
            = Ok (<["map-size" := VStr (format_dxd (big_endian (take 4 data))
                                    (big_endian (take 4 (drop 4 data))))]> a))
    as Hlong.
  { intros data idx a Hlen. rewrite analyze_chunk_MAPS.
    rewrite (proj1 (read_uint32_InMemory data)) by lia. rewrite bind_Ok.
    rewrite (proj1 (read_uint32_InMemory (drop 4 data)))
      by (rewrite length_drop; lia).
    by rewrite bind_Ok. }
  assert (forall data idx a, (length data < 8)%nat ->
            analyze_chunk (b_ "MAPS") idx data a = Raise StructError)
    as Hshort.
  { intros data idx a Hlen. rewrite analyze_chunk_MAPS.
    destruct (Nat.lt_ge_cases (length data) 4) as [H4|H4].
    - by rewrite (proj2 (read_uint32_InMemory data)).
    - rewrite (proj1 (read_uint32_InMemory data)) by lia. rewrite bind_Ok.
      rewrite (proj2 (read_uint32_InMemory (drop 4 data)))
        by (rewrite length_drop; lia).
      done. }
  split; [by auto|]. split; [by auto|].
  intros data data' index' a1 a2 H1 H2.
  destruct (Nat.lt_ge_cases (length data) 8) as [Hd|Hd];
    [by rewrite Hshort in H1|].
  destruct (Nat.lt_ge_cases (length data') 8) as [Hd'|Hd'];
    [by rewrite Hshort in H2|].
  rewrite Hlong in H1, H2 |- * by done. simplify_eq.
  by rewrite insert_insert_eq.
Qed.

Lemma map_size_handler_witness :
  (8 <= length [x00; x00; x00; x04; x00; x00; x01; x00; xff])%nat /\
  analyze_chunk (b_ "MAPS") (-1)
    [x00; x00; x00; x04; x00; x00; x01; x00; xff] ∅
  = Ok (<["map-size" := VStr "4x256"]> ∅) /\
  (length [x00; x00; x00; x04; x00; x00; x01] < 8)%nat /\
  analyze_chunk (b_ "MAPS") (-1) [x00; x00; x00; x04; x00; x00; x01] ∅
  = Raise StructError.
Proof.
  destruct (map_size_handler (-1) ∅) as (Hlong & Hshort & _).
  split; [cbn; lia|].
  split; [exact (Hlong [x00; x00; x00; x04; x00; x00; x01; x00; xff]
                   ltac:(cbn; lia))|].
  split; [cbn; lia|].
  exact (Hshort [x00; x00; x00; x04; x00; x00; x01] ltac:(cbn; lia)).
Defined.

(** X6.  The AIPL and GSDT handlers read the name at the head of the
    payload with [read_str].  In a summary without the keys "ai" and "gs"
    (none has them) a name that is not empty sets ai-count, respectively
    gs-count, to 1, and an empty name leaves the summary as it is; a payload
    with no byte raises struct.error, and a name that is not UTF-8 raises
    UnicodeDecodeError. *)
Theorem script_name_handlers (index : Z) (analysis : summary) :
  (forall (g body : bytes) (n m : Z) (name : pystr),
      read_gamma (Buffered (g ++ body)) = Ok ((n, m), Buffered body) ->
      decode (take (Z.to_nat n) body) = Ok name ->
      analysis !! "ai" = None -> analysis !! "gs" = None ->
      analyze_chunk (b_ "AIPL") index (g ++ body) analysis
      = Ok (match name with
            | [] => analysis
            | _ :: _ => <["ai-count" := VInt 1]> analysis
            end) /\
      analyze_chunk (b_ "GSDT") index (g ++ body) analysis
      = Ok (match name with
            | [] => analysis
            | _ :: _ => <["gs-count" := VInt 1]> analysis
            end)) /\
  (forall (g body : bytes) (n m : Z) (e : exn),
      read_gamma (Buffered (g ++ body)) = Ok ((n, m), Buffered body) ->
      decode (take (Z.to_nat n) body) = Raise e ->
      analyze_chunk (b_ "AIPL") index (g ++ body) analysis = Raise e /\
      analyze_chunk (b_ "GSDT") index (g ++ body) analysis = Raise e) /\
  analyze_chunk (b_ "AIPL") index [] analysis = Raise StructError /\
  analyze_chunk (b_ "GSDT") index [] analysis = Raise StructError.
Proof.
  split; [|split; [|split]].
  - intros g body n m name Hg Hname Hai Hgs.
    rewrite analyze_chunk_AIPL, analyze_chunk_GSDT.
    rewrite (read_str_InMemory g body n m Hg), Hname, !bind_Ok.
    destruct name as [|c name]; [done|].
    by rewrite !count_without_guard.
  - intros g body n m e Hg Hname.
    rewrite analyze_chunk_AIPL, analyze_chunk_GSDT.
    by rewrite (read_str_InMemory g body n m Hg), Hname.
  - by rewrite analyze_chunk_AIPL.
  - by rewrite analyze_chunk_GSDT.
Qed.

Lemma script_name_handlers_witness :
  read_gamma (Buffered ([x02] ++ b_ "AI")) = Ok ((2, 1), Buffered (b_ "AI")) /\
  decode (take (Z.to_nat 2) (b_ "AI")) = Ok [65; 73] /\
  analyze_chunk (b_ "AIPL") 0 ([x02] ++ b_ "AI") ∅
  = Ok (<["ai-count" := VInt 1]> ∅) /\
  read_gamma (Buffered ([x00] ++ b_ "AI")) = Ok ((0, 1), Buffered (b_ "AI")) /\
  analyze_chunk (b_ "GSDT") 0 ([x00] ++ b_ "AI") ∅ = Ok ∅ /\
  read_gamma (Buffered ([x01] ++ [xff])) = Ok ((1, 1), Buffered [xff]) /\
  decode (take (Z.to_nat 1) [xff]) = Raise UnicodeDecodeError /\
  analyze_chunk (b_ "AIPL") 0 ([x01] ++ [xff]) ∅ = Raise UnicodeDecodeError.
Proof.
  destruct (script_name_handlers 0 ∅) as (Hname & Hbad & _).
  split; [reflexivity|]. split; [reflexivity|].
  destruct (Hname [x02] (b_ "AI") 2 1 [65; 73] eq_refl eq_refl eq_refl eq_refl)
    as [Hai _].
  split; [exact Hai|]. split; [reflexivity|].
  destruct (Hname [x00] (b_ "AI") 0 1 [] eq_refl eq_refl eq_refl eq_refl)
    as [_ Hgs].
  split; [exact Hgs|]. split; [reflexivity|]. split; [reflexivity|].
  exact (proj1 (Hbad [x01] [xff] 1 1 UnicodeDecodeError eq_refl eq_refl)).
Defined.

(** ** The shape of a summary record *)

Lemma summary_shape_insert (a : summary) (key : string) (v : value) :
  summary_shape a -> entry_ok key v -> summary_shape (<[key := v]> a).
Proof.
  intros (Hall & Hf & Hv & Hc) Hkv. split; [|split; [|split]].
  - intros k v' Hk. destruct (decide (key = k)) as [->|Hne].
    + rewrite lookup_insert_eq in Hk. by simplify_eq.
    + rewrite lookup_insert_ne in Hk by done. by apply Hall.
  - apply lookup_insert_is_Some'. by right.
  - apply lookup_insert_is_Some'. by right.
  - apply lookup_insert_is_Some'. by right.
Qed.

Lemma summary_shape_no_guard (a : summary) :
  summary_shape a ->
  a !! "newgrf" = None /\ a !! "ai" = None /\ a !! "gs" = None.
Proof.
  intros (Hall & _).
  assert (forall k, (forall v, ~ entry_ok k v) -> a !! k = None) as H.
  { intros k Hk. destruct (a !! k) as [v|] eqn:E; [|done].
    by destruct (Hk v (Hall k v E)). }
  repeat split; apply H; intros v Hv; unfold entry_ok in Hv;
    repeat match goal with
           | H : _ \/ _ |- _ => destruct H
           | H : _ /\ _ |- _ => destruct H
           end; discriminate.
Qed.

Lemma count_entry_ok (key : string) :
  key = "newgrf-count" \/ key = "ai-count" \/ key = "gs-count" ->
  entry_ok key (VInt 1).
Proof. intros H. unfold entry_ok. by do 4 right. Qed.

(** The field extractor keeps the shape. *)
Lemma analyze_chunk_shape (tag : bytes) (index : Z) (data : bytes)
    (a a' : summary) :
  summary_shape a -> analyze_chunk tag index data a = Ok a' ->
  summary_shape a'.
Proof.
  intros Ha H.
  destruct (summary_shape_no_guard a Ha) as (Hn & Hai & Hgs).
  destruct (tag_cases tag) as [-> | [-> | [-> | [-> | Hother]]]].
  - rewrite analyze_chunk_MAPS in H.
    destruct (read_uint32 (InMemory data)) as [[w fp]|] eqn:Ew; [|done].
    rewrite bind_Ok in H.
    destruct (read_uint32 fp) as [[h fp']|] eqn:Eh; [|done].
    rewrite bind_Ok in H. simplify_eq.
    apply read_uint32_range in Ew, Eh.
    apply summary_shape_insert; [done|].
    unfold entry_ok. do 3 right. left. split; [done|]. by exists w, h.
  - rewrite analyze_chunk_NGRF, count_without_guard in H by done.
    simplify_eq. apply summary_shape_insert; [done|].
    apply count_entry_ok; auto.
  - rewrite analyze_chunk_AIPL in H.
    destruct (read_str (InMemory data)) as [[name fp]|]; [|done].
    rewrite bind_Ok in H. destruct name as [|c name]; [by simplify_eq|].
    rewrite count_without_guard in H by done. simplify_eq.
    apply summary_shape_insert; [done|]. apply count_entry_ok; auto.
  - rewrite analyze_chunk_GSDT in H.
    destruct (read_str (InMemory data)) as [[name fp]|]; [|done].
    rewrite bind_Ok in H. destruct name as [|c name]; [by simplify_eq|].
    rewrite count_without_guard in H by done. simplify_eq.
    apply summary_shape_insert; [done|]. apply count_entry_ok; auto.
  - rewrite analyze_chunk_other in H by done. by simplify_eq.
Qed.

(** ** Byte sources that pass reads through *)

(** A byte source [G] that holds a source [F] and passes every read to it
    (as the three cases of [savefile] do) is read like [F]: the decoder
    cannot tell them apart. *)
Section PassThrough.
Context {F G : Type} `{!ByteSource F} `{!ByteSource G} (wrap : F -> G).
Hypothesis read_wrap : forall (n : Z) (f : F),
    read n (wrap f) = '(data, f') ← read n f; Ok (data, wrap f').

Lemma wrap_read_uint8 (f : F) :
  read_uint8 (wrap f) = '(v, f') ← read_uint8 f; Ok (v, wrap f').
Proof.
  unfold read_uint8. rewrite read_wrap.
  destruct (read 1 f) as [[d f']|]; [|done]. rewrite !bind_Ok.
  by destruct (unpack_B d).
Qed.

Lemma wrap_read_uint16 (f : F) :
  read_uint16 (wrap f) = '(v, f') ← read_uint16 f; Ok (v, wrap f').
Proof.
  unfold read_uint16. rewrite read_wrap.
  destruct (read 2 f) as [[d f']|]; [|done]. rewrite !bind_Ok.
  by destruct (unpack_H d).
Qed.

Lemma wrap_read_uint32 (f : F) :
  read_uint32 (wrap f) = '(v, f') ← read_uint32 f; Ok (v, wrap f').
Proof.
  unfold read_uint32. rewrite read_wrap.
  destruct (read 4 f) as [[d f']|]; [|done]. rewrite !bind_Ok.
  by destruct (unpack_I d).
Qed.

Lemma wrap_read_uint24 (f : F) :
  read_uint24 (wrap f) = '(v, f') ← read_uint24 f; Ok (v, wrap f').
Proof.
  unfold read_uint24. rewrite wrap_read_uint16.
  destruct (read_uint16 f) as [[hi f1]|]; [|done]. rewrite !bind_Ok.
  rewrite wrap_read_uint8.
  by destruct (read_uint8 f1) as [[lo f2]|].
Qed.

Lemma wrap_read_gamma (f : F) :
  read_gamma (wrap f) = '(x, f') ← read_gamma f; Ok (x, wrap f').
Proof.
  unfold read_gamma. rewrite wrap_read_uint8.
  destruct (read_uint8 f) as [[b f1]|]; [|done]. rewrite !bind_Ok.
  destruct (_ =? _); [done|].
  destruct (_ =? _).
  { rewrite wrap_read_uint8. by destruct (read_uint8 f1) as [[lo f2]|]. }
  destruct (_ =? _).
  { rewrite wrap_read_uint16. by destruct (read_uint16 f1) as [[lo f2]|]. }
  destruct (_ =? _).
  { rewrite wrap_read_uint24. by destruct (read_uint24 f1) as [[lo f2]|]. }
  destruct (_ =? _); [|done].
  rewrite wrap_read_uint32. by destruct (read_uint32 f1) as [[lo f2]|].
Qed.

Context {A : Type} (visit : bytes -> Z -> bytes -> A -> result A).

Lemma wrap_read_records (fuel : nat) (tag : bytes) (type index : Z) (f : F)
    (analysis : A) :
  read_records visit fuel tag type index (wrap f) analysis
  = '(f', a) ← read_records visit fuel tag type index f analysis;
    Ok (wrap f', a).
Proof.
  revert index f analysis.
  induction fuel as [|fuel IH]; intros index f a; [done|].
  rewrite !read_records_S, wrap_read_gamma.
  destruct (read_gamma f) as [[[g n] f1]|]; [|done]. rewrite !bind_Ok.
  cbv zeta. destruct (_ <? _); [done|].
  destruct (type =? 2).
  - rewrite wrap_read_gamma.
    destruct (read_gamma f1) as [[[ix m] f2]|]; [|done]. rewrite !bind_Ok.
    rewrite read_wrap.
    destruct (read _ f2) as [[data f3]|]; [|done]. rewrite !bind_Ok.
    destruct (visit tag ix data a) as [a1|]; [|done]. rewrite !bind_Ok.
    apply IH.
  - rewrite !bind_Ok, read_wrap.
    destruct (read _ f1) as [[data f3]|]; [|done]. rewrite !bind_Ok.
    destruct (visit tag (index + 1) data a) as [a1|]; [|done].
    rewrite !bind_Ok. apply IH.
Qed.

Lemma wrap_analyze_savegame_with (fuel : nat) (f : F) (analysis : A) :
  analyze_savegame_with visit fuel (wrap f) analysis
  = analyze_savegame_with visit fuel f analysis.
Proof.
  revert f analysis.
  induction fuel as [|fuel IH]; intros f a; [done|].
  rewrite !analyze_savegame_with_S, read_wrap.
  destruct (read 4 f) as [[tag f1]|]; [|done]. rewrite !bind_Ok.
  destruct (_ || _); [done|]. destruct (negb _); [done|].
  rewrite wrap_read_uint8.
  destruct (read_uint8 f1) as [[ty f2]|]; [|done]. rewrite !bind_Ok.
  destruct (_ =? _).
  - rewrite wrap_read_uint24.
    destruct (read_uint24 f2) as [[lo f3]|]; [|done]. rewrite !bind_Ok.
    cbv zeta. rewrite read_wrap.
    destruct (read _ f3) as [[data f4]|]; [|done]. rewrite !bind_Ok.
    destruct (visit tag (-1) data a) as [a1|]; [|done]. rewrite !bind_Ok.
    apply IH.
  - destruct (_ || _); [|done].
    rewrite wrap_read_records.
    destruct (read_records visit fuel tag ty (-1) f2 a) as [[f3 a1]|]; [|done].
    rewrite !bind_Ok. apply IH.
Qed.
End PassThrough.

(** ** The header of a file *)

Section FileHeader.
Context {D : Type} `{!InflateEngine D}.
Context {L : Type} `{!ByteSource L} (lzma_open : BufferedReader -> L).

Lemma main_file_split (fuel : nat) (filename : string) (magic : bytes)
    (v1 v0 r1 r0 : byte) (body : bytes) :
  length magic = 4%nat ->
  main_file lzma_open fuel filename (magic ++ v1 :: v0 :: r1 :: r0 :: body)
  = match UNCOMPRESS lzma_open magic with
    | None => Raise UnknownCompression
    | Some decompressor_open =>
      analyze_savegame fuel (decompressor_open (Buffered body))
        (initial_analysis filename (big_endian [v1; v0]) magic)
    end.
Proof.
  intros Hlen. unfold main_file. cbv zeta.
  rewrite (read_tag magic _ Hlen), bind_Ok.
  rewrite !read_uint16_cons, !bind_Ok. by rewrite big_endian_2.
Qed.

Lemma main_file_short (fuel : nat) (filename : string) (contents : bytes) :
  (length contents < 8)%nat ->
  main_file lzma_open fuel filename contents = Raise StructError.
Proof.
  intros Hlen. unfold main_file. cbv zeta.
  change 4 with (Z.of_nat 4). rewrite read_Buffered, bind_Ok.
  pose proof (length_drop contents 4) as Hd.
  destruct (drop 4 contents) as [|a [|b [|c [|d rest]]]]; cbn [length] in Hd;
    try done.
  lia.
Qed.

Lemma analyze_savegame_OfPlainFile (fuel : nat) (f : BufferedReader)
    (analysis : summary) :
  analyze_savegame fuel (OfPlainFile (D := D) (L := L) f) analysis
  = analyze_savegame fuel f analysis.
Proof.
  unfold analyze_savegame.
  by apply (wrap_analyze_savegame_with OfPlainFile).
Qed.

Lemma analyze_savegame_OfZLibFile (fuel : nat) (z : ZLibFile)
    (analysis : summary) :
  analyze_savegame fuel (OfZLibFile (L := L) z) analysis
  = analyze_savegame fuel z analysis.
Proof.
  unfold analyze_savegame.
  by apply (wrap_analyze_savegame_with OfZLibFile).
Qed.

Lemma analyze_savegame_OfLzma (fuel : nat) (l : L) (analysis : summary) :
  analyze_savegame fuel (OfLzma (D := D) l) analysis
  = analyze_savegame fuel l analysis.
Proof.
  unfold analyze_savegame.
  by apply (wrap_analyze_savegame_with OfLzma).
Qed.

Lemma UNCOMPRESS_None (magic : bytes) :
  magic <> b_ "OTTN" -> magic <> b_ "OTTZ" -> magic <> b_ "OTTX" ->
  UNCOMPRESS lzma_open magic = None.
Proof.
  intros Hn Hz Hx. unfold UNCOMPRESS.
  apply bytes_eqb_neq in Hn as ->. apply bytes_eqb_neq in Hz as ->.
  by apply bytes_eqb_neq in Hx as ->.
Qed.

Lemma UNCOMPRESS_Some (magic : bytes) (decompressor_open : BufferedReader -> savefile) :
  UNCOMPRESS lzma_open magic = Some decompressor_open ->
  magic = b_ "OTTN" \/ magic = b_ "OTTZ" \/ magic = b_ "OTTX".
Proof.
  unfold UNCOMPRESS.
  destruct (bytes_eqb magic (b_ "OTTN")) eqn:En;
    [apply bytes_eqb_eq in En; auto|].
  destruct (bytes_eqb magic (b_ "OTTZ")) eqn:Ez;
    [apply bytes_eqb_eq in Ez; auto|].
  destruct (bytes_eqb magic (b_ "OTTX")) eqn:Ex;
    [apply bytes_eqb_eq in Ex; auto|done].
Qed.
End FileHeader.

(** X7.  How [main] starts on a file.  A file of fewer than 8 bytes raises
    struct.error, whatever its first bytes.  Otherwise the first four bytes
    choose the byte source: OTTN reads the rest of the file as it is, OTTZ
    reads it through the zlib adapter, OTTX through what [lzma.open]
    returns, and any other magic (OTTD among them) raises the
    unknown-compression error.  The summary starts with the version that
    bytes 4 and 5 stand for; bytes 6 and 7 have no effect. *)
Theorem main_file_header {D : Type} `{!InflateEngine D} {L : Type}
    `{!ByteSource L} (lzma_open : BufferedReader -> L) (fuel : nat)
    (filename : string) :
  (forall contents : bytes,
      (length contents < 8)%nat ->
      main_file lzma_open fuel filename contents = Raise StructError) /\
  (forall (v1 v0 r1 r0 : byte) (body : bytes),
      main_file lzma_open fuel filename
        (b_ "OTTN" ++ v1 :: v0 :: r1 :: r0 :: body)
      = analyze_savegame fuel (Buffered body)
          (initial_analysis filename (big_endian [v1; v0]) (b_ "OTTN"))) /\
  (forall (v1 v0 r1 r0 : byte) (body : bytes),
      main_file lzma_open fuel filename
        (b_ "OTTZ" ++ v1 :: v0 :: r1 :: r0 :: body)
      = analyze_savegame fuel (ZLibFile_open (Buffered body))
          (initial_analysis filename (big_endian [v1; v0]) (b_ "OTTZ"))) /\
  (forall (v1 v0 r1 r0 : byte) (body : bytes),
      main_file lzma_open fuel filename
        (b_ "OTTX" ++ v1 :: v0 :: r1 :: r0 :: body)
      = analyze_savegame fuel (lzma_open (Buffered body))
          (initial_analysis filename (big_endian [v1; v0]) (b_ "OTTX"))) /\
  (forall (magic : bytes) (v1 v0 r1 r0 : byte) (body : bytes),
      length magic = 4%nat ->
      magic <> b_ "OTTN" -> magic <> b_ "OTTZ" -> magic <> b_ "OTTX" ->
      main_file lzma_open fuel filename (magic ++ v1 :: v0 :: r1 :: r0 :: body)
      = Raise UnknownCompression).
Proof.
  split; [intros; by apply main_file_short|].
  split; [|split; [|split]].
  - intros. rewrite main_file_split by done.
    apply analyze_savegame_OfPlainFile.
  - intros. rewrite main_file_split by done.
    apply analyze_savegame_OfZLibFile.
  - intros. rewrite main_file_split by done.
    apply analyze_savegame_OfLzma.
  - intros magic v1 v0 r1 r0 body Hlen Hn Hz Hx.
    rewrite main_file_split by done. by rewrite UNCOMPRESS_None.
Qed.

Lemma main_file_header_witness :
  (length (b_ "OTTD" ++ [x00; x05; x00]) < 8)%nat /\
  main_file (D := unit) (fun f : BufferedReader => f) 1 "a.sav"
    (b_ "OTTD" ++ [x00; x05; x00]) = Raise StructError /\
  length (b_ "OTTD") = 4%nat /\
  b_ "OTTD" <> b_ "OTTN" /\ b_ "OTTD" <> b_ "OTTZ" /\ b_ "OTTD" <> b_ "OTTX" /\
  main_file (D := unit) (fun f : BufferedReader => f) 1 "a.sav"
    (b_ "OTTD" ++ x00 :: x05 :: x00 :: x00 :: [x2a])
  = Raise UnknownCompression.
Proof.
  destruct (main_file_header (D := unit) (fun f : BufferedReader => f) 1 "a.sav")
    as (Hshort & _ & _ & _ & Hother).
  split; [cbn; lia|]. split; [apply Hshort; cbn; lia|].
  split; [reflexivity|].
  assert (b_ "OTTD" <> b_ "OTTN") as Hn by discriminate.
  assert (b_ "OTTD" <> b_ "OTTZ") as Hz by discriminate.
  assert (b_ "OTTD" <> b_ "OTTX") as Hx by discriminate.
  repeat (split; [assumption|]).
  exact (Hother (b_ "OTTD") x00 x05 x00 x00 [x2a] eq_refl Hn Hz Hx).
Defined.

Lemma initial_analysis_shape (filename : string) (version : Z) (format : bytes) :
  0 <= version < 2 ^ 16 ->
  format = b_ "OTTN" \/ format = b_ "OTTZ" \/ format = b_ "OTTX" ->
  summary_shape (initial_analysis filename version format).
Proof.
  intros Hv Hf. unfold initial_analysis. split; [|split; [|split]].
  - intros key v H.
    apply lookup_insert_Some in H as [[<- <-]|[_ H]].
    { left. split; [done|]. by eexists. }
    apply lookup_insert_Some in H as [[<- <-]|[_ H]].
    { right. left. split; [done|]. by eexists. }
    apply lookup_insert_Some in H as [[<- <-]|[_ H]]; [|done].
    right. right. left. split; [done|].
    destruct Hf as [-> | [-> | ->]]; auto.
  - by simplify_map_eq.
  - by simplify_map_eq.
  - by simplify_map_eq.
Qed.

Lemma main_file_shape {D : Type} `{!InflateEngine D} {L : Type}
    `{!ByteSource L} (lzma_open : BufferedReader -> L) (fuel : nat)
    (filename : string) (contents : bytes) (a : summary) :
  main_file lzma_open fuel filename contents = Ok a -> summary_shape a.
Proof.
  intros H. unfold main_file in H. cbv zeta in H.
  change (read 4 (Buffered contents))
    with (Ok (take 4 contents, Buffered (drop 4 contents))) in H.
  rewrite bind_Ok in H.
  destruct (read_uint16 _) as [[v fp1]|] eqn:Ev; [|done].
  rewrite bind_Ok in H.
  destruct (read_uint16 fp1) as [[reserved fp2]|]; [|done].
  rewrite bind_Ok in H.
  destruct (UNCOMPRESS _ _) as [dopen|] eqn:Eu; [|done].
  apply read_uint16_range in Ev. apply UNCOMPRESS_Some in Eu.
  unfold analyze_savegame in H.
  apply (analyze_savegame_with_keeps analyze_chunk summary_shape) in H;
    [done| |by apply initial_analysis_shape].
  intros tag index data x x' Hx Hstep.
  by apply analyze_chunk_shape with tag index data x.
Qed.

(** X8.  The summary record of every file that is decoded to its end has a
    fixed shape: it holds filename (text), savegame-version (an integer
    below 65536) and compression (the bytes OTTN, OTTZ or OTTX); it may hold
    map-size (a text "WxH" with W and H below 2^32) and newgrf-count,
    ai-count and gs-count, each equal to 1; and it holds no other key. *)
Theorem main_file_summary_shape {D : Type} `{!InflateEngine D} {L : Type}
    `{!ByteSource L} (lzma_open : BufferedReader -> L) (fuel : nat)
    (filename : string) (contents : bytes) (a : summary) :
  main_file lzma_open fuel filename contents = Ok a ->
  summary_shape a /\
  a !! "filename" = Some (VStr (last_component EmptyString filename)) /\
  a !! "compression" = Some (VBytes (take 4 contents)) /\
  (forall key, is_Some (a !! key) ->
     key = "filename" \/ key = "savegame-version" \/ key = "compression" \/
     key = "map-size" \/ key = "newgrf-count" \/ key = "ai-count" \/
     key = "gs-count") /\
  (forall key, key = "newgrf-count" \/ key = "ai-count" \/ key = "gs-count" ->
     a !! key = None \/ a !! key = Some (VInt 1)).
Proof.
  intros H.
  destruct (main_file_keys lzma_open fuel filename contents a H)
    as (version & Hname & _ & Hformat).
  pose proof (main_file_shape _ _ _ _ _ H) as Hshape.
  split; [done|]. split; [done|]. split; [done|].
  destruct Hshape as (Hall & _). split.
  - intros key [v Hv]. apply Hall in Hv. unfold entry_ok in Hv.
    repeat match goal with
           | H : _ \/ _ |- _ => destruct H
           | H : _ /\ _ |- _ => destruct H
           end; subst; auto 10.
  - intros key Hkey. destruct (a !! key) as [v|] eqn:Ev; [|by left].
    right. apply Hall in Ev. unfold entry_ok in Ev.
    repeat match goal with
           | H : _ \/ _ |- _ => destruct H
           | H : _ /\ _ |- _ => destruct H
           | H : ex _ |- _ => destruct H
           end; subst; try discriminate; done.
Qed.

Lemma main_file_summary_shape_witness :
  let contents :=
    b_ "OTTN" ++ [x00; x05; x00; x00]
    ++ b_ "AIPL" ++ [x01; x04; x02; x41; x49; x03; x01; x42; x00]
    ++ b_ "GSDT" ++ [x00; x00; x00; x01; x00] in
  let a := <["ai-count" := VInt 1]>
             (initial_analysis "savegames/ai.sav" 5 (b_ "OTTN")) in
  main_file (D := unit) (fun f : BufferedReader => f) 4 "savegames/ai.sav"
    contents = Ok a /\
  summary_shape a /\ a !! "ai-count" = Some (VInt 1) /\ a !! "gs-count" = None.
Proof.
  intros contents a.
  assert (main_file (D := unit) (fun f : BufferedReader => f) 4
            "savegames/ai.sav" contents = Ok a) as H by by_vm.
  split; [exact H|].
  destruct (main_file_summary_shape _ _ _ _ _ H) as (Hshape & _).
  split; [exact Hshape|]. split; by_vm.
Defined.

(** ** The name of a file *)

Lemma string_app_cons (c : ascii) (s1 s2 : string) :
  String c s1 +:+ s2 = String c (s1 +:+ s2).
Proof. reflexivity. Qed.

Lemma string_app_assoc (s1 s2 s3 : string) :
  (s1 +:+ s2) +:+ s3 = s1 +:+ (s2 +:+ s3).
Proof.
  induction s1 as [|c s1 IH]; [done|]. rewrite !string_app_cons. by rewrite IH.
Qed.

Lemma string_app_nil_r (s : string) : s +:+ EmptyString = s.
Proof.
  induction s as [|c s IH]; [done|]. rewrite string_app_cons. by rewrite IH.
Qed.

Lemma has_slash_app (s1 s2 : string) :
  has_slash (s1 +:+ s2) = has_slash s1 || has_slash s2.
Proof.
  induction s1 as [|c s1 IH]; [done|].
  rewrite string_app_cons. cbn [has_slash]. by rewrite IH, orb_assoc.
Qed.

Lemma last_component_no_slash (acc s : string) :
  has_slash s = false -> last_component acc s = acc +:+ s.
Proof.
  revert acc. induction s as [|c s IH]; intros acc H.
  - by rewrite string_app_nil_r.
  - cbn [has_slash] in H. apply orb_false_iff in H as [Hc Hs].
    cbn [last_component]. rewrite Hc, IH by done.
    by rewrite string_app_assoc.
Qed.

Lemma last_component_after_slash (acc dir name : string) :
  last_component acc (dir +:+ String "/" name)
  = last_component EmptyString name.
Proof.
  revert acc. induction dir as [|c dir IH]; intros acc.
  - reflexivity.
  - rewrite string_app_cons. cbn [last_component].
    destruct (Ascii.eqb c "/"); apply IH.
Qed.

Lemma last_component_suffix (acc s : string) :
  exists pre, acc +:+ s = pre +:+ last_component acc s.
Proof.
  revert acc. induction s as [|c s IH]; intros acc.
  - exists EmptyString. by rewrite string_app_nil_r.
  - cbn [last_component]. destruct (Ascii.eqb c "/") eqn:Ec.
    + destruct (IH EmptyString) as [pre Hpre].
      change (EmptyString +:+ s) with s in Hpre.
      exists (acc +:+ String c pre).
      rewrite string_app_assoc, string_app_cons. by rewrite <- Hpre.
    + destruct (IH (acc +:+ String c EmptyString)) as [pre Hpre].
      exists pre. rewrite <- Hpre. by rewrite string_app_assoc.
Qed.

Lemma last_component_has_no_slash (acc s : string) :
  has_slash acc = false -> has_slash (last_component acc s) = false.
Proof.
  revert acc. induction s as [|c s IH]; intros acc Hacc; [done|].
  cbn [last_component]. destruct (Ascii.eqb c "/") eqn:Ec.
  - by apply IH.
  - apply IH. rewrite has_slash_app, Hacc. cbn [has_slash orb]. by rewrite Ec.
Qed.

(** X9.  The filename entry of a summary is what follows the last slash of
    the path: a path without a slash is kept whole; in "dir/name", with no
    slash in name, it is name, whatever dir is; it is always the end of the
    path and has no slash in it. *)
Theorem filename_entry (filename : string) (version : Z) (format : bytes) :
  (exists name,
      initial_analysis filename version format !! "filename" = Some (VStr name) /\
      has_slash name = false /\
      (exists pre, filename = pre +:+ name) /\
      (has_slash filename = false -> name = filename)) /\
  (forall dir name : string,
      filename = dir +:+ String "/" name -> has_slash name = false ->
      initial_analysis filename version format !! "filename"
      = Some (VStr name)).
Proof.
  destruct (initial_analysis_keys filename version format) as (Hname & _).
  split.
  - exists (last_component EmptyString filename). split; [done|].
    split; [by apply last_component_has_no_slash|].
    split; [apply (last_component_suffix EmptyString)|].
    intros H. by rewrite last_component_no_slash.
  - intros dir name -> Hslash. rewrite Hname.
    by rewrite last_component_after_slash, last_component_no_slash.
Qed.

Lemma filename_entry_witness :
  "savegames/old/a.sav" = "savegames/old" +:+ String "/" "a.sav" /\
  has_slash "a.sav" = false /\
  initial_analysis "savegames/old/a.sav" 5 (b_ "OTTN") !! "filename"
  = Some (VStr "a.sav") /\
  initial_analysis "savegames/" 5 (b_ "OTTN") !! "filename" = Some (VStr "").
Proof.
  destruct (filename_entry "savegames/old/a.sav" 5 (b_ "OTTN")) as [_ Hdir].
  split; [reflexivity|]. split; [reflexivity|].
  split; [exact (Hdir "savegames/old" "a.sav" eq_refl eq_refl)|].
  destruct (filename_entry "savegames/" 5 (b_ "OTTN")) as [_ Hend].
  exact (Hend "savegames" "" eq_refl eq_refl).
Defined.

(** ** Reading through the zlib adapter and reading the plain bytes *)

(** A source [G] that answers every read of a byte count as a source [F]
    does answers the primitive readers as [F] does. *)
Section SameReads.
Context {F G : Type} `{!ByteSource F} `{!ByteSource G} (R : F -> G -> Prop).
Hypothesis read_same : forall (n : Z) (f f' : F) (g : G) (data : bytes),
    0 <= n -> R f g -> read n f = Ok (data, f') ->
    exists g', read n g = Ok (data, g') /\ R f' g'.

Lemma same_read_uint8 (f f' : F) (g : G) (v : Z) :
  R f g -> read_uint8 f = Ok (v, f') ->
  exists g', read_uint8 g = Ok (v, g') /\ R f' g'.
Proof.
  unfold read_uint8. intros HR H.
  destruct (read 1 f) as [[d f1]|] eqn:E; [|done]. rewrite bind_Ok in H.
  destruct (read_same 1 f f1 g d ltac:(lia) HR E) as (g1 & -> & HR1).
  rewrite bind_Ok. destruct (unpack_B d) as [x|]; [|done].
  rewrite bind_Ok in H. unfold mret, result_ret in *. simplify_eq.
  by exists g1.
Qed.

Lemma same_read_uint16 (f f' : F) (g : G) (v : Z) :
  R f g -> read_uint16 f = Ok (v, f') ->
  exists g', read_uint16 g = Ok (v, g') /\ R f' g'.
Proof.
  unfold read_uint16. intros HR H.
  destruct (read 2 f) as [[d f1]|] eqn:E; [|done]. rewrite bind_Ok in H.
  destruct (read_same 2 f f1 g d ltac:(lia) HR E) as (g1 & -> & HR1).
  rewrite bind_Ok. destruct (unpack_H d) as [x|]; [|done].
  rewrite bind_Ok in H. unfold mret, result_ret in *. simplify_eq.
  by exists g1.
Qed.

Lemma same_read_uint32 (f f' : F) (g : G) (v : Z) :
  R f g -> read_uint32 f = Ok (v, f') ->
  exists g', read_uint32 g = Ok (v, g') /\ R f' g'.
Proof.
  unfold read_uint32. intros HR H.
  destruct (read 4 f) as [[d f1]|] eqn:E; [|done]. rewrite bind_Ok in H.
  destruct (read_same 4 f f1 g d ltac:(lia) HR E) as (g1 & -> & HR1).
  rewrite bind_Ok. destruct (unpack_I d) as [x|]; [|done].
  rewrite bind_Ok in H. unfold mret, result_ret in *. simplify_eq.
  by exists g1.
Qed.

Lemma same_read_uint24 (f f' : F) (g : G) (v : Z) :
  R f g -> read_uint24 f = Ok (v, f') ->
  exists g', read_uint24 g = Ok (v, g') /\ R f' g'.
Proof.
  unfold read_uint24. intros HR H.
  destruct (read_uint16 f) as [[hi f1]|] eqn:E1; [|done].
  rewrite bind_Ok in H.
  destruct (same_read_uint16 _ _ _ _ HR E1) as (g1 & -> & HR1).
  rewrite bind_Ok.
  destruct (read_uint8 f1) as [[lo f2]|] eqn:E2; [|done].
  rewrite bind_Ok in H.
  destruct (same_read_uint8 _ _ _ _ HR1 E2) as (g2 & -> & HR2).
  rewrite bind_Ok. unfold mret, result_ret in *. simplify_eq. by exists g2.
Qed.

Lemma same_read_gamma (f f' : F) (g : G) (x : Z * Z) :
  R f g -> read_gamma f = Ok (x, f') ->
  exists g', read_gamma g = Ok (x, g') /\ R f' g'.
Proof.
  unfold read_gamma. intros HR H.
  destruct (read_uint8 f) as [[b f1]|] eqn:E; [|done]. rewrite bind_Ok in H.
  destruct (same_read_uint8 _ _ _ _ HR E) as (g1 & -> & HR1).
  rewrite bind_Ok.
  destruct (_ =? _).
  { unfold mret, result_ret in *. simplify_eq. by exists g1. }
  destruct (_ =? _).
  { destruct (read_uint8 f1) as [[lo f2]|] eqn:E2; [|done].
    rewrite bind_Ok in H.
    destruct (same_read_uint8 _ _ _ _ HR1 E2) as (g2 & -> & HR2).
    rewrite bind_Ok. unfold mret, result_ret in *. simplify_eq.
    by exists g2. }
  destruct (_ =? _).
  { destruct (read_uint16 f1) as [[lo f2]|] eqn:E2; [|done].
    rewrite bind_Ok in H.
    destruct (same_read_uint16 _ _ _ _ HR1 E2) as (g2 & -> & HR2).
    rewrite bind_Ok. unfold mret, result_ret in *. simplify_eq.
    by exists g2. }
  destruct (_ =? _).
  { destruct (read_uint24 f1) as [[lo f2]|] eqn:E2; [|done].
    rewrite bind_Ok in H.
    destruct (same_read_uint24 _ _ _ _ HR1 E2) as (g2 & -> & HR2).
    rewrite bind_Ok. unfold mret, result_ret in *. simplify_eq.
    by exists g2. }
  destruct (_ =? _); [|done].
  destruct (read_uint32 f1) as [[lo f2]|] eqn:E2; [|done].
  rewrite bind_Ok in H.
  destruct (same_read_uint32 _ _ _ _ HR1 E2) as (g2 & -> & HR2).
  rewrite bind_Ok. unfold mret, result_ret in *. simplify_eq.
  by exists g2.
Qed.

Lemma same_read_seq (amounts : list Z) (f f' : F) (g : G)
    (slices : list bytes) :
  Forall (fun n => 0 <= n) amounts -> R f g ->
  read_seq amounts f = Ok (slices, f') ->
  exists g', read_seq amounts g = Ok (slices, g') /\ R f' g'.
Proof.
  intros Hall. revert f g slices.
  induction Hall as [|n amounts Hn _ IH]; intros f g slices HR H.
  { cbn in H. simplify_eq. by exists g. }
  cbn [read_seq] in H.
  destruct (read n f) as [[d f1]|] eqn:E; [|done]. rewrite bind_Ok in H.
  destruct (read_same n f f1 g d Hn HR E) as (g1 & Hg1 & HR1).
  destruct (read_seq amounts f1) as [[rest f2]|] eqn:E2; [|done].
  rewrite bind_Ok in H.
  unfold mret, result_ret in H. simplify_eq.
  destruct (IH _ _ _ HR1 E2) as (g2 & Hg2 & HR2).
  exists g2. split; [|done].
  cbn [read_seq]. by rewrite Hg1, bind_Ok, Hg2, bind_Ok.
Qed.
End SameReads.

Section ZLibAsPlain.
Context {D : Type} `{!InflateEngine D}.

Lemma logical_stream_exhausted (z : ZLibFile) :
  exhausted z -> logical_stream z = [].
Proof.
  destruct z as [[raw] d unc]. unfold exhausted, logical_stream.
  cbn [file br_rest uncompressed decompressor]. by intros [-> ->].
Qed.

(** A read through the adapter returns what the same read returns on a
    plain file that holds the logical stream. *)
Lemma read_ZLibFile_as_plain (n : Z) (z z' : ZLibFile) (data : bytes) :
  0 <= n -> read n z = Ok (data, z') ->
  read n (Buffered (logical_stream z))
  = Ok (data, Buffered (logical_stream z')).
Proof.
  intros Hn H.
  apply read_ZLibFile_spec in H as (-> & _ & _ & _ & _ & Hlen & _).
  destruct (Hlen Hn) as [Hle Hshort].
  destruct (Z.eq_dec (Z.of_nat (length data)) n) as [<-|Hne].
  - apply read_Buffered_app.
  - rewrite (logical_stream_exhausted z') by (apply Hshort; lia).
    rewrite app_nil_r. apply read_Buffered_short. lia.
Qed.
End ZLibAsPlain.

(** X10.  Reading through the zlib adapter is reading the decompressed
    bytes: a call [read(n)] with a byte count [n] that returns, and so any
    sequence of such calls and each primitive reader built on them, returns
    what it returns on a plain file that holds the logical stream of the
    adapter, and leaves the two in step. *)
Theorem zlib_reads_as_plain {D : Type} `{!InflateEngine D} (z z' : ZLibFile) :
  (forall (n : Z) (data : bytes),
      0 <= n -> read n z = Ok (data, z') ->
      read n (Buffered (logical_stream z))
      = Ok (data, Buffered (logical_stream z'))) /\
  (forall (amounts : list Z) (slices : list bytes),
      Forall (fun n => 0 <= n) amounts ->
      read_seq amounts z = Ok (slices, z') ->
      read_seq amounts (Buffered (logical_stream z))
      = Ok (slices, Buffered (logical_stream z'))) /\
  (forall v : Z,
      read_uint32 z = Ok (v, z') ->
      read_uint32 (Buffered (logical_stream z))
      = Ok (v, Buffered (logical_stream z'))) /\
  (forall v : Z,
      read_uint24 z = Ok (v, z') ->
      read_uint24 (Buffered (logical_stream z))
      = Ok (v, Buffered (logical_stream z'))) /\
  (forall x : Z * Z,
      read_gamma z = Ok (x, z') ->
      read_gamma (Buffered (logical_stream z))
      = Ok (x, Buffered (logical_stream z'))).
Proof.
  set (R := fun (a : ZLibFile) (g : BufferedReader) =>
              g = Buffered (logical_stream a)).
  assert (forall (n : Z) (f f' : ZLibFile) (g : BufferedReader) (data : bytes),
            0 <= n -> R f g -> read n f = Ok (data, f') ->
            exists g', read n g = Ok (data, g') /\ R f' g') as Hsame.
  { intros n f f' g data Hn -> H. eexists. split; [|reflexivity].
    by apply read_ZLibFile_as_plain. }
  split; [intros; by apply read_ZLibFile_as_plain|].
  split; [|split; [|split]].
  - intros amounts slices Hall H.
    destruct (same_read_seq R Hsame amounts z z' _ slices Hall eq_refl H)
      as (g' & Hg & ->). done.
  - intros v H.
    destruct (same_read_uint32 R Hsame z z' _ v eq_refl H) as (g' & Hg & ->).
    done.
  - intros v H.
    destruct (same_read_uint24 R Hsame z z' _ v eq_refl H) as (g' & Hg & ->).
    done.
  - intros x H.
    destruct (same_read_gamma R Hsame z z' _ x eq_refl H) as (g' & Hg & ->).
    done.
Qed.

Lemma zlib_reads_as_plain_witness :
  let z0 := ZLibFile_open (D := unit) (Buffered (b_ "hello")) in
  let z1 := MkZLibFile (Buffered []) tt (b_ "llo") in
  let z2 := MkZLibFile (Buffered []) tt [] in
  0 <= 2 /\ read 2 z0 = Ok (b_ "he", z1) /\
  read 2 (Buffered (b_ "hello")) = Ok (b_ "he", Buffered (b_ "llo")) /\
  Forall (fun n => 0 <= n) [2; 9] /\
  read_seq [2; 9] z0 = Ok ([b_ "he"; b_ "llo"], z2) /\
  read_seq [2; 9] (Buffered (b_ "hello"))
  = Ok ([b_ "he"; b_ "llo"], Buffered []).
Proof.
  intros z0 z1 z2.
  assert (read 2 z0 = Ok (b_ "he", z1)) as H1 by by_vm.
  assert (read_seq [2; 9] z0 = Ok ([b_ "he"; b_ "llo"], z2)) as H2 by by_vm.
  assert (Forall (fun n => 0 <= n) [2; 9]) as Hall
    by (repeat constructor; lia).
  split; [lia|]. split; [exact H1|].
  split; [exact (proj1 (zlib_reads_as_plain z0 z1) 2 (b_ "he") ltac:(lia) H1)|].
  split; [exact Hall|]. split; [exact H2|].
  destruct (zlib_reads_as_plain z0 z2) as (_ & Hseq & _).
  exact (Hseq [2; 9] [b_ "he"; b_ "llo"] Hall H2).
Defined.

(** ** The loops end on a plain file *)

Lemma bind_ends {A B : Type} (m : result A) (k : A -> result B) :
  m <> Raise OutOfFuel -> (forall a, k a <> Raise OutOfFuel) ->
  m ≫= k <> Raise OutOfFuel.
Proof.
  intros Hm Hk. destruct m as [a|e]; [apply Hk|].
  intros H. apply Hm. cbn in H. by simplify_eq.
Qed.

(** None of the readers runs a loop of its own: an answer [OutOfFuel] can
    only come from the byte source. *)
Section NoLoopInReaders.
Context {F : Type} `{!ByteSource F}.
Hypothesis read_ends : forall (n : Z) (fp : F), read n fp <> Raise OutOfFuel.

Lemma read_uint8_ends (fp : F) : read_uint8 fp <> Raise OutOfFuel.
Proof.
  unfold read_uint8. apply bind_ends; [apply read_ends|].
  intros [data fp1]. by destruct data as [|? [|? ?]].
Qed.

Lemma read_uint16_ends (fp : F) : read_uint16 fp <> Raise OutOfFuel.
Proof.
  unfold read_uint16. apply bind_ends; [apply read_ends|].
  intros [data fp1]. by destruct data as [|? [|? [|? ?]]].
Qed.

Lemma read_uint32_ends (fp : F) : read_uint32 fp <> Raise OutOfFuel.
Proof.
  unfold read_uint32. apply bind_ends; [apply read_ends|].
  intros [data fp1]. by destruct data as [|? [|? [|? [|? [|? ?]]]]].
Qed.

Lemma read_uint24_ends (fp : F) : read_uint24 fp <> Raise OutOfFuel.
Proof.
  unfold read_uint24. apply bind_ends; [apply read_uint16_ends|].
  intros [hi fp1]. apply bind_ends; [apply read_uint8_ends|]. by intros [lo fp2].
Qed.

Lemma read_gamma_ends (fp : F) : read_gamma fp <> Raise OutOfFuel.
Proof.
  unfold read_gamma. apply bind_ends; [apply read_uint8_ends|].
  intros [b fp1]. repeat case_match; try done.
  - apply bind_ends; [apply read_uint8_ends|]. by intros [lo fp2].
  - apply bind_ends; [apply read_uint16_ends|]. by intros [lo fp2].
  - apply bind_ends; [apply read_uint24_ends|]. by intros [lo fp2].
  - apply bind_ends; [apply read_uint32_ends|]. by intros [lo fp2].
Qed.
End NoLoopInReaders.

Lemma decode_raises (data : bytes) (e : exn) :
  decode data = Raise e -> e = UnicodeDecodeError.
Proof.
  remember (length data) as n eqn:Hn.
  assert (length data <= n)%nat as Hle by lia. clear Hn.
  revert data Hle. induction n as [|n IH]; intros data Hle.
  { destruct data; [done|cbn in Hle; lia]. }
  assert (forall (t : bytes) (c : Z),
            (length t <= n)%nat ->
            (s ← decode t; mret (c :: s)) = Raise e ->
            e = UnicodeDecodeError) as Hstep.
  { intros t c Ht H. specialize (IH t Ht).
    destruct (decode t) as [s|e']; [done|]. cbn in H. simplify_eq. by apply IH. }
  destruct data as [|b0 t0]; [done|]. cbn [decode length] in *.
  cbv zeta. destruct (byte_val b0 <? 128).
  { apply Hstep. lia. }
  destruct t0 as [|b1 t1]; [naive_solver|]. cbn [length] in Hle.
  destruct (_ && _).
  { destruct (is_cont _); [apply Hstep; lia|naive_solver]. }
  destruct t1 as [|b2 t2]; [naive_solver|]. cbn [length] in Hle.
  destruct (_ && _).
  { destruct (_ && _); [apply Hstep; lia|naive_solver]. }
  destruct t2 as [|b3 t3]; [naive_solver|]. cbn [length] in Hle.
  destruct (_ && _); [|naive_solver].
  destruct (_ && _); [apply Hstep; lia|naive_solver].
Qed.

Lemma read_InMemory_ends (n : Z) (fp : BytesIO) : read n fp <> Raise OutOfFuel.
Proof. unfold read, BytesIO_read. by destruct (0 <=? n). Qed.

Lemma read_Buffered_ends (n : Z) (fp : BufferedReader) :
  read n fp <> Raise OutOfFuel.
Proof. unfold read, BufferedReader_read. by repeat case_match. Qed.

Lemma read_str_InMemory_ends (fp : BytesIO) : read_str fp <> Raise OutOfFuel.
Proof.
  unfold read_str.
  apply bind_ends; [apply read_gamma_ends, read_InMemory_ends|].
  intros [[size m] fp1]. apply bind_ends; [apply read_InMemory_ends|].
  intros [data fp2]. apply bind_ends; [|done].
  intros E. by apply decode_raises in E.
Qed.

Lemma increment_ends (key : string) (analysis : summary) :
  increment key analysis <> Raise OutOfFuel.
Proof. unfold increment. by repeat case_match. Qed.

Lemma count_ends (guard key : string) (analysis : summary) :
  count guard key analysis <> Raise OutOfFuel.
Proof. unfold count. apply increment_ends. Qed.

Lemma analyze_chunk_ends (tag : bytes) (index : Z) (data : bytes)
    (analysis : summary) :
  analyze_chunk tag index data analysis <> Raise OutOfFuel.
Proof.
  unfold analyze_chunk. cbv zeta. apply bind_ends.
  { destruct (bytes_eqb tag (b_ "MAPS")); [|done].
    apply bind_ends; [apply read_uint32_ends, read_InMemory_ends|].
    intros [w fp1].
    apply bind_ends; [apply read_uint32_ends, read_InMemory_ends|].
    by intros [h fp2]. }
  intros [fp1 a1]. apply bind_ends.
  { destruct (bytes_eqb tag (b_ "NGRF")); [apply count_ends|done]. }
  intros a2. apply bind_ends.
  { destruct (bytes_eqb tag (b_ "AIPL")); [|done].
    apply bind_ends; [apply read_str_InMemory_ends|].
    intros [[|c name] fp2]; [done|].
    apply bind_ends; [apply count_ends|done]. }
  intros [fp3 a3].
  destruct (bytes_eqb tag (b_ "GSDT")); [|done].
  apply bind_ends; [apply read_str_InMemory_ends|].
  intros [[|c name] fp4]; [done|apply count_ends].
Qed.

(** With more turns than the file has bytes, the loops of the model come to
    an end by themselves. *)
Section LoopsEnd.
Context {A : Type} (visit : bytes -> Z -> bytes -> A -> result A).
Hypothesis visit_ends : forall tag index data analysis,
  visit tag index data analysis <> Raise OutOfFuel.

Lemma read_records_ends (fuel : nat) (tag : bytes) (type index : Z)
    (s : bytes) (analysis : A) :
  (length s < fuel)%nat ->
  read_records visit fuel tag type index (Buffered s) analysis
  <> Raise OutOfFuel.
Proof.
  revert index s analysis.
  induction fuel as [|fuel IH]; intros index s a Hlen; [lia|].
  rewrite read_records_S.
  pose proof (read_gamma_ends read_Buffered_ends (Buffered s)) as Hg.
  destruct (read_gamma (Buffered s)) as [[[g n] fp1]|] eqn:E1; [|naive_solver].
  rewrite bind_Ok. cbv zeta.
  apply read_gamma_shrinks in E1. destruct fp1 as [s1]. cbn [br_rest] in E1.
  destruct (g - 1 <? 0); [done|].
  destruct (type =? 2).
  - pose proof (read_gamma_ends read_Buffered_ends (Buffered s1)) as Hg2.
    destruct (read_gamma (Buffered s1)) as [[[ix m] fp2]|] eqn:E2;
      [|naive_solver].
    rewrite !bind_Ok.
    apply read_gamma_shrinks in E2. destruct fp2 as [s2]. cbn [br_rest] in E2.
    pose proof (read_Buffered_ends (g - 1 - m) (Buffered s2)) as Hr.
    destruct (read _ (Buffered s2)) as [[data fp3]|] eqn:E3; [|naive_solver].
    rewrite bind_Ok.
    apply read_Buffered_length in E3. destruct fp3 as [s3]. cbn [br_rest] in E3.
    pose proof (visit_ends tag ix data a) as Hv.
    destruct (visit tag ix data a) as [a1|]; [|naive_solver].
    rewrite bind_Ok. apply IH; lia.
  - rewrite !bind_Ok.
    pose proof (read_Buffered_ends (g - 1) (Buffered s1)) as Hr.
    destruct (read _ (Buffered s1)) as [[data fp3]|] eqn:E3; [|naive_solver].
    rewrite bind_Ok.
    apply read_Buffered_length in E3. destruct fp3 as [s3]. cbn [br_rest] in E3.
    pose proof (visit_ends tag (index + 1) data a) as Hv.
    destruct (visit tag (index + 1) data a) as [a1|]; [|naive_solver].
    rewrite bind_Ok. apply IH; lia.
Qed.

Lemma analyze_savegame_with_ends (fuel : nat) (s : bytes) (analysis : A) :
  (length s < fuel)%nat ->
  analyze_savegame_with visit fuel (Buffered s) analysis <> Raise OutOfFuel.
Proof.
  revert s analysis.
  induction fuel as [|fuel IH]; intros s a Hlen; [lia|].
  rewrite analyze_savegame_with_S.
  change 4 with (Z.of_nat 4). rewrite read_Buffered, !bind_Ok.
  destruct (_ || _); [done|].
  destruct (Nat.eqb_spec (length (take 4 s)) 4) as [Htag|]; [|done].
  cbn [negb].
  assert (length (drop 4 s) + 4 <= length s)%nat as Hd.
  { rewrite length_take in Htag. rewrite length_drop. lia. }
  destruct (drop 4 s) as [|ty s1]; [done|].
  rewrite read_uint8_cons, !bind_Ok. cbn [length] in Hd.
  destruct (Z.land (byte_val ty) 15 =? 0).
  - pose proof (read_uint24_ends read_Buffered_ends (Buffered s1)) as H24.
    destruct (read_uint24 (Buffered s1)) as [[lo fp2]|] eqn:E2; [|naive_solver].
    rewrite !bind_Ok. cbv zeta.
    apply read_uint24_shrinks in E2. destruct fp2 as [s2]. cbn [br_rest] in E2.
    match goal with
    | |- context [read ?n (Buffered s2)] =>
        pose proof (read_Buffered_ends n (Buffered s2)) as Hr
    end.
    destruct (read _ (Buffered s2)) as [[data fp3]|] eqn:E3; [|naive_solver].
    rewrite !bind_Ok.
    apply read_Buffered_length in E3. destruct fp3 as [s3]. cbn [br_rest] in E3.
    pose proof (visit_ends (take 4 s) (-1) data a) as Hv.
    destruct (visit (take 4 s) (-1) data a) as [a1|]; [|naive_solver].
    rewrite !bind_Ok. apply IH; lia.
  - destruct (_ || _); [|done].
    pose proof (read_records_ends fuel (take 4 s) (byte_val ty) (-1) s1 a
                  ltac:(lia)) as Hrec.
    destruct (read_records visit fuel _ _ _ (Buffered s1) a)
      as [[fp3 a1]|] eqn:E3; [|naive_solver].
    rewrite !bind_Ok.
    apply read_records_shrinks in E3. destruct fp3 as [s3]. cbn [br_rest] in E3.
    apply IH; lia.
Qed.
End LoopsEnd.

(** X11.  On a plain file the decoder comes to an end: every turn of the
    chunk loop and of the record loop takes at least one byte, so with an
    iteration bound above the length of the file the model never stops for
    want of turns, and its answer is the same for every such bound.  This
    holds for [analyze_savegame] and for [main] on an OTTN file. *)
Theorem plain_file_decoding_ends {D : Type} `{!InflateEngine D} {L : Type}
    `{!ByteSource L} (lzma_open : BufferedReader -> L) (fuel fuel' : nat)
    (s : bytes) (analysis : summary) :
  (length s < fuel)%nat -> (length s < fuel')%nat ->
  analyze_savegame fuel (Buffered s) analysis <> Raise OutOfFuel /\
  analyze_savegame fuel (Buffered s) analysis
  = analyze_savegame fuel' (Buffered s) analysis /\
  (forall (filename : string) (v1 v0 r1 r0 : byte),
      main_file lzma_open fuel filename
        (b_ "OTTN" ++ v1 :: v0 :: r1 :: r0 :: s) <> Raise OutOfFuel /\
      main_file lzma_open fuel filename
        (b_ "OTTN" ++ v1 :: v0 :: r1 :: r0 :: s)
      = main_file lzma_open fuel' filename
          (b_ "OTTN" ++ v1 :: v0 :: r1 :: r0 :: s)).
Proof.
  intros Hf Hf'.
  assert (forall a, analyze_savegame fuel (Buffered s) a <> Raise OutOfFuel)
    as Hends.
  { intros a. unfold analyze_savegame.
    apply analyze_savegame_with_ends; [apply analyze_chunk_ends|done]. }
  assert (forall a, analyze_savegame fuel (Buffered s) a
                    = analyze_savegame fuel' (Buffered s) a) as Hsame.
  { intros a. unfold analyze_savegame. by apply analyze_savegame_with_fuel. }
  split; [apply Hends|]. split; [apply Hsame|].
  intros filename v1 v0 r1 r0.
  assert (forall fuel0,
            main_file lzma_open fuel0 filename
              (b_ "OTTN" ++ v1 :: v0 :: r1 :: r0 :: s)
            = analyze_savegame fuel0 (Buffered s)
                (initial_analysis filename (big_endian [v1; v0]) (b_ "OTTN")))
    as Hmain.
  { intros fuel0. rewrite main_file_split by done.
    apply analyze_savegame_OfPlainFile. }
  rewrite !Hmain. split; [apply Hends|apply Hsame].
Qed.

Lemma plain_file_decoding_ends_witness :
  let s := b_ "MAPS" ++ [x00; x00; x00; x08;
                         x00; x00; x01; x00; x00; x00; x02; x00] in
  (length s < 17)%nat /\ (length s < 40)%nat /\
  analyze_savegame 17 (Buffered s) ∅ <> Raise OutOfFuel /\
  analyze_savegame 17 (Buffered s) ∅ = analyze_savegame 40 (Buffered s) ∅.
Proof.
  intros s.
  assert (length s < 17)%nat as H1 by (cbn; lia).
  assert (length s < 40)%nat as H2 by (cbn; lia).
  destruct (plain_file_decoding_ends (D := unit)
              (fun f : BufferedReader => f) 17 40 s ∅ H1 H2)
    as (Hends & Hsame & _).
  split; [exact H1|]. split; [exact H2|]. split; [exact Hends|exact Hsame].
Defined.

(** ** Reading back a written chunk stream *)

Lemma visit_all_app {A : Type} (visit : bytes -> Z -> bytes -> A -> result A)
    (xs ys : list item) (analysis : A) :
  visit_all visit (xs ++ ys) analysis
  = analysis ← visit_all visit xs analysis; visit_all visit ys analysis.
Proof.
  revert analysis. induction xs as [|[[tag index] data] xs IH]; intros a.
  { done. }
  cbn [app visit_all]. destruct (visit tag index data a) as [a1|]; [|done].
  rewrite !bind_Ok. apply IH.
Qed.

Lemma visit_all_emit (items acc : list item) :
  visit_all emit items acc = Ok (acc ++ items).
Proof.
  revert acc. induction items as [|[[tag index] data] items IH]; intros acc.
  { by rewrite app_nil_r. }
  cbn [visit_all].
  change (emit tag index data acc) with (Ok (acc ++ [(tag, index, data)])).
  rewrite bind_Ok, IH. by rewrite <- app_assoc.
Qed.

Lemma spec_write_gamma_length (v : Z) :
  (1 <= length (spec_write_gamma v) <= 5)%nat.
Proof. unfold spec_write_gamma. repeat case_match; cbn; lia. Qed.

Lemma spec_write_block_header (n : Z) :
  0 <= n < 2 ^ 28 ->
  Z.land (byte_val (byte_of_Z (Z.shiftl (Z.shiftr n 24) 4))) 0x0F = 0 /\
  Z.lor (Z.shiftl (Z.shiftr (byte_val (byte_of_Z (Z.shiftl (Z.shiftr n 24) 4)))
                     4) 24)
    (be24 (byte_of_Z (Z.shiftr n 16)) (byte_of_Z (Z.shiftr n 8)) (byte_of_Z n))
  = n.
Proof.
  intros Hn.
  rewrite (lor_shiftl _ _ 24) by (try lia; apply be24_range).
  rewrite be24_arith, !byte_val_of_Z.
  change 0x0F with (Z.ones 4). rewrite land_low by lia.
  rewrite !Z.shiftr_div_pow2, !Z.shiftl_mul_pow2 by lia.
  split; Z.div_mod_to_equations; lia.
Qed.

Section ReadBack.
Context {A : Type} (visit : bytes -> Z -> bytes -> A -> result A).

Lemma read_back_block (fuel : nat) (tag payload rest : bytes) (analysis : A) :
  length tag = 4%nat -> tag <> zero_tag ->
  Z.of_nat (length payload) < 2 ^ 28 ->
  analyze_savegame_with visit (S fuel)
    (Buffered (tag ++ spec_write_block payload ++ rest)) analysis
  = analysis ← visit tag (-1) payload analysis;
    analyze_savegame_with visit fuel (Buffered rest) analysis.
Proof.
  intros Htag Hz Hlen. unfold spec_write_block. cbv zeta. cbn [app].
  destruct (spec_write_block_header (Z.of_nat (length payload)))
    as [Hlow Hsize]; [lia|].
  rewrite block_step by done. cbv zeta. rewrite Hsize, Nat2Z.id.
  by rewrite take_app_length, drop_app_length.
Qed.

Lemma read_back_records (fuel : nat) (tag : bytes) (index : Z)
    (records : list bytes) (rest : bytes) (analysis : A) :
  Forall (fun p => Z.of_nat (length p) + 1 < 2 ^ 35) records ->
  (length records < fuel)%nat ->
  read_records visit fuel tag 1 index
    (Buffered (concat (map spec_write_record records) ++ x00 :: rest)) analysis
  = analysis ←
      visit_all visit
        (imap (fun i p => (tag, index + 1 + Z.of_nat i, p)) records) analysis;
    Ok (Buffered rest, analysis).
Proof.
  intros Hall. revert fuel index analysis.
  induction Hall as [|p records Hp _ IH]; intros fuel index a Hfuel.
  - destruct fuel as [|fuel]; [cbn in Hfuel; lia|].
    cbn [map concat app imap visit_all]. rewrite read_records_S.
    by rewrite (read_gamma_cons x00).
  - destruct fuel as [|fuel]; [cbn in Hfuel; lia|]. cbn [length] in Hfuel.
    cbn [map concat]. unfold spec_write_record at 1. rewrite <- !app_assoc.
    assert (0 <= Z.of_nat (length p) + 1 < 2 ^ 35) as Hrange by lia.
    rewrite (array_step visit fuel tag index _ _ _ _ a
               (read_spec_write_gamma _ _ Hrange)) by lia.
    replace (Z.of_nat (length p) + 1 - 1) with (Z.of_nat (length p)) by lia.
    rewrite read_Buffered_app, bind_Ok.
    cbn [imap visit_all]. rewrite Z.add_0_r.
    destruct (visit tag (index + 1) p a) as [a1|]; [|done].
    rewrite !bind_Ok. rewrite IH by lia.
    f_equal. f_equal. apply imap_ext. intros i x _. cbn. f_equal. f_equal. lia.
Qed.

Lemma read_back_indexed (fuel : nat) (tag : bytes) (index : Z)
    (records : list (Z * bytes)) (rest : bytes) (analysis : A) :
  Forall (fun r => 0 <= r.1 < 2 ^ 35 /\
                   Z.of_nat (length r.2) + 6 < 2 ^ 35) records ->
  (length records < fuel)%nat ->
  read_records visit fuel tag 2 index
    (Buffered (concat (map spec_write_indexed records) ++ x00 :: rest)) analysis
  = analysis ←
      visit_all visit (map (fun r => (tag, r.1, r.2)) records) analysis;
    Ok (Buffered rest, analysis).
Proof.
  intros Hall. revert fuel index analysis.
  induction Hall as [|[ix p] records [Hix Hp] _ IH]; intros fuel index a Hfuel.
  - destruct fuel as [|fuel]; [cbn in Hfuel; lia|].
    cbn [map concat app visit_all]. rewrite read_records_S.
    by rewrite (read_gamma_cons x00).
  - destruct fuel as [|fuel]; [cbn in Hfuel; lia|]. cbn [length] in Hfuel.
    cbn [map concat fst snd]. unfold spec_write_indexed at 1. cbv zeta.
    cbn [fst snd] in *. rewrite <- !app_assoc.
    pose proof (spec_write_gamma_length ix) as Hglen.
    assert (0 <= Z.of_nat (length p) + 1
                 + Z.of_nat (length (spec_write_gamma ix)) < 2 ^ 35)
      as Hrange by lia.
    rewrite (sparse_step visit fuel tag index _ _ _ _ _ _ _ a
               (read_spec_write_gamma _ _ Hrange) ltac:(lia)
               (read_spec_write_gamma _ _ Hix)).
    match goal with
    | |- context [read ?n (Buffered (p ++ _))] =>
        replace n with (Z.of_nat (length p)) by lia
    end.
    rewrite read_Buffered_app, bind_Ok. cbn [visit_all].
    destruct (visit tag ix p a) as [a1|]; [|done].
    rewrite !bind_Ok. by rewrite IH by lia.
Qed.
End ReadBack.

Lemma concat_nonempty_length {X : Type} (f : X -> bytes) (xs : list X) :
  (forall x, 1 <= length (f x))%nat ->
  (length xs <= length (concat (map f xs)))%nat.
Proof.
  intros Hf. induction xs as [|x xs IH]; [done|].
  cbn [map concat length]. rewrite length_app. specialize (Hf x). lia.
Qed.

Section ReadBackStream.
Context {A : Type} (visit : bytes -> Z -> bytes -> A -> result A).

Lemma read_back_chunk (fuel : nat) (c : chunk) (rest : bytes) (analysis : A) :
  chunk_ok c ->
  (length (spec_write_chunk c ++ rest) <= fuel)%nat ->
  analyze_savegame_with visit (S fuel)
    (Buffered (spec_write_chunk c ++ rest)) analysis
  = analysis ← visit_all visit (spec_items c) analysis;
    analyze_savegame_with visit fuel (Buffered rest) analysis.
Proof.
  intros (Htag & Hz & Hok) Hfuel.
  destruct c as [tag payload|tag records|tag records];
    cbn [chunk_tag spec_write_chunk spec_items] in *.
  - rewrite <- app_assoc, read_back_block by done.
    cbn [visit_all]. by destruct (visit tag (-1) payload analysis).
  - rewrite <- app_assoc. cbn [app].
    rewrite (boundary_chunk visit fuel _ _ tag analysis (read_tag tag _ Htag))
      by done.
    rewrite read_uint8_cons, bind_Ok.
    change (Z.land (byte_val x01) 15 =? 0) with false.
    change ((byte_val x01 =? 1) || (byte_val x01 =? 2)) with true.
    cbv iota. change (byte_val x01) with 1.
    rewrite <- app_assoc. cbn [app].
    rewrite read_back_records; [|done|].
    2:{ pose proof (concat_nonempty_length spec_write_record records) as Hc.
        rewrite !length_app in Hfuel. cbn [length] in Hfuel.
        rewrite length_app in Hfuel.
        unfold spec_write_record in Hc at 1.
        assert (forall p : bytes,
                  (1 <= length (spec_write_gamma (Z.of_nat (length p) + 1)
                                ++ p))%nat) as Hne.
        { intros p. rewrite length_app.
          pose proof (spec_write_gamma_length (Z.of_nat (length p) + 1)). lia. }
        specialize (Hc Hne). lia. }
    rewrite (imap_ext _ (fun i p => (tag, Z.of_nat i, p)))
      by (intros i p _; cbn; do 2 f_equal; lia).
    by destruct (visit_all visit _ analysis).
  - rewrite <- app_assoc. cbn [app].
    rewrite (boundary_chunk visit fuel _ _ tag analysis (read_tag tag _ Htag))
      by done.
    rewrite read_uint8_cons, bind_Ok.
    change (Z.land (byte_val x02) 15 =? 0) with false.
    change ((byte_val x02 =? 1) || (byte_val x02 =? 2)) with true.
    cbv iota. change (byte_val x02) with 2.
    rewrite <- app_assoc. cbn [app].
    rewrite read_back_indexed; [|done|].
    2:{ pose proof (concat_nonempty_length spec_write_indexed records) as Hc.
        rewrite !length_app in Hfuel. cbn [length] in Hfuel.
        rewrite length_app in Hfuel.
        assert (forall r : Z * bytes,
                  (1 <= length (spec_write_indexed r))%nat) as Hne.
        { intros r. unfold spec_write_indexed. cbv zeta. rewrite length_app.
          pose proof (spec_write_gamma_length
                        (Z.of_nat (length r.2) + 1
                         + Z.of_nat (length (spec_write_gamma r.1)))). lia. }
        specialize (Hc Hne). lia. }
    by destruct (visit_all visit _ analysis).
Qed.

Lemma read_back_stream (fuel : nat) (chunks : list chunk) (ending : bytes)
    (analysis : A) :
  Forall chunk_ok chunks ->
  ending = [] \/ take 4 ending = zero_tag ->
  (length (concat (map spec_write_chunk chunks) ++ ending) < fuel)%nat ->
  analyze_savegame_with visit fuel
    (Buffered (concat (map spec_write_chunk chunks) ++ ending)) analysis
  = visit_all visit (concat (map spec_items chunks)) analysis.
Proof.
  intros Hall Hend. revert fuel analysis.
  induction Hall as [|c chunks Hc _ IH]; intros fuel a Hfuel.
  - destruct fuel as [|fuel]; [lia|]. cbn [map concat app visit_all].
    apply (boundary_done visit fuel (Buffered ending)
             (Buffered (drop 4 ending)) (take 4 ending)).
    + change 4 with (Z.of_nat 4). apply read_Buffered.
    + destruct Hend as [->|Hend]; [by left|by right].
  - destruct fuel as [|fuel]; [lia|].
    cbn [map concat] in *. rewrite <- app_assoc in *.
    rewrite read_back_chunk by (done || lia).
    rewrite visit_all_app.
    destruct (visit_all visit (spec_items c) a) as [a1|]; [|done].
    rewrite !bind_Ok. apply IH.
    rewrite length_app in Hfuel.
    assert (4 <= length (spec_write_chunk c))%nat; [|lia].
    destruct Hc as (Htag & _ & _).
    destruct c; cbn [spec_write_chunk chunk_tag] in *; rewrite length_app; lia.
Qed.
End ReadBackStream.

(** X12.  Reading back what was written.  A stream of chunks written in
    the three layouts of the format (blocks below 2^28 bytes, array records,
    sparse records with their index), ended by the end of the file or by a
    tag of four zero bytes, is decoded into the triples (tag, index,
    payload) it stands for, in order: a block gives index -1, the records
    of an array are numbered 0, 1, 2, ..., the records of a sparse array
    carry their own index, and what follows the zero tag is not read.  The
    summary of the file is what [analyze_chunk] makes of these triples one
    after the other. *)
Theorem chunk_stream_read_back (fuel : nat) (chunks : list chunk)
    (ending : bytes) :
  Forall chunk_ok chunks ->
  ending = [] \/ take 4 ending = zero_tag ->
  (length (concat (map spec_write_chunk chunks) ++ ending) < fuel)%nat ->
  chunk_items fuel (Buffered (concat (map spec_write_chunk chunks) ++ ending))
  = Ok (concat (map spec_items chunks)) /\
  (forall analysis : summary,
      analyze_savegame fuel
        (Buffered (concat (map spec_write_chunk chunks) ++ ending)) analysis
      = visit_all analyze_chunk (concat (map spec_items chunks)) analysis).
Proof.
  intros Hall Hend Hfuel. split.
  - unfold chunk_items. rewrite read_back_stream by done.
    apply visit_all_emit.
  - intros analysis. unfold analyze_savegame. by apply read_back_stream.
Qed.

Lemma chunk_stream_read_back_witness :
  let chunks := [ArrayChunk (b_ "NGRF") [[x01; x02]; []; [x03]];
                 SparseChunk (b_ "AIPL") [(7, [x00]); (300, [])];
                 BlockChunk (b_ "MAPS")
                   [x00; x00; x00; x40; x00; x00; x00; x80]] in
  let ending := zero_tag ++ [xff] in
  let stream := concat (map spec_write_chunk chunks) ++ ending in
  Forall chunk_ok chunks /\
  (ending = [] \/ take 4 ending = zero_tag) /\
  (length stream < 60)%nat /\
  chunk_items 60 (Buffered stream)
  = Ok [(b_ "NGRF", 0, [x01; x02]); (b_ "NGRF", 1, []); (b_ "NGRF", 2, [x03]);
        (b_ "AIPL", 7, [x00]); (b_ "AIPL", 300, []);
        (b_ "MAPS", -1, [x00; x00; x00; x40; x00; x00; x00; x80])].
Proof.
  intros chunks ending stream.
  assert (Forall chunk_ok chunks) as Hall.
  { repeat constructor; cbn; try discriminate; lia. }
  assert (ending = [] \/ take 4 ending = zero_tag) as Hend by (by right).
  assert (length stream < 60)%nat as Hfuel by (vm_compute; lia).
  split; [exact Hall|]. split; [exact Hend|]. split; [exact Hfuel|].
  exact (proj1 (chunk_stream_read_back 60 chunks ending Hall Hend Hfuel)).
Defined.

(** ** The common type of a key *)

Lemma detect_type_loop_Some (key : string) (d : option pytype)
    (analysis_all : list summary) (t : pytype) :
  detect_type_loop key d analysis_all = Some t ->
  (forall a v, a ∈ analysis_all -> a !! key = Some v -> type_of v = t) /\
  (d = Some t \/
   d = None /\ exists a, a ∈ analysis_all /\ is_Some (a !! key)).
Proof.
  revert d. induction analysis_all as [|a l IH]; intros d H.
  { cbn in H. subst d. split; [|by left]. intros a v Ha. by inversion Ha. }
  cbn [detect_type_loop] in H.
  destruct (a !! key) as [v|] eqn:Ev.
  - cbv zeta in H.
    assert (detect_type_loop key (Some (type_of v)) l = Some t /\
            (d = None \/ d = Some (type_of v))) as [H' Hd].
    { destruct d as [t'|]; [|by auto].
      destruct (bool_decide_reflect (t' = type_of v)) as [->|]; [auto|done]. }
    destruct (IH _ H') as (Hall & Hd').
    assert (type_of v = t) as Hv.
    { destruct Hd' as [Hd'|[Hd' _]]; by simplify_eq. }
    split.
    + intros a' v' [->|Ha']%elem_of_cons Hv'; [by simplify_eq|by eapply Hall].
    + destruct Hd as [->| ->]; [right|left; by rewrite Hv].
      split; [done|]. exists a. split; [by left|by rewrite Ev].
  - destruct (IH _ H) as (Hall & Hd). split.
    + intros a' v' [->|Ha']%elem_of_cons Hv'; [by simplify_eq|by eapply Hall].
    + destruct Hd as [->|(-> & a' & Ha' & Hsome)]; [by left|right].
      split; [done|]. exists a'. split; [by right|done].
Qed.

Lemma detect_type_loop_typed (key : string) (d : option pytype)
    (analysis_all : list summary) (t : pytype) :
  (forall a v, a ∈ analysis_all -> a !! key = Some v -> type_of v = t) ->
  d = Some t \/ d = None /\ (exists a, a ∈ analysis_all /\ is_Some (a !! key)) ->
  detect_type_loop key d analysis_all = Some t.
Proof.
  revert d. induction analysis_all as [|a l IH]; intros d Hall Hd.
  { destruct Hd as [->|(_ & a & Ha & _)]; [done|by inversion Ha]. }
  cbn [detect_type_loop].
  assert (forall a v, a ∈ l -> a !! key = Some v -> type_of v = t) as Hall'.
  { intros a' v' Ha'. apply Hall. by right. }
  destruct (a !! key) as [v|] eqn:Ev.
  - cbv zeta. rewrite (Hall a v) by (done || by left).
    destruct Hd as [->|(-> & _)].
    + rewrite bool_decide_true by done. apply IH; auto.
    + apply IH; auto.
  - apply IH; [done|].
    destruct Hd as [->|(-> & a' & Ha' & Hsome)]; [by left|right].
    split; [done|]. exists a'. split; [|done].
    apply elem_of_cons in Ha' as [->|]; [|done].
    rewrite Ev in Hsome. by destruct Hsome.
Qed.

(** ** The order of the values of one type *)

Lemma lex_ltb_irrefl (x : list Z) : lex_ltb x x = false.
Proof.
  induction x as [|a x IH]; [done|]. cbn [lex_ltb].
  rewrite Z.ltb_irrefl, Z.eqb_refl, IH. done.
Qed.

Lemma lex_ltb_asym (x y : list Z) : lex_ltb x y = true -> lex_ltb y x = false.
Proof.
  revert y. induction x as [|a x IH]; intros [|b y]; cbn [lex_ltb]; try done.
  intros H.
  destruct (Z.ltb_spec a b), (Z.ltb_spec b a), (Z.eqb_spec a b),
    (Z.eqb_spec b a); try lia; cbn in *; try done.
  by apply IH.
Qed.

Lemma lex_ltb_trans (x y z : list Z) :
  lex_ltb x y = true -> lex_ltb y z = true -> lex_ltb x z = true.
Proof.
  revert y z. induction x as [|a x IH]; intros [|b y] [|c z];
    cbn [lex_ltb]; try done.
  intros H1 H2.
  destruct (Z.ltb_spec a b), (Z.ltb_spec b c), (Z.ltb_spec a c),
    (Z.eqb_spec a b), (Z.eqb_spec b c), (Z.eqb_spec a c);
    try lia; cbn in *; try done.
  by apply IH with y.
Qed.

Lemma lex_ltb_total (x y : list Z) :
  lex_ltb x y = false -> lex_ltb y x = false -> x = y.
Proof.
  revert y. induction x as [|a x IH]; intros [|b y]; cbn [lex_ltb]; try done.
  intros H1 H2.
  destruct (Z.ltb_spec a b), (Z.ltb_spec b a), (Z.eqb_spec a b),
    (Z.eqb_spec b a); try lia; cbn in *; try done.
  subst. f_equal. by apply IH.
Qed.

Lemma codes_inj (x y : bytes) : map byte_val x = map byte_val y -> x = y.
Proof.
  revert y. induction x as [|a x IH]; intros [|b y] H; try done.
  cbn in H. injection H as Hab Hxy. apply byte_val_inj in Hab as ->.
  f_equal. by apply IH.
Qed.

Lemma text_codes_inj (x y : string) : b_ x = b_ y -> x = y.
Proof.
  unfold b_. intros H.
  rewrite <- (string_of_list_byte_of_string x),
    <- (string_of_list_byte_of_string y). by rewrite H.
Qed.

Lemma value_lt_typed (x y : value) :
  type_of x = type_of y -> exists smaller : bool, value_lt x y = Ok smaller.
Proof. destruct x, y; cbn; try done; eauto. Qed.

Lemma value_lt_raises (x y : value) (e : exn) :
  value_lt x y = Raise e -> e = TypeError /\ type_of x <> type_of y.
Proof. destruct x, y; cbn; intros H; by simplify_eq. Qed.

Lemma value_lt_Ok (x y : value) (smaller : bool) :
  value_lt x y = Ok smaller -> type_of x = type_of y.
Proof. by destruct x, y. Qed.

Lemma value_lt_irrefl (x : value) : value_lt x x <> Ok true.
Proof.
  destruct x; cbn; rewrite ?Z.ltb_irrefl, ?lex_ltb_irrefl; done.
Qed.

Lemma value_lt_asym (x y : value) :
  value_lt x y = Ok true -> value_lt y x = Ok false.
Proof.
  destruct x, y; cbn; try done; intros H; simplify_eq; f_equal.
  - lia.
  - by apply lex_ltb_asym.
  - by apply lex_ltb_asym.
Qed.

Lemma value_lt_trans (x y z : value) :
  value_lt x y = Ok true -> value_lt y z = Ok true -> value_lt x z = Ok true.
Proof.
  destruct x, y, z; cbn; try done; intros H1 H2; simplify_eq; f_equal.
  - lia.
  - by eapply lex_ltb_trans.
  - by eapply lex_ltb_trans.
Qed.

Lemma value_lt_total (x y : value) :
  value_lt x y = Ok false -> value_lt y x = Ok false -> x = y.
Proof.
  destruct x, y; cbn; try done; intros H1 H2; simplify_eq; f_equal.
  - lia.
  - by apply text_codes_inj, codes_inj, lex_ltb_total.
  - by apply codes_inj, lex_ltb_total.
Qed.

(** Not smaller, twice, is not smaller. *)
Lemma value_le_trans (x y z : value) :
  value_lt y x = Ok false -> value_lt z y = Ok false ->
  value_lt z x = Ok false.
Proof.
  intros Hyx Hzy.
  pose proof (value_lt_Ok _ _ _ Hyx) as Tyx.
  pose proof (value_lt_Ok _ _ _ Hzy) as Tzy.
  destruct (value_lt_typed z x) as [[|] Hzx]; [congruence| |done].
  destruct (value_lt_typed x y) as [[|] Hxy]; [congruence| |].
  - pose proof (value_lt_trans _ _ _ Hzx Hxy). congruence.
  - pose proof (value_lt_total _ _ Hxy Hyx). subst. congruence.
Qed.

(** ** The sort *)

Section SortedFacts.
Context {X : Type} (f : X -> value).

(** Where a record goes in: behind the records with a smaller key that
    stand in front, and in front of the first other record. *)
Lemma insert_sorted_spec (x : X) (l l' : list X) :
  insert_sorted f x l = Ok l' ->
  exists l1 l2,
    l = l1 ++ l2 /\ l' = l1 ++ x :: l2 /\
    Forall (fun y => value_lt (f y) (f x) = Ok true) l1 /\
    match l2 with
    | [] => True
    | y :: _ => value_lt (f y) (f x) = Ok false
    end.
Proof.
  revert l'. induction l as [|y l IH]; intros l' H.
  { cbn in H. simplify_eq. by exists [], []. }
  cbn [insert_sorted] in H.
  destruct (value_lt (f y) (f x)) as [[|]|] eqn:E; [| |done].
  - rewrite bind_Ok in H.
    destruct (insert_sorted f x l) as [rest|]; [|done].
    rewrite bind_Ok in H. unfold mret, result_ret in H. simplify_eq.
    destruct (IH rest eq_refl) as (l1 & l2 & -> & -> & Hl1 & Hl2).
    exists (y :: l1), l2. split; [done|]. split; [done|].
    split; [by constructor|done].
  - rewrite bind_Ok in H. unfold mret, result_ret in H. simplify_eq.
    by exists [], (y :: l).
Qed.

Lemma insert_sorted_raises (x : X) (l : list X) (e : exn) :
  insert_sorted f x l = Raise e ->
  e = TypeError /\ exists y, y ∈ l /\ type_of (f y) <> type_of (f x).
Proof.
  induction l as [|y l IH]; intros H; [done|].
  cbn [insert_sorted] in H.
  destruct (value_lt (f y) (f x)) as [[|]|e'] eqn:E.
  - rewrite bind_Ok in H.
    destruct (insert_sorted f x l) as [rest|e'']; [done|].
    cbn in H. simplify_eq. destruct (IH eq_refl) as (-> & y' & Hy' & Hne).
    split; [done|]. exists y'. split; [by right|done].
  - done.
  - cbn in H. simplify_eq. apply value_lt_raises in E as [-> Hne].
    split; [done|]. exists y. split; [by left|done].
Qed.

Lemma sorted_Permutation (l l' : list X) : sorted f l = Ok l' -> l' ≡ₚ l.
Proof.
  revert l'. induction l as [|x l IH]; intros l' H.
  { cbn in H. by simplify_eq. }
  cbn [sorted] in H. destruct (sorted f l) as [rest|]; [|done].
  rewrite bind_Ok in H.
  apply insert_sorted_spec in H as (l1 & l2 & -> & -> & _).
  rewrite <- (IH _ eq_refl). by rewrite Permutation_middle.
Qed.

(** The sort raises nothing but a TypeError, and only when two keys differ
    in type. *)
Lemma sorted_raises (l : list X) (e : exn) :
  sorted f l = Raise e ->
  e = TypeError /\
  exists x y, x ∈ l /\ y ∈ l /\ type_of (f y) <> type_of (f x).
Proof.
  induction l as [|x l IH]; intros H; [done|].
  cbn [sorted] in H. destruct (sorted f l) as [rest|e'] eqn:E.
  - rewrite bind_Ok in H.
    apply insert_sorted_raises in H as (-> & y & Hy & Hne).
    split; [done|]. exists x, y. split; [by left|]. split; [|done].
    right. by rewrite <- (sorted_Permutation _ _ E).
  - cbn in H. simplify_eq. destruct (IH eq_refl) as (-> & x' & y' & ? & ? & ?).
    split; [done|]. exists x', y'. split; [by right|]. split; [by right|done].
Qed.

Lemma sorted_typed (t : pytype) (l : list X) :
  Forall (fun x => type_of (f x) = t) l -> exists l', sorted f l = Ok l'.
Proof.
  intros Hall. destruct (sorted f l) as [l'|e] eqn:E; [by eexists|].
  apply sorted_raises in E as (_ & x & y & Hx & Hy & Hne).
  rewrite Forall_forall in Hall.
  rewrite (Hall x Hx), (Hall y Hy) in Hne. done.
Qed.

(** The sort is stable: records with one and the same key keep their
    order. *)
Lemma sorted_stable (P : X -> Prop) `{Pdec : !forall x, Decision (P x)}
    (l l' : list X) :
  (forall x y, x ∈ l -> y ∈ l -> P x -> P y -> f x = f y) ->
  sorted f l = Ok l' -> filter P l' = filter P l.
Proof.
  revert l'. induction l as [|x l IH]; intros l' Hkey Hs.
  { cbn in Hs. by simplify_eq. }
  cbn [sorted] in Hs. destruct (sorted f l) as [rest|] eqn:E; [|done].
  rewrite bind_Ok in Hs.
  pose proof (sorted_Permutation _ _ E) as Hperm.
  apply insert_sorted_spec in Hs as (l1 & l2 & -> & -> & Hl1 & _).
  assert (filter P (l1 ++ l2) = filter P l) as Hrest.
  { apply IH; [|done]. intros a b Ha Hb. apply Hkey; by right. }
  rewrite filter_app, filter_cons. rewrite filter_app in Hrest.
  rewrite (filter_cons P x l). destruct (decide (P x)) as [HP|HP]; [|done].
  assert (filter P l1 = []) as Hnone.
  { assert (forall y, y ∈ l1 -> y ∈ l) as Hin.
    { intros y Hy. rewrite <- Hperm. apply elem_of_app. by left. }
    clear Hrest Hperm E IH.
    induction Hl1 as [|y l1 Hy Hl1 IH1]; [done|].
    rewrite filter_cons. destruct (decide (P y)) as [HPy|].
    - exfalso. apply (value_lt_irrefl (f x)).
      assert (f y = f x) as Heq.
      { apply Hkey; [right; apply Hin; by left|by left|done..]. }
      by rewrite Heq in Hy.
    - apply IH1. intros z Hz. apply Hin. by right. }
  rewrite Hnone in *. cbn [app] in *. by rewrite Hrest.
Qed.

(** The outcome is in the order of the keys: no record has a smaller key
    than one in front of it. *)
Lemma insert_sorted_ordered (x : X) (l l' : list X) :
  StronglySorted (fun a b => value_lt (f b) (f a) = Ok false) l ->
  insert_sorted f x l = Ok l' ->
  StronglySorted (fun a b => value_lt (f b) (f a) = Ok false) l'.
Proof.
  intros Hs H.
  apply insert_sorted_spec in H as (l1 & l2 & -> & -> & Hl1 & Hl2).
  induction l1 as [|y l1 IH]; cbn [app] in *.
  - constructor; [done|]. destruct l2 as [|z l2]; [done|].
    apply StronglySorted_inv in Hs as [_ Hz].
    constructor; [done|].
    eapply Forall_impl; [exact Hz|]. intros w Hw. cbn in Hw.
    by apply value_le_trans with (f z).
  - apply StronglySorted_inv in Hs as [Hs Hy].
    apply Forall_cons in Hl1 as [Hyx Hl1].
    constructor; [by apply IH|].
    apply Forall_app in Hy as [Hy1 Hy2]. apply Forall_app. split; [done|].
    constructor; [by apply value_lt_asym|done].
Qed.

Lemma sorted_ordered (l l' : list X) :
  sorted f l = Ok l' ->
  StronglySorted (fun a b => value_lt (f b) (f a) = Ok false) l'.
Proof.
  revert l'. induction l as [|x l IH]; intros l' H.
  { cbn in H. simplify_eq. constructor. }
  cbn [sorted] in H. destruct (sorted f l) as [rest|] eqn:E; [|done].
  rewrite bind_Ok in H. eapply insert_sorted_ordered; [|done]. by apply IH.
Qed.
End SortedFacts.

(** ** The dictionary of the slots *)

Lemma dict_append_keys (slot : option value) (x : value) (values : slots) :
  (dict_append slot x values).*1
  = if decide (slot ∈ values.*1) then values.*1 else values.*1 ++ [slot].
Proof.
  induction values as [|[k xs] values IH]; [done|].
  cbn [dict_append fmap list_fmap fst].
  destruct (bool_decide_reflect (k = slot)) as [->|Hne].
  - rewrite decide_True by (by left). done.
  - cbn [fmap list_fmap fst]. fold (fmap (M := list) (@fst (option value) (list value))).
    rewrite IH. destruct (decide (slot ∈ values.*1)) as [Hin|Hin].
    + rewrite decide_True by (by right). done.
    + rewrite decide_False; [done|].
      intros [->|?]%elem_of_cons; done.
Qed.

Lemma dict_get_append (s slot : option value) (x : value) (values : slots) :
  dict_get s (dict_append slot x values)
  = if decide (s = slot) then dict_get s values ++ [x] else dict_get s values.
Proof.
  induction values as [|[k xs] values IH].
  - cbn. destruct (decide (s = slot)) as [->|Hne].
    + by rewrite bool_decide_true.
    + by rewrite bool_decide_false by naive_solver.
  - cbn [dict_append dict_get].
    destruct (bool_decide_reflect (k = slot)) as [->|Hne]; cbn [dict_get].
    + destruct (bool_decide_reflect (slot = s)) as [->|Hne].
      * by rewrite decide_True.
      * by rewrite decide_False by naive_solver.
    + destruct (bool_decide_reflect (k = s)) as [->|Hne'].
      * by rewrite decide_False by naive_solver.
      * apply IH.
Qed.

Lemma dict_get_elem (s : option value) (names : list value) (values : slots) :
  NoDup values.*1 -> (s, names) ∈ values -> dict_get s values = names.
Proof.
  induction values as [|[k xs] values IH]; intros Hnd Hin.
  { by inversion Hin. }
  cbn [fmap list_fmap fst] in Hnd. apply NoDup_cons in Hnd as [Hk Hnd].
  cbn [dict_get]. apply elem_of_cons in Hin as [Heq|Hin].
  - simplify_eq. by rewrite bool_decide_true.
  - rewrite bool_decide_false; [by apply IH|].
    intros ->. apply Hk. apply list_elem_of_fmap. by exists (s, names).
Qed.

Lemma dict_append_total (slot : option value) (x : value) (values : slots) :
  length (concat (dict_append slot x values).*2)
  = S (length (concat values.*2)).
Proof.
  induction values as [|[k xs] values IH]; [done|].
  cbn [dict_append]. destruct (bool_decide (k = slot)).
  - cbn. rewrite !length_app. cbn. lia.
  - cbn. rewrite !length_app. cbn in IH. rewrite IH. lia.
Qed.

(** ** The loop over the sorted records *)

(** The two variables [last_value] and [slot] change nothing: each record
    is filed under its own value. *)
Lemma group_loop_step (key : string) (last_value : option value)
    (values : slots) (a : summary) (l : list summary) :
  group_loop key last_value last_value values (a :: l)
  = match a !! "filename" with
    | None => Raise (KeyError "filename")
    | Some filename =>
      group_loop key (Some (slot_of key a)) (Some (slot_of key a))
        (dict_append (Some (slot_of key a)) filename values) l
    end.
Proof.
  cbn [group_loop]. cbv zeta. fold (slot_of key a).
  destruct (bool_decide_reflect (last_value <> Some (slot_of key a)))
    as [Hne|Heq]; [done|].
  destruct (decide (last_value = Some (slot_of key a))) as [->|]; done.
Qed.

Lemma filenames_with_cons (key : string) (v : value) (a : summary)
    (l : list summary) :
  filenames_with key v (a :: l)
  = (if decide (slot_of key a = v)
     then match a !! "filename" with Some n => [n] | None => [] end
     else [])
    ++ filenames_with key v l.
Proof.
  unfold filenames_with. rewrite filter_cons.
  destruct (decide (slot_of key a = v)); [|done].
  cbn [omap list_omap]. by destruct (a !! "filename").
Qed.

Lemma group_loop_spec (key : string) (last_value : option value)
    (values values' : slots) (l : list summary) :
  group_loop key last_value last_value values l = Ok values' ->
  (forall s, dict_get s values'
             = dict_get s values
               ++ match s with
                  | Some v => filenames_with key v l
                  | None => []
                  end) /\
  (forall s, s ∈ values'.*1 <->
             s ∈ values.*1 \/ exists a, a ∈ l /\ s = Some (slot_of key a)) /\
  (NoDup values.*1 -> NoDup values'.*1) /\
  length (concat values'.*2) = (length (concat values.*2) + length l)%nat /\
  Forall (fun a => is_Some (a !! "filename")) l.
Proof.
  revert last_value values.
  induction l as [|a l IH]; intros last_value values H.
  { cbn in H. simplify_eq. split.
    { intros [v|]; by rewrite app_nil_r. }
    split; [|split; [done|split; [cbn; lia|done]]].
    intros s. split; [by left|]. intros [?|(a & Ha & _)]; [done|].
    by inversion Ha. }
  rewrite group_loop_step in H.
  destruct (a !! "filename") as [name|] eqn:Ename; [|done].
  apply IH in H as (Hget & Hkeys & Hnd & Hlen & Hall).
  split; [|split; [|split; [|split]]].
  - intros s. rewrite Hget, dict_get_append.
    destruct s as [v|].
    + rewrite filenames_with_cons, Ename.
      destruct (decide (Some v = Some (slot_of key a))) as [Heq|Hne].
      * simplify_eq. rewrite decide_True by done. by rewrite <- app_assoc.
      * rewrite decide_False by congruence. done.
    + by rewrite decide_False.
  - intros s. rewrite Hkeys, dict_append_keys. split.
    + intros [Hin|(a' & Ha' & ->)].
      * destruct (decide _); [by left|].
        apply elem_of_app in Hin as [?|Hin]; [by left|].
        apply list_elem_of_singleton in Hin as ->.
        right. exists a. split; [by left|done].
      * right. exists a'. split; [by right|done].
    + intros [Hin|(a' & Ha' & ->)].
      * left. destruct (decide _); [done|]. apply elem_of_app. by left.
      * apply elem_of_cons in Ha' as [->|Ha'].
        -- left. destruct (decide _); [done|]. apply elem_of_app. right.
           by apply list_elem_of_singleton.
        -- right. by exists a'.
  - intros Hnd0. apply Hnd. rewrite dict_append_keys.
    destruct (decide _); [done|].
    apply NoDup_app. split; [done|]. split; [|apply NoDup_singleton].
    intros s Hs ->%list_elem_of_singleton. done.
  - rewrite Hlen, dict_append_total. cbn [length]. lia.
  - constructor; [by rewrite Ename|done].
Qed.

Lemma group_loop_raises (key : string) (last_value : option value)
    (values : slots) (l : list summary) (e : exn) :
  group_loop key last_value last_value values l = Raise e ->
  e = KeyError "filename" /\ exists a, a ∈ l /\ a !! "filename" = None.
Proof.
  revert last_value values.
  induction l as [|a l IH]; intros last_value values H; [done|].
  rewrite group_loop_step in H.
  destruct (a !! "filename") as [name|] eqn:Ename.
  - apply IH in H as (-> & a' & Ha' & Hnone).
    split; [done|]. exists a'. split; [by right|done].
  - simplify_eq. split; [done|]. exists a. split; [by left|done].
Qed.

(** ** The second part of [main] on the records of decoded files *)

Lemma main_files_shape {D : Type} `{!InflateEngine D} {L : Type}
    `{!ByteSource L} (lzma_open : BufferedReader -> L) (fuel : nat)
    (files : list (string * bytes)) (analysis_all : list summary) :
  main_files lzma_open fuel files = Ok analysis_all ->
  Forall summary_shape analysis_all.
Proof.
  revert analysis_all.
  induction files as [|[filename contents] files IH]; intros all H.
  { cbn in H. simplify_eq. constructor. }
  cbn [main_files] in H.
  destruct (main_file lzma_open fuel filename contents) as [a|] eqn:Ea;
    [|done].
  rewrite bind_Ok in H.
  destruct (main_files lzma_open fuel files) as [rest|]; [|done].
  rewrite bind_Ok in H. unfold mret, result_ret in H. simplify_eq.
  constructor; [by eapply main_file_shape|by apply IH].
Qed.

Lemma keys_of_elem (key : string) (analysis_all : list summary) :
  key ∈ keys_of analysis_all <->
  exists a, a ∈ analysis_all /\ is_Some (a !! key).
Proof.
  induction analysis_all as [|a l IH]; cbn [keys_of].
  { split; [set_solver|]. intros (a & Ha & _). by inversion Ha. }
  rewrite elem_of_union, elem_of_dom, IH. split.
  - intros [Ha|(a' & Ha' & Hsome)].
    + exists a. split; [by left|done].
    + exists a'. split; [by right|done].
  - intros (a' & [->|Ha']%elem_of_cons & Hsome); [by left|right].
    by exists a'.
Qed.

Lemma type_of_default_value (t : pytype) : type_of (default_value t) = t.
Proof. by destruct t. Qed.

(** In the records of decoded files the key decides the type. *)
Lemma entry_ok_type (key : string) (v v' : value) :
  entry_ok key v -> entry_ok key v' -> type_of v = type_of v'.
Proof.
  unfold entry_ok. intros H H'.
  repeat match goal with
         | H : _ \/ _ |- _ => destruct H
         | H : _ /\ _ |- _ => destruct H
         | H : ex _ |- _ => destruct H
         end; subst; try done.
Qed.

Lemma pretty_N_go_head (x : N) (s s' : string) :
  (forall s'', s <> String "u" s'') -> pretty_N_go x s <> String "u" s'.
Proof.
  revert s. induction (N.lt_wf_0 x) as [x _ IH]; intros s Hs.
  assert (x = 0 \/ 0 < x)%N as [->|Hpos] by lia.
  { rewrite pretty_N_go_0. apply Hs. }
  rewrite pretty_N_go_step by done. apply IH; [by apply N.div_lt|].
  intros s''. unfold pretty_N_char. by repeat case_match.
Qed.

Lemma pretty_Z_head (w : Z) (s' : string) : pretty w <> String "u" s'.
Proof.
  unfold pretty, pretty_Z. destruct w as [|p|p]; [done| |done].
  unfold pretty, pretty_positive, pretty, pretty_N.
  destruct (decide _); [done|]. by apply pretty_N_go_head.
Qed.

Lemma format_dxd_not_unknown (w h : Z) : VStr (format_dxd w h) <> unknown.
Proof.
  unfold format_dxd, unknown. intros H. injection H as H.
  destruct (pretty w) as [|c s] eqn:E; [done|].
  rewrite string_app_cons in H. injection H as -> _.
  by apply pretty_Z_head in E.
Qed.

Lemma entry_ok_not_unknown (key : string) (v : value) :
  key <> "filename" -> entry_ok key v -> v <> unknown.
Proof.
  unfold entry_ok. intros Hkey H.
  repeat match goal with
         | H : _ \/ _ |- _ => destruct H
         | H : _ /\ _ |- _ => destruct H
         | H : ex _ |- _ => destruct H
         end; subst; try done.
  apply format_dxd_not_unknown.
Qed.

(** When the common type was found, the sort has keys of one type. *)
Lemma sort_keys_typed (key : string) (analysis_all : list summary)
    (t : pytype) :
  detect_type_loop key None analysis_all = Some t ->
  Forall (fun x => type_of (match x !! key with
                            | None => default_value t
                            | Some v => v
                            end) = t) analysis_all.
Proof.
  intros H. apply detect_type_loop_Some in H as [Hall _].
  apply Forall_forall. intros a Ha.
  destruct (a !! key) as [v|] eqn:Ev; [by eapply Hall|].
  apply type_of_default_value.
Qed.

Lemma detect_type_loop_None (key : string) (d : option pytype)
    (analysis_all : list summary) :
  detect_type_loop key d analysis_all = None ->
  (d = None /\ forall a, a ∈ analysis_all -> a !! key = None) \/
  (exists t a va, d = Some t /\ a ∈ analysis_all /\ a !! key = Some va /\
                  type_of va <> t) \/
  (exists a b va vb, a ∈ analysis_all /\ b ∈ analysis_all /\
                     a !! key = Some va /\ b !! key = Some vb /\
                     type_of va <> type_of vb).
Proof.
  revert d. induction analysis_all as [|a l IH]; intros d H.
  { cbn in H. left. split; [done|]. intros a Ha. by inversion Ha. }
  cbn [detect_type_loop] in H.
  destruct (a !! key) as [v|] eqn:Ev.
  - cbv zeta in H.
    assert (forall t, d = Some t -> t <> type_of v ->
              exists t a0 va, d = Some t /\ a0 ∈ a :: l /\
                              a0 !! key = Some va /\ type_of va <> t) as Hbad.
    { intros t -> Hne. exists t, a, v. split; [done|]. split; [by left|].
      split; [done|]. congruence. }
    destruct d as [t'|].
    + destruct (bool_decide_reflect (t' = type_of v)) as [->|Hne].
      * apply IH in H as [[? _]|[(t & b & vb & Ht & Hb & Hvb & Hne)|
                                  (a0 & b & va & vb & Ha0 & Hb & ? & ? & ?)]];
          [done| |].
        -- right. left. exists t, b, vb. split; [done|]. split; [by right|done].
        -- right. right. exists a0, b, va, vb.
           split; [by right|]. split; [by right|done].
      * right. left. by apply (Hbad t' eq_refl).
    + apply IH in H as [[? _]|[(t & b & vb & Ht & Hb & Hvb & Hne)|
                                (a0 & b & va & vb & Ha0 & Hb & ? & ? & ?)]];
        [done| |].
      * right. right. exists b, a, vb, v. simplify_eq.
        split; [by right|]. split; [by left|done].
      * right. right. exists a0, b, va, vb.
        split; [by right|]. split; [by right|done].
  - apply IH in H as [[-> Hnone]|[(t & b & vb & Ht & Hb & Hvb & Hne)|
                                   (a0 & b & va & vb & Ha0 & Hb & ? & ? & ?)]].
    + left. split; [done|]. intros a' [->|Ha']%elem_of_cons; auto.
    + right. left. exists t, b, vb. split; [done|]. split; [by right|done].
    + right. right. exists a0, b, va, vb.
      split; [by right|]. split; [by right|done].
Qed.

Lemma values_of_key_NoCommonType (key : string) (analysis_all : list summary) :
  values_of_key key analysis_all = Failed (NoCommonType key) <->
  detect_type_loop key None analysis_all = None.
Proof.
  unfold values_of_key.
  destruct (detect_type_loop key None analysis_all) as [t|]; [|done].
  cbv zeta. split; [|done].
  destruct (sorted _ analysis_all) as [in_order|]; [|done].
  by destruct (group_loop key None None [] in_order).
Qed.

(** X13.  What can end the grouping of the files by a key.  The sort never
    raises: the search for the common type in front of it lets through
    only keys of one type.  The grouping fails with "Failed to detect
    common type" exactly when no record has the key or two records hold
    values of different types under it, and otherwise only with a KeyError
    for a record without filename.  For the records of files that [main]
    has decoded, and a key that one of them has, it does not fail at all:
    the "implementation bug" exception of the program is never raised. *)
Theorem grouping_never_fails {D : Type} `{!InflateEngine D} {L : Type}
    `{!ByteSource L} (lzma_open : BufferedReader -> L) (key : string)
    (analysis_all : list summary) :
  (forall e, values_of_key key analysis_all = Failed e ->
     e = NoCommonType key \/
     e = PythonError (KeyError "filename") /\
     exists a, a ∈ analysis_all /\ a !! "filename" = None) /\
  (values_of_key key analysis_all = Failed (NoCommonType key) <->
     (forall a, a ∈ analysis_all -> a !! key = None) \/
     (exists a b va vb, a ∈ analysis_all /\ b ∈ analysis_all /\
                        a !! key = Some va /\ b !! key = Some vb /\
                        type_of va <> type_of vb)) /\
  (forall (fuel : nat) (files : list (string * bytes)),
     main_files lzma_open fuel files = Ok analysis_all ->
     key ∈ keys_of analysis_all ->
     exists values, values_of_key key analysis_all = Done values).
Proof.
  assert (forall e, values_of_key key analysis_all = Failed e ->
            e = NoCommonType key \/
            e = PythonError (KeyError "filename") /\
            exists a, a ∈ analysis_all /\ a !! "filename" = None) as Hfail.
  { intros e H. unfold values_of_key in H.
    destruct (detect_type_loop key None analysis_all) as [t|] eqn:Et;
      [|left; by simplify_eq].
    cbv zeta in H.
    destruct (sorted_typed _ t analysis_all (sort_keys_typed _ _ _ Et))
      as [in_order Es].
    rewrite Es in H.
    destruct (group_loop key None None [] in_order) as [values|e'] eqn:Eg;
      [done|].
    apply group_loop_raises in Eg as (-> & a & Ha & Hnone).
    right. simplify_eq. split; [done|]. exists a. split; [|done].
    by rewrite <- (sorted_Permutation _ _ _ Es). }
  split; [exact Hfail|]. split.
  - rewrite values_of_key_NoCommonType. split.
    + intros H. apply detect_type_loop_None in H
        as [[_ Hnone]|[(t & a & va & Ht & _)|Hdiff]]; [by left|done|by right].
    + intros Hcases.
      destruct (detect_type_loop key None analysis_all) as [t|] eqn:Et;
        [exfalso|done].
      apply detect_type_loop_Some in Et as [Hall [?|(_ & a & Ha & [v Hv])]];
        [done|].
      destruct Hcases as [Hnone|(a' & b & va & vb & Ha' & Hb & Hva & Hvb & Hne)].
      * rewrite (Hnone a Ha) in Hv. done.
      * apply Hne. by rewrite (Hall a' va), (Hall b vb).
  - intros fuel files Hfiles Hkey.
    apply main_files_shape in Hfiles. rewrite Forall_forall in Hfiles.
    apply keys_of_elem in Hkey as (a & Ha & [v Hv]).
    destruct (values_of_key key analysis_all) as [values|e] eqn:E;
      [by eexists|exfalso].
    destruct (Hfail e eq_refl) as [->|(-> & b & Hb & Hnone)].
    + apply values_of_key_NoCommonType in E.
      rewrite (detect_type_loop_typed key None analysis_all (type_of v)) in E;
        [done| |].
      * intros b vb Hb Hvb.
        apply entry_ok_type with key; [by apply (Hfiles b Hb)|].
        by apply (Hfiles a Ha).
      * right. split; [done|]. exists a. split; [done|]. by rewrite Hv.
    + destruct (Hfiles b Hb) as (_ & [n Hn] & _). congruence.
Qed.

Lemma grouping_never_fails_witness :
  let files :=
    [("savegames/a.sav",
      b_ "OTTN" ++ [x00; x05; x00; x00] ++ b_ "MAPS"
      ++ [x00; x00; x00; x08; x00; x00; x01; x00; x00; x00; x02; x00]);
     ("savegames/b.sav", b_ "OTTN" ++ [x00; x07; x00; x00])] in
  let analysis_all :=
    [<["map-size" := VStr "256x512"]>
       (initial_analysis "savegames/a.sav" 5 (b_ "OTTN"));
     initial_analysis "savegames/b.sav" 7 (b_ "OTTN")] in
  let mixed : list summary :=
    [{["k" := VInt 1]}; {["k" := VStr "one"]}] in
  main_files (D := unit) (fun f : BufferedReader => f) 9 files
  = Ok analysis_all /\
  "map-size" ∈ keys_of analysis_all /\
  (exists values, values_of_key "map-size" analysis_all = Done values) /\
  values_of_key "k" mixed = Failed (NoCommonType "k").
Proof.
  intros files analysis_all mixed.
  assert (main_files (D := unit) (fun f : BufferedReader => f) 9 files
          = Ok analysis_all) as Hfiles by by_vm.
  assert ("map-size" ∈ keys_of analysis_all) as Hkey.
  { apply keys_of_elem. eexists. split; [by left|]. by eexists. }
  split; [exact Hfiles|]. split; [exact Hkey|]. split.
  - destruct (grouping_never_fails (D := unit) (fun f : BufferedReader => f)
                "map-size" analysis_all) as (_ & _ & Hdone).
    exact (Hdone 9%nat files Hfiles Hkey).
  - destruct (grouping_never_fails (D := unit) (fun f : BufferedReader => f)
                "k" mixed) as (_ & Hiff & _).
    apply Hiff. right.
    exists {["k" := VInt 1]}, {["k" := VStr "one"]}, (VInt 1), (VStr "one").
    split; [by left|]. split; [right; by left|].
    split; [done|]. split; [done|]. discriminate.
Defined.

(** ** What is filed under each value *)

Lemma values_of_key_Done (key : string) (analysis_all : list summary)
    (values : slots) :
  values_of_key key analysis_all = Done values ->
  exists t in_order,
    detect_type_loop key None analysis_all = Some t /\
    sorted (fun x => match x !! key with
                     | None => default_value t
                     | Some v => v
                     end) analysis_all = Ok in_order /\
    group_loop key None None [] in_order = Ok values.
Proof.
  unfold values_of_key. intros H.
  destruct (detect_type_loop key None analysis_all) as [t|]; [|done].
  cbv zeta in H.
  destruct (sorted _ analysis_all) as [in_order|] eqn:Es; [|done].
  destruct (group_loop key None None [] in_order) as [values'|] eqn:Eg;
    [|done].
  exists t, in_order. simplify_eq. done.
Qed.

(** X14.  What the grouping by a key produces.  The slot bookkeeping of
    the loop ([last_value], [slot]) has no effect of its own: every file is
    filed under the value its record has for the key, or under "unknown"
    when the record lacks the key.  The dictionary has each slot once, no
    slot is empty, every file is listed once, and the files of a slot are
    those with that value.  When no record holds the text "unknown" itself
    under the key, the files of each slot stand in the order of the
    command line (the sort is stable); in the records that [main] makes of
    decoded files no key but filename can hold that text. *)
Theorem grouping_by_value {D : Type} `{!InflateEngine D} {L : Type}
    `{!ByteSource L} (lzma_open : BufferedReader -> L) (key : string)
    (analysis_all : list summary) :
  (forall values : slots,
     values_of_key key analysis_all = Done values ->
     NoDup values.*1 /\
     length (concat values.*2) = length analysis_all /\
     (forall a, a ∈ analysis_all ->
        exists names, (Some (slot_of key a), names) ∈ values) /\
     (forall slot names, (slot, names) ∈ values ->
        names <> [] /\
        exists v, slot = Some v /\
                  names ≡ₚ filenames_with key v analysis_all /\
                  (Forall (fun a => a !! key <> Some unknown) analysis_all ->
                   names = filenames_with key v analysis_all))) /\
  (forall (fuel : nat) (files : list (string * bytes)),
     main_files lzma_open fuel files = Ok analysis_all ->
     key <> "filename" ->
     Forall (fun a => a !! key <> Some unknown) analysis_all).
Proof.
  split.
  - intros values H.
    apply values_of_key_Done in H as (t & in_order & Et & Es & Eg).
    pose proof (sorted_Permutation _ _ _ Es) as Hperm.
    apply group_loop_spec in Eg as (Hget & Hkeys & Hnd & Hlen & Hnames).
    specialize (Hnd (NoDup_nil_2)).
    split; [done|]. split; [by rewrite Hlen, Hperm|].
    assert (forall slot names, (slot, names) ∈ values ->
              names <> [] /\
              exists v, slot = Some v /\
                names = filenames_with key v in_order) as Hslot.
    { intros slot names Hin.
      assert (slot ∈ values.*1) as Hk.
      { apply list_elem_of_fmap. by exists (slot, names). }
      apply Hkeys in Hk as [Hk|(a & Ha & ->)]; [by inversion Hk|].
      rewrite <- (dict_get_elem _ _ _ Hnd Hin), Hget. cbn [app dict_get].
      split; [|by eexists].
      rewrite Forall_forall in Hnames. destruct (Hnames a Ha) as [n Hn].
      assert (n ∈ filenames_with key (slot_of key a) in_order) as Hmem.
      { apply list_elem_of_omap. exists a. split; [|done].
        by apply list_elem_of_filter. }
      intros Hnil. rewrite Hnil in Hmem. by inversion Hmem. }
    split.
    + intros a Ha. rewrite <- Hperm in Ha.
      assert (Some (slot_of key a) ∈ values.*1) as Hk.
      { apply Hkeys. right. by exists a. }
      apply list_elem_of_fmap in Hk as ([slot names] & Heq & Hin).
      cbn in Heq. subst slot. by exists names.
    + intros slot names Hin.
      destruct (Hslot slot names Hin) as (Hne & v & -> & ->).
      split; [done|]. exists v. split; [done|]. split.
      * unfold filenames_with. by rewrite Hperm.
      * intros Hunknown. unfold filenames_with. f_equal.
        refine (sorted_stable _ (fun a => slot_of key a = v)
                  analysis_all in_order _ Es).
        rewrite Forall_forall in Hunknown.
        intros x y Hx Hy Hsx Hsy.
        pose proof (Hunknown x Hx) as Hux. pose proof (Hunknown y Hy) as Huy.
        unfold slot_of in Hsx, Hsy.
        destruct (x !! key), (y !! key); congruence.
  - intros fuel files Hfiles Hkey.
    apply main_files_shape in Hfiles.
    eapply Forall_impl; [exact Hfiles|]. intros a [Hentries _] Hv.
    by apply (entry_ok_not_unknown key unknown Hkey (Hentries _ _ Hv)).
Qed.

Lemma grouping_by_value_witness :
  let analysis_all : list summary :=
    [{["filename" := VStr "c.sav"; "map-size" := VStr "64x64"]};
     {["filename" := VStr "a.sav"]};
     {["filename" := VStr "b.sav"; "map-size" := VStr "256x256"]};
     {["filename" := VStr "d.sav"; "map-size" := VStr "64x64"]}] in
  let values : slots :=
    [(Some unknown, [VStr "a.sav"]);
     (Some (VStr "256x256"), [VStr "b.sav"]);
     (Some (VStr "64x64"), [VStr "c.sav"; VStr "d.sav"])] in
  values_of_key "map-size" analysis_all = Done values /\
  Forall (fun a => a !! "map-size" <> Some unknown) analysis_all /\
  (Some (VStr "64x64"), [VStr "c.sav"; VStr "d.sav"]) ∈ values /\
  [VStr "c.sav"; VStr "d.sav"]
  = filenames_with "map-size" (VStr "64x64") analysis_all.
Proof.
  intros analysis_all values.
  assert (values_of_key "map-size" analysis_all = Done values) as H by by_vm.
  assert (Forall (fun a => a !! "map-size" <> Some unknown) analysis_all)
    as Hunknown.
  { repeat constructor; by vm_compute. }
  assert ((Some (VStr "64x64"), [VStr "c.sav"; VStr "d.sav"]) ∈ values)
    as Hin.
  { right. right. by left. }
  split; [exact H|]. split; [exact Hunknown|]. split; [exact Hin|].
  destruct (grouping_by_value (D := unit) (fun f : BufferedReader => f)
              "map-size" analysis_all) as [Hgroups _].
  destruct (Hgroups values H) as (_ & _ & _ & Hslot).
  destruct (Hslot _ _ Hin) as (_ & v & Hv & _ & Horder).
  injection Hv as <-. exact (Horder Hunknown).
Defined.

(** ** The order of the slots *)

Lemma StronglySorted_snoc {X : Type} (R : X -> X -> Prop) (l : list X) (x : X) :
  StronglySorted R l -> Forall (fun y => R y x) l ->
  StronglySorted R (l ++ [x]).
Proof.
  induction 1 as [|y l Hs IH Hy]; intros Hall; cbn [app].
  { repeat constructor. }
  apply Forall_cons in Hall as [Hyx Hall].
  constructor; [by apply IH|]. apply Forall_app. split; [done|].
  by constructor.
Qed.

Lemma StronglySorted_weaken {X : Type} (R1 R2 : X -> X -> Prop) (l : list X) :
  (forall a b, a ∈ l -> b ∈ l -> R1 a b -> R2 a b) ->
  StronglySorted R1 l -> StronglySorted R2 l.
Proof.
  intros Himp Hs. induction Hs as [|y l Hs IH Hy]; [constructor|].
  constructor.
  - apply IH. intros a b Ha Hb. apply Himp; by right.
  - apply Forall_forall. intros b Hb. rewrite Forall_forall in Hy.
    apply Himp; [by left|by right|by apply Hy].
Qed.

Lemma StronglySorted_Some {X : Type} (R : X -> X -> Prop) (l : list X) :
  StronglySorted
    (fun s1 s2 => exists v1 v2, s1 = Some v1 /\ s2 = Some v2 /\ R v1 v2)
    (Some <$> l) ->
  StronglySorted R l.
Proof.
  induction l as [|x l IH]; intros Hs; [constructor|].
  cbn [fmap list_fmap] in Hs. apply StronglySorted_inv in Hs as [Hs Hx].
  constructor; [by apply IH|].
  apply Forall_forall. intros y Hy. rewrite Forall_forall in Hx.
  destruct (Hx (Some y)) as (v1 & v2 & ? & ? & ?).
  { apply list_elem_of_fmap. by exists y. }
  by simplify_eq.
Qed.

Lemma all_Some {X : Type} (l : list (option X)) :
  (forall s, s ∈ l -> is_Some s) -> exists vs, l = Some <$> vs.
Proof.
  induction l as [|s l IH]; intros Hall.
  { by exists []. }
  destruct (Hall s) as [v ->]; [by left|].
  destruct IH as [vs ->]; [intros s' Hs'; apply Hall; by right|].
  by exists (v :: vs).
Qed.

(** The slots come into the dictionary in the order in which the loop
    first meets them. *)
Lemma group_loop_ordered (R : option value -> option value -> Prop)
    (key : string) (last_value : option value) (values values' : slots)
    (l : list summary) :
  group_loop key last_value last_value values l = Ok values' ->
  StronglySorted R values.*1 ->
  (forall s a, s ∈ values.*1 -> a ∈ l ->
     s = Some (slot_of key a) \/ R s (Some (slot_of key a))) ->
  StronglySorted (fun a b => slot_of key a = slot_of key b \/
                             R (Some (slot_of key a)) (Some (slot_of key b))) l ->
  StronglySorted R values'.*1.
Proof.
  revert last_value values.
  induction l as [|a l IH]; intros last_value values H Hs Hold Hl.
  { cbn in H. by simplify_eq. }
  rewrite group_loop_step in H.
  destruct (a !! "filename") as [name|]; [|done].
  apply StronglySorted_inv in Hl as [Hl Ha].
  apply IH in H; [done| | |done]; rewrite dict_append_keys.
  - destruct (decide _) as [|Hnew]; [done|].
    apply StronglySorted_snoc; [done|].
    apply Forall_forall. intros s Hin.
    destruct (Hold s a Hin) as [->|HR]; [by left|done|done].
  - intros s b Hin Hb. destruct (decide _) as [|Hnew].
    + apply Hold; [done|by right].
    + apply elem_of_app in Hin as [Hin|Hin].
      * apply Hold; [done|by right].
      * apply list_elem_of_singleton in Hin as ->.
        rewrite Forall_forall in Ha.
        destruct (Ha b Hb) as [->|HR]; [by left|by right].
Qed.

Lemma format_dxd_not_empty (w h : Z) : format_dxd w h <> "".
Proof.
  unfold format_dxd. destruct (pretty w) as [|c s]; [done|].
  by rewrite string_app_cons.
Qed.

(** In the records of decoded files no value is below the default of its
    type, and only the version can be the default itself. *)
Lemma entry_ok_default (key : string) (v : value) :
  key <> "filename" -> entry_ok key v ->
  value_lt v (default_value (type_of v)) = Ok false /\
  (v = default_value (type_of v) -> key = "savegame-version").
Proof.
  unfold entry_ok. intros Hkey H.
  repeat match goal with
         | H : _ \/ _ |- _ => destruct H
         | H : _ /\ _ |- _ => destruct H
         | H : ex _ |- _ => destruct H
         end; subst; cbn [type_of default_value value_lt].
  all: split;
    [f_equal; first [lia | by destruct (map byte_val _) | done]|].
  all: try done.
  intros Heq. injection Heq as Heq. by apply format_dxd_not_empty in Heq.
Qed.

(** X15.  The order of the slots of a key.  When no record holds the text
    "unknown" under the key, no value is below the default of its type,
    and no value is that default while another record lacks the key, the
    dictionary lists the slot "unknown" first (it is there exactly when a
    record lacks the key) and after it the values in strictly ascending
    order.  The records that [main] makes of decoded files meet the three
    conditions for every key but filename. *)
Theorem slots_in_order {D : Type} `{!InflateEngine D} {L : Type}
    `{!ByteSource L} (lzma_open : BufferedReader -> L) (key : string)
    (analysis_all : list summary) :
  (forall values : slots,
     values_of_key key analysis_all = Done values ->
     Forall (fun a => a !! key <> Some unknown) analysis_all ->
     (forall a v, a ∈ analysis_all -> a !! key = Some v ->
        value_lt v (default_value (type_of v)) = Ok false) ->
     (Exists (fun a => a !! key = None) analysis_all ->
      forall a v, a ∈ analysis_all -> a !! key = Some v ->
        v <> default_value (type_of v)) ->
     exists vs,
       values.*1
       = (if decide (Exists (fun a => a !! key = None) analysis_all)
          then [Some unknown] else []) ++ (Some <$> vs) /\
       StronglySorted (fun v1 v2 => value_lt v1 v2 = Ok true) vs /\
       unknown ∉ vs) /\
  (forall (fuel : nat) (files : list (string * bytes)),
     main_files lzma_open fuel files = Ok analysis_all ->
     key <> "filename" ->
     Forall (fun a => a !! key <> Some unknown) analysis_all /\
     (forall a v, a ∈ analysis_all -> a !! key = Some v ->
        value_lt v (default_value (type_of v)) = Ok false) /\
     (Exists (fun a => a !! key = None) analysis_all ->
      forall a v, a ∈ analysis_all -> a !! key = Some v ->
        v <> default_value (type_of v))).
Proof.
  split.
  - intros values H H1 H2 H3.
    apply values_of_key_Done in H as (t & in_order & Et & Es & Eg).
    pose proof (sorted_Permutation _ _ _ Es) as Hperm.
    pose proof (sorted_ordered _ _ _ Es) as Hord.
    destruct (detect_type_loop_Some _ _ _ _ Et) as [Htyped _].
    rewrite Forall_forall in H1.
    set (k := fun x : summary => match x !! key with
                                 | None => default_value t
                                 | Some v => v
                                 end) in *.
    set (g := fun v : value =>
                if decide (v = unknown) then default_value t else v).
    assert (forall a, a ∈ analysis_all -> g (slot_of key a) = k a) as Fk.
    { intros a Ha. unfold g, k, slot_of. pose proof (H1 a Ha) as Hu.
      destruct (a !! key) as [v|].
      - rewrite decide_False by congruence. done.
      - by rewrite decide_True. }
    assert (forall a b, a ∈ analysis_all -> b ∈ analysis_all ->
              k a = k b -> slot_of key a = slot_of key b) as Finj.
    { intros a b Ha Hb. unfold k, slot_of.
      destruct (a !! key) as [va|] eqn:Eva, (b !! key) as [vb|] eqn:Evb;
        try done.
      - intros ->. exfalso. apply (H3 ltac:(apply Exists_exists; eauto)
                                      a _ Ha Eva).
        by rewrite (Htyped a _ Ha Eva).
      - intros <-. exfalso. apply (H3 ltac:(apply Exists_exists; eauto)
                                      b _ Hb Evb).
        by rewrite (Htyped b _ Hb Evb). }
    set (R := fun s1 s2 : option value =>
                exists v1 v2, s1 = Some v1 /\ s2 = Some v2 /\
                              value_lt (g v1) (g v2) = Ok true).
    assert (StronglySorted R values.*1) as Hsorted.
    { apply (group_loop_ordered R key None [] values in_order Eg).
      - constructor.
      - intros s a Hs. by inversion Hs.
      - eapply StronglySorted_weaken; [|exact Hord].
        intros a b Ha Hb Hab. cbn beta in Hab.
        rewrite Hperm in Ha, Hb.
        destruct (value_lt_typed (k a) (k b)) as [[|] Hlt].
        { symmetry. by eapply value_lt_Ok. }
        + right. exists (slot_of key a), (slot_of key b).
          split; [done|]. split; [done|]. by rewrite !Fk.
        + left. apply Finj; [done..|]. by apply value_lt_total. }
    apply group_loop_spec in Eg as (_ & Hkeys & _ & _ & _).
    destruct (all_Some values.*1) as [vs' Hvs'].
    { intros s [Hs|(a & _ & ->)]%Hkeys; [by inversion Hs|done]. }
    rewrite Hvs' in Hsorted. apply StronglySorted_Some in Hsorted.
    assert (forall v, v ∈ vs' <->
              exists a, a ∈ analysis_all /\ v = slot_of key a) as Hmem.
    { intros v. rewrite <- (list_elem_of_fmap_inj Some), <- Hvs', Hkeys.
      split.
      - intros [Hs|(a & Ha & Heq)]; [by inversion Hs|].
        exists a. rewrite <- Hperm. by simplify_eq.
      - intros (a & Ha & ->). right. exists a. by rewrite Hperm. }
    assert (forall v, v ∈ vs' -> v <> unknown ->
              g v = v /\ value_lt v (default_value t) = Ok false) as Hreal.
    { intros v (a & Ha & ->)%Hmem Hne. unfold g.
      rewrite decide_False by done. split; [done|].
      unfold slot_of in *. destruct (a !! key) as [va|] eqn:Eva; [|done].
      rewrite <- (Htyped a va Ha Eva). by eapply H2. }
    assert (forall vs, (forall v, v ∈ vs -> v ∈ vs' /\ v <> unknown) ->
              StronglySorted (fun v1 v2 => value_lt (g v1) (g v2) = Ok true) vs ->
              StronglySorted (fun v1 v2 => value_lt v1 v2 = Ok true) vs)
      as Hplain.
    { intros vs Hsub. apply StronglySorted_weaken.
      intros a b [Ha Hau]%Hsub [Hb Hbu]%Hsub.
      destruct (Hreal a Ha Hau) as [-> _].
      by destruct (Hreal b Hb Hbu) as [-> _]. }
    rewrite Hvs'.
    destruct (decide (Exists (fun a => a !! key = None) analysis_all))
      as [Hlack|Hfull].
    + assert (unknown ∈ vs') as Hin.
      { apply Hmem. apply Exists_exists in Hlack as (a & Ha & Hnone).
        exists a. split; [done|]. unfold slot_of. by rewrite Hnone. }
      destruct vs' as [|v0 vs]; [by inversion Hin|].
      apply StronglySorted_inv in Hsorted as [Hs Hv0].
      rewrite Forall_forall in Hv0.
      destruct (decide (v0 = unknown)) as [->|Hne].
      * assert (unknown ∉ vs) as Hnot.
        { intros Hu. by apply (value_lt_irrefl (g unknown)), Hv0. }
        exists vs. split; [done|]. split; [|done].
        apply Hplain; [|done]. intros v Hv. split; [by right|].
        intros ->. done.
      * exfalso. apply elem_of_cons in Hin as [?|Hin]; [done|].
        pose proof (Hv0 _ Hin) as Hlt.
        destruct (Hreal v0 ltac:(by left) Hne) as [Hg Hge].
        rewrite Hg in Hlt. unfold g in Hlt. rewrite decide_True in Hlt by done.
        congruence.
    + exists vs'. split; [done|].
      assert (unknown ∉ vs') as Hnot.
      { intros (a & Ha & Heq)%Hmem. unfold slot_of in Heq.
        destruct (a !! key) as [va|] eqn:Eva.
        - apply (H1 a Ha). by rewrite Eva, Heq.
        - apply Hfull. apply Exists_exists. by exists a. }
      split; [|done]. apply Hplain; [|done].
      intros v Hv. split; [done|]. by intros ->.
  - intros fuel files Hfiles Hkey.
    apply main_files_shape in Hfiles. rewrite Forall_forall in Hfiles.
    split; [|split].
    + apply Forall_forall. intros a Ha Hv.
      destruct (Hfiles a Ha) as [Hentries _].
      by apply (entry_ok_not_unknown key unknown Hkey (Hentries _ _ Hv)).
    + intros a v Ha Hv. destruct (Hfiles a Ha) as [Hentries _].
      by apply (entry_ok_default key v Hkey (Hentries _ _ Hv)).
    + intros (b & Hb & Hnone)%Exists_exists a v Ha Hv Hdef.
      destruct (Hfiles a Ha) as [Hentries _].
      destruct (entry_ok_default key v Hkey (Hentries _ _ Hv)) as [_ Hversion].
      rewrite (Hversion Hdef) in Hnone.
      destruct (Hfiles b Hb) as (_ & _ & [n Hn] & _). congruence.
Qed.

Lemma slots_in_order_witness :
  let analysis_all : list summary :=
    [{["filename" := VStr "c.sav"; "map-size" := VStr "64x64"]};
     {["filename" := VStr "a.sav"]};
     {["filename" := VStr "b.sav"; "map-size" := VStr "256x256"]}] in
  let values : slots :=
    [(Some unknown, [VStr "a.sav"]);
     (Some (VStr "256x256"), [VStr "b.sav"]);
     (Some (VStr "64x64"), [VStr "c.sav"])] in
  values_of_key "map-size" analysis_all = Done values /\
  Forall (fun a => a !! "map-size" <> Some unknown) analysis_all /\
  exists vs,
    values.*1
    = (if decide (Exists (fun a => a !! "map-size" = None) analysis_all)
       then [Some unknown] else []) ++ (Some <$> vs) /\
    StronglySorted (fun v1 v2 => value_lt v1 v2 = Ok true) vs /\
    unknown ∉ vs.
Proof.
  intros analysis_all values.
  assert (values_of_key "map-size" analysis_all = Done values) as H by by_vm.
  assert (Forall (fun a => a !! "map-size" <> Some unknown) analysis_all)
    as H1.
  { repeat constructor; by vm_compute. }
  assert (forall a v, a ∈ analysis_all -> a !! "map-size" = Some v ->
            value_lt v (default_value (type_of v)) = Ok false) as H2.
  { intros a v Ha Hv. subst analysis_all.
    repeat (apply elem_of_cons in Ha as [->|Ha]); [..|by inversion Ha];
      vm_compute in Hv; by simplify_eq. }
  assert (Exists (fun a => a !! "map-size" = None) analysis_all ->
          forall a v, a ∈ analysis_all -> a !! "map-size" = Some v ->
            v <> default_value (type_of v)) as H3.
  { intros _ a v Ha Hv. subst analysis_all.
    repeat (apply elem_of_cons in Ha as [->|Ha]); [..|by inversion Ha];
      vm_compute in Hv; by simplify_eq. }
  split; [exact H|]. split; [exact H1|].
  destruct (slots_in_order (D := unit) (fun f : BufferedReader => f)
              "map-size" analysis_all) as [Horder _].
  exact (Horder values H H1 H2 H3).
Defined.

(** ** The text of a map size *)

Lemma chars_app (a b : string) :
  list_ascii_of_string (a +:+ b)
  = list_ascii_of_string a ++ list_ascii_of_string b.
Proof.
  induction a as [|c a IH]; [done|].
  rewrite string_app_cons. cbn [list_ascii_of_string app]. by rewrite IH.
Qed.

Lemma chars_inj (a b : string) :
  list_ascii_of_string a = list_ascii_of_string b -> a = b.
Proof.
  intros H. rewrite <- (string_of_list_ascii_of_string a),
    <- (string_of_list_ascii_of_string b). by rewrite H.
Qed.

Lemma split_at_first {X : Type} (x : X) (a a' b b' : list X) :
  x ∉ a -> x ∉ a' -> a ++ x :: b = a' ++ x :: b' -> a = a' /\ b = b'.
Proof.
  revert a'. induction a as [|y a IH]; intros [|y' a'] Ha Ha' H;
    cbn [app] in H.
  - by simplify_eq.
  - simplify_eq. exfalso. apply Ha'. by left.
  - simplify_eq. exfalso. apply Ha. by left.
  - injection H as -> H. destruct (IH a') as [-> ->]; [| |done|done].
    + intros Hin. apply Ha. by right.
    + intros Hin. apply Ha'. by right.
Qed.

Lemma pretty_N_go_chars (x : N) (s : string) (c : ascii) :
  c ∈ list_ascii_of_string (pretty_N_go x s) ->
  c ∈ list_ascii_of_string s \/ c ∈ list_ascii_of_string "0123456789".
Proof.
  revert s. induction (N.lt_wf_0 x) as [x _ IH]; intros s Hc.
  assert (x = 0 \/ 0 < x)%N as [->|Hpos] by lia.
  { rewrite pretty_N_go_0 in Hc. by left. }
  rewrite pretty_N_go_step in Hc by done.
  apply IH in Hc as [Hc|Hc]; [|by right|by apply N.div_lt].
  cbn [list_ascii_of_string] in Hc.
  apply elem_of_cons in Hc as [->|Hc]; [right|by left].
  unfold pretty_N_char. apply list_elem_of_In.
  repeat case_match; cbn; auto 12.
Qed.

Lemma pretty_Z_chars (w : Z) (c : ascii) :
  c ∈ list_ascii_of_string (pretty w) ->
  c ∈ list_ascii_of_string "-0123456789".
Proof.
  assert (forall n : N, c ∈ list_ascii_of_string (pretty n) ->
            c ∈ list_ascii_of_string "0123456789") as HN.
  { intros n. unfold pretty, pretty_N. destruct (decide _).
    - intros Hc. cbn in Hc. apply list_elem_of_singleton in Hc as ->.
      by left.
    - intros [Hc|Hc]%pretty_N_go_chars; [by inversion Hc|done]. }
  unfold pretty, pretty_Z. destruct w as [|p|p].
  - intros Hc. cbn in Hc. apply list_elem_of_singleton in Hc as ->.
    right. by left.
  - intros Hc%HN. by right.
  - rewrite string_app_cons. cbn [list_ascii_of_string].
    intros [->|Hc%HN]%elem_of_cons; [by left|by right].
Qed.

Lemma big_endian_snoc (data : bytes) (b : byte) :
  big_endian (data ++ [b]) = big_endian data * 256 + byte_val b.
Proof. unfold big_endian. by rewrite fold_left_app. Qed.

Lemma big_endian_inj (x y : bytes) :
  length x = length y -> big_endian x = big_endian y -> x = y.
Proof.
  revert y. induction x as [|a x IH] using rev_ind; intros y Hlen Heq.
  { destruct y; [done|]. cbn in Hlen. lia. }
  destruct y as [|b y _] using rev_ind.
  { rewrite length_app in Hlen. cbn in Hlen. lia. }
  rewrite !length_app in Hlen. cbn [length] in Hlen.
  rewrite !big_endian_snoc in Heq.
  pose proof (byte_val_range a). pose proof (byte_val_range b).
  assert (big_endian x = big_endian y /\ byte_val a = byte_val b)
    as [Hxy Hab] by lia.
  apply byte_val_inj in Hab as ->. f_equal. apply IH; [lia|done].
Qed.

Lemma format_dxd_inj (w h w' h' : Z) :
  format_dxd w h = format_dxd w' h' -> w = w' /\ h = h'.
Proof.
  unfold format_dxd. intros H.
  apply (f_equal list_ascii_of_string) in H.
  rewrite !chars_app in H. cbn [list_ascii_of_string app] in H.
  assert (forall z : Z, "x"%char ∉ list_ascii_of_string (pretty z)) as Hno.
  { intros z Hx%pretty_Z_chars. apply list_elem_of_In in Hx. cbn in Hx.
    intuition discriminate. }
  apply split_at_first in H as [Hw Hh]; [|done..].
  apply chars_inj in Hw, Hh. split; by apply (inj pretty).
Qed.

Lemma analyze_chunk_MAPS_long (index : Z) (data : bytes) (analysis : summary) :
  (8 <= length data)%nat ->
  analyze_chunk (b_ "MAPS") index data analysis
  = Ok (<["map-size" := VStr (format_dxd (big_endian (take 4 data))
                                (big_endian (take 4 (drop 4 data))))]>
          analysis).
Proof.
  intros Hlen. rewrite analyze_chunk_MAPS.
  rewrite (proj1 (read_uint32_InMemory data)) by lia. rewrite bind_Ok.
  rewrite (proj1 (read_uint32_InMemory (drop 4 data)))
    by (rewrite length_drop; lia).
  by rewrite bind_Ok.
Qed.

(** X16.  The text of a map size tells the sizes apart: "%dx%d" gives
    different texts for different pairs of numbers, so two MAPS payloads
    give the same map-size entry only when their first eight bytes are the
    same, and the grouping by map-size never files maps of different sizes
    under one slot. *)
Theorem map_size_text_inj (index index' : Z) (analysis analysis' : summary) :
  (forall w h w' h' : Z,
     format_dxd w h = format_dxd w' h' -> w = w' /\ h = h') /\
  (forall (data data' : bytes) (a a' : summary),
     (8 <= length data)%nat -> (8 <= length data')%nat ->
     analyze_chunk (b_ "MAPS") index data analysis = Ok a ->
     analyze_chunk (b_ "MAPS") index' data' analysis' = Ok a' ->
     a !! "map-size" = a' !! "map-size" ->
     take 8 data = take 8 data').
Proof.
  split; [apply format_dxd_inj|].
  intros data data' a a' Hlen Hlen' Ha Ha' Heq.
  rewrite analyze_chunk_MAPS_long in Ha, Ha' by done. simplify_eq.
  rewrite !lookup_insert_eq in Heq. simplify_eq.
  apply format_dxd_inj in Heq as [Hw Hh].
  apply big_endian_inj in Hw; [|rewrite !length_take; lia].
  apply big_endian_inj in Hh; [|rewrite !length_take, !length_drop; lia].
  rewrite !take_drop_commute in Hh. change (4 + 4)%nat with 8%nat in Hh.
  rewrite <- (take_drop 4 (take 8 data)), <- (take_drop 4 (take 8 data')).
  rewrite !take_take, !Nat.min_l by lia.
  by rewrite Hw, Hh.
Qed.

Lemma map_size_text_inj_witness :
  let data := [x00; x00; x01; x00; x00; x00; x02; x00; x2a] in
  let data' := [x00; x00; x01; x00; x00; x00; x02; x00; xff; xff] in
  let a : summary := <["map-size" := VStr "256x512"]> ∅ in
  let a' : summary :=
    <["map-size" := VStr "256x512"]> {["filename" := VStr "b.sav"]} in
  (8 <= length data)%nat /\ (8 <= length data')%nat /\
  analyze_chunk (b_ "MAPS") (-1) data ∅ = Ok a /\
  analyze_chunk (b_ "MAPS") 3 data' {["filename" := VStr "b.sav"]} = Ok a' /\
  a !! "map-size" = a' !! "map-size" /\
  take 8 data = take 8 data'.
Proof.
  intros data data' a a'.
  assert (8 <= length data)%nat as Hlen by (cbn; lia).
  assert (8 <= length data')%nat as Hlen' by (cbn; lia).
  assert (analyze_chunk (b_ "MAPS") (-1) data ∅ = Ok a) as Ha by by_vm.
  assert (analyze_chunk (b_ "MAPS") 3 data' {["filename" := VStr "b.sav"]}
          = Ok a') as Ha' by by_vm.
  assert (a !! "map-size" = a' !! "map-size") as Heq by by_vm.
  repeat (split; [assumption|]).
  destruct (map_size_text_inj (-1) 3 ∅ {["filename" := VStr "b.sav"]})
    as [_ Hsame].
  exact (Hsame data data' a a' Hlen Hlen' Ha Ha' Heq).
Defined.
